(** * Passkey Readiness Tester: ceremony core

    A shallow embedding of the server-side ceremony code (challenge,
    credential and user models, the WebAuthn and OTP controllers and the
    credential-id canonicalization helper) together with the properties
    its specification states about it.

    Conventions of the embedding:
    - a Mongo collection is the list of its documents in natural
      (insertion) order;
    - a [Date] is its epoch value in milliseconds, within the range
      [validDate] that a [Date] can hold; a JS [number] that the code only
      uses for counting is a [Z];
    - an optional string property ([userId?: string]) is an
      [option string]; JS truthiness of such a value is [truthy];
    - strings are Latin-1 text (identifiers, handles and codes are ASCII
      on the wire);
    - [async] methods run to completion one at a time, so a method is a
      function from the store before the call to the store after it: what
      is stated of a handler is stated of calls that do not overlap;
    - a controller reads the clock once per request, its [now]; the
      challenge model takes its two clock readings apart. *)

From Stdlib Require Import ZArith NArith List Bool Lia Ascii String.
From stdpp Require Import base decidable option list strings pretty gmap.

#[local] Open Scope Z_scope.

(* ===================================================================== *)
(** * JavaScript values                                                   *)
(* ===================================================================== *)

(** [!!s] for an optional string: [undefined] and the empty string are
    falsy, every other string is truthy. *)
Definition truthy (s : option string) : bool :=
  match s with
  | Some v => negb (String.eqb v "")
  | None => false
  end.

(** [s || d] for an optional string. *)
Definition orElse (s : option string) (d : string) : string :=
  if truthy s then default d s else d.

(** The time values a [Date] can hold: 100,000,000 days either side of the
    epoch.  [new Date(t)] for a [t] outside is an Invalid Date, and within
    the range every sum and product the code forms is exact. *)
Definition validDate (t : Z) : Prop :=
  -8640000000000000 <= t <= 8640000000000000.

(** Modelled from the spec: the [AppError] class of the error middleware
    (middleware/error.js) is not among the sources; an [AppError] is what
    its call sites build, [new AppError(message, statusCode)], the
    user-visible failure with its HTTP status.  Anything else a JS [throw]
    carries here (driver, runtime and library failures) is a [JsError]
    with its [name] and [message]. *)
Inductive exn : Type :=
| AppError (message : string) (statusCode : Z)
| JsError (name message : string).

#[global] Instance exn_eq_dec : EqDecision exn.
Proof. solve_decision. Defined.

(* ===================================================================== *)
(** * The document store (db/index.ts)                                    *)
(* ===================================================================== *)

Inductive ChallengeType : Type := registration | authentication.

#[global] Instance ChallengeType_eq_dec : EqDecision ChallengeType.
Proof. solve_decision. Defined.

Definition ChallengeType_eqb (a b : ChallengeType) : bool := bool_decide (a = b).

(** [interface Challenge]. [createChallenge] always writes [userId]
    (the empty string for an owner-less ceremony), so the field is a plain
    string. *)
Record Challenge : Type := mkChallenge {
  ch_id : string;
  ch_userId : string;
  ch_challenge : string;
  ch_type : ChallengeType;
  ch_createdAt : Z;
  ch_expiresAt : Z;
  ch_used : bool
}.

#[global] Instance Challenge_eq_dec : EqDecision Challenge.
Proof. solve_decision. Defined.

Definition set_used (u : bool) (c : Challenge) : Challenge :=
  mkChallenge (ch_id c) (ch_userId c) (ch_challenge c) (ch_type c)
              (ch_createdAt c) (ch_expiresAt c) u.

(** The part of the Mongo driver the models use.  [findOne] returns the
    first match in natural order; [updateOne] rewrites the first match and
    reports [modifiedCount = 1] only when the document really changed (a
    [$set] to the value already stored matches but does not modify);
    [insertOne] fails with a duplicate-key error when a unique index of
    the collection is violated. *)
Module Mongo.

Record UpdateResult : Type := mkUpdateResult {
  matchedCount : Z;
  modifiedCount : Z
}.

Section Collection.
Context {A : Type} `{EqDecision A}.

Definition findOne (q : A → bool) (docs : list A) : option A :=
  List.find q docs.

Definition find (q : A → bool) (docs : list A) : list A :=
  List.filter q docs.

Fixpoint updateOne (q : A → bool) (upd : A → A) (docs : list A)
  : list A * UpdateResult :=
  match docs with
  | [] => ([], mkUpdateResult 0 0)
  | d :: rest =>
      if q d
      then (upd d :: rest,
            mkUpdateResult 1 (if decide (upd d = d) then 0 else 1))
      else let r := updateOne q upd rest in (d :: fst r, snd r)
  end.

(** [clash d d'] says that [d] and [d'] collide on a unique index. *)
Definition insertOne (clash : A → A → bool) (d : A) (docs : list A)
  : exn + list A :=
  if existsb (clash d) docs
  then inl (JsError "MongoServerError" "E11000 duplicate key error")
  else inr (docs ++ [d]).

Definition deleteMany (q : A → bool) (docs : list A) : list A * Z :=
  (List.filter (λ d, negb (q d)) docs,
   Z.of_nat (length (List.filter q docs))).

(** [{ sort: { key: -1 } }]: descending by [key]; documents with equal
    keys keep their natural order. *)
Fixpoint insertDesc (key : A → Z) (x : A) (sorted : list A) : list A :=
  match sorted with
  | [] => [x]
  | y :: rest =>
      if key y <=? key x then x :: sorted else y :: insertDesc key x rest
  end.

Definition sortDesc (key : A → Z) (docs : list A) : list A :=
  fold_right (insertDesc key) [] docs.

Definition findOneSorted (q : A → bool) (key : A → Z) (docs : list A)
  : option A :=
  head (sortDesc key (find q docs)).


End Collection.
End Mongo.

(* ===================================================================== *)
(** * ChallengeModel                                                      *)
(* ===================================================================== *)

Module ChallengeModel.

(** The unique index of the collection: [{ id: 1 }]. *)
Definition clash (a b : Challenge) : bool := String.eqb (ch_id a) (ch_id b).

(** [createChallenge(challenge, type, userId?, expirationMinutes = 5)];
    [id] is the value [nanoid()] returns, [created] the clock as
    [new Date()] reads it for [createdAt], and [now] the clock as
    [Date.now()] reads it next, for [expiresAt]. *)
Definition createChallenge (id : string) (created now : Z)
    (challenge : string) (type : ChallengeType) (userId : option string)
    (expirationMinutes : Z) (docs : list Challenge)
  : exn + (list Challenge * Challenge) :=
  let challengeDoc :=
    mkChallenge id (orElse userId "") challenge type created
                (now + expirationMinutes * 60 * 1000) false in
  match Mongo.insertOne clash challengeDoc docs with
  | inl e => inl e
  | inr docs' => inr (docs', challengeDoc)
  end.

(** The query object [findValidChallenge] builds:
    [{ type, used: false, expiresAt: { $gt: now } }], plus [userId] when
    the argument is truthy. *)
Definition validQuery (now : Z) (type : ChallengeType)
    (userId : option string) (c : Challenge) : bool :=
  ChallengeType_eqb (ch_type c) type
  && negb (ch_used c)
  && (now <? ch_expiresAt c)
  && (if truthy userId
      then String.eqb (ch_userId c) (default "" userId)
      else true).

Definition findValidChallenge (now : Z) (type : ChallengeType)
    (userId : option string) (docs : list Challenge) : option Challenge :=
  Mongo.findOneSorted (validQuery now type userId) ch_createdAt docs.

Definition byId (id : string) (c : Challenge) : bool :=
  String.eqb (ch_id c) id.

Definition markChallengeAsUsed (id : string) (docs : list Challenge)
  : list Challenge * bool :=
  let result := Mongo.updateOne (byId id) (set_used true) docs in
  (fst result, 0 <? Mongo.modifiedCount (snd result)).

Definition cleanupExpiredChallenges (now : Z) (docs : list Challenge)
  : list Challenge * Z :=
  Mongo.deleteMany (λ c, ch_expiresAt c <? now) docs.



(** The TTL index of the collection,
    [{ expiresAt: 1 }, { expireAfterSeconds: 0 }] ([createIndexes] in
    db/index.ts): whenever the database's monitor runs, it removes
    documents whose [expiresAt] has passed.  A pass at time [now] removes
    the documents of its [batch] among them. *)
Definition ttlMonitor (now : Z) (batch : Challenge → bool)
    (docs : list Challenge) : list Challenge :=
  List.filter (λ c, negb (batch c && (ch_expiresAt c <=? now))) docs.

End ChallengeModel.

(* ===================================================================== *)
(** * Users, credentials, audit events                                    *)
(* ===================================================================== *)

(** A [Buffer]: its bytes, each below 256. *)
Definition Buffer : Type := list N.

Record User : Type := mkUser {
  u_id : string;
  u_username : string;
  u_email : option string;
  u_displayName : option string;
  u_createdAt : Z;
  u_lastLoginAt : option Z;
  u_isActive : bool;
  u_passkeyRegistrations : Z;
  u_otpFallbackUsage : Z;
  u_successfulAuthentications : Z;
  u_failedAuthentications : Z
}.

#[global] Instance User_eq_dec : EqDecision User.
Proof. solve_decision. Defined.

Inductive DeviceType : Type := platform | cross_platform.

#[global] Instance DeviceType_eq_dec : EqDecision DeviceType.
Proof. solve_decision. Defined.

Record Credential : Type := mkCredential {
  cr_id : string;
  cr_userId : string;
  cr_publicKey : Buffer;
  cr_counter : Z;
  cr_deviceType : option DeviceType;
  cr_transports : list string;
  cr_createdAt : Z;
  cr_lastUsedAt : option Z;
  cr_useCount : Z
}.

#[global] Instance Credential_eq_dec : EqDecision Credential.
Proof. solve_decision. Defined.

Inductive Severity : Type := low | medium | high | critical.

#[global] Instance Severity_eq_dec : EqDecision Severity.
Proof. solve_decision. Defined.

(** A value inside an event payload.  The code stores
    [JSON.stringify(payload)]; the embedding keeps the payload object
    itself, of which the stored text is an injective image. *)
Inductive Json : Type :=
| JStr (s : string)
| JNum (n : Z)
| JUndefined.

#[global] Instance Json_eq_dec : EqDecision Json.
Proof. solve_decision. Defined.

Definition JOpt (s : option string) : Json :=
  match s with Some v => JStr v | None => JUndefined end.

Definition Payload : Type := list (string * Json).

Record SecurityEvent : Type := mkSecurityEvent {
  se_id : string;
  se_userId : string;
  se_eventType : string;
  se_eventData : Payload;
  se_ipAddress : string;
  se_userAgent : string;
  se_timestamp : Z;
  se_severity : Severity
}.

#[global] Instance SecurityEvent_eq_dec : EqDecision SecurityEvent.
Proof. solve_decision. Defined.

(** An entry of the OTP controller's in-memory [Map]. *)
Inductive OtpMethod : Type := email_method | sms_method.

#[global] Instance OtpMethod_eq_dec : EqDecision OtpMethod.
Proof. solve_decision. Defined.

Record OtpData : Type := mkOtpData {
  otp_id : string;
  otp_username : option string;
  otp_email : option string;
  otp_phoneNumber : option string;
  otp_userId : option string;
  otp_identifier : option string;
  otp_otp : string;
  otp_method : OtpMethod;
  otp_type : ChallengeType;
  otp_attempts : Z;
  otp_maxAttempts : Z;
  otp_expiresAt : Z;
  otp_verified : bool;
  otp_createdAt : Z
}.

#[global] Instance OtpData_eq_dec : EqDecision OtpData.
Proof. solve_decision. Defined.

Definition set_attempts (n : Z) (d : OtpData) : OtpData :=
  mkOtpData (otp_id d) (otp_username d) (otp_email d) (otp_phoneNumber d)
            (otp_userId d) (otp_identifier d) (otp_otp d) (otp_method d)
            (otp_type d) n (otp_maxAttempts d) (otp_expiresAt d)
            (otp_verified d) (otp_createdAt d).

(* ===================================================================== *)
(** * The server state and the monad of a request handler                 *)
(* ===================================================================== *)

(** Everything a handler can read or write: the four collections, the OTP
    controller's [otpStore] with the ids for which a [setTimeout] cleanup
    is pending, and the number of [nanoid()] values drawn so far. *)
Record World : Type := mkWorld {
  users : list User;
  credentials : list Credential;
  challenges : list Challenge;
  securityEvents : list SecurityEvent;
  otpStore : gmap string OtpData;
  otpTimers : list string;
  drawn : nat
}.

Definition with_users (f : list User → list User) (w : World) : World :=
  mkWorld (f (users w)) (credentials w) (challenges w) (securityEvents w)
          (otpStore w) (otpTimers w) (drawn w).

Definition with_credentials (f : list Credential → list Credential)
    (w : World) : World :=
  mkWorld (users w) (f (credentials w)) (challenges w) (securityEvents w)
          (otpStore w) (otpTimers w) (drawn w).

Definition with_challenges (f : list Challenge → list Challenge)
    (w : World) : World :=
  mkWorld (users w) (credentials w) (f (challenges w)) (securityEvents w)
          (otpStore w) (otpTimers w) (drawn w).

Definition with_securityEvents (f : list SecurityEvent → list SecurityEvent)
    (w : World) : World :=
  mkWorld (users w) (credentials w) (challenges w) (f (securityEvents w))
          (otpStore w) (otpTimers w) (drawn w).

Definition with_otp (f : gmap string OtpData → gmap string OtpData)
    (g : list string → list string) (w : World) : World :=
  mkWorld (users w) (credentials w) (challenges w) (securityEvents w)
          (f (otpStore w)) (g (otpTimers w)) (drawn w).

Definition with_drawn (f : nat → nat) (w : World) : World :=
  mkWorld (users w) (credentials w) (challenges w) (securityEvents w)
          (otpStore w) (otpTimers w) (f (drawn w)).

(** A handler either returns a value or throws; the writes it made before
    throwing stay (nothing here runs in a transaction). *)
Definition M (A : Type) : Type := World → (exn + A) * World.

Definition ret {A : Type} (a : A) : M A := λ w, (inr a, w).

Definition throw {A : Type} (e : exn) : M A := λ w, (inl e, w).

Definition bind {A B : Type} (m : M A) (k : A → M B) : M B :=
  λ w, match m w with
       | (inl e, w') => (inl e, w')
       | (inr a, w') => k a w'
       end.

(** [try { m } catch (e) { h e }]. *)
Definition tryCatch {A : Type} (m : M A) (h : exn → M A) : M A :=
  λ w, match m w with
       | (inl e, w') => h e w'
       | (inr a, w') => (inr a, w')
       end.

Definition gets {A : Type} (f : World → A) : M A := λ w, (inr (f w), w).

Definition modify (f : World → World) : M unit := λ w, (inr tt, f w).

(** Lifts a fallible pure step (a library call) into a handler. *)
Definition lift {A : Type} (r : exn + A) : M A := λ w, (r, w).

(** A handler given by what it does to the state. *)
Definition state {A : Type} (f : World → (exn + A) * World) : M A := f.

Notation "'do' x <- m ; k" := (bind m (λ x, k))
  (at level 10, x name, m at level 100, k at level 200,
   format "'[v' 'do'  x  <-  m ; '/' k ']'").
Notation "'run' m ; k" := (bind m (λ _, k))
  (at level 10, m at level 100, k at level 200,
   format "'[v' 'run'  m ; '/' k ']'").

(* ===================================================================== *)
(** * UserModel                                                           *)
(* ===================================================================== *)

Module UserModel.

(** The unique indexes of [users]: [username], [id], and [email] where a
    document has one (the index is sparse). *)
Definition clash (a b : User) : bool :=
  String.eqb (u_username a) (u_username b)
  || String.eqb (u_id a) (u_id b)
  || match u_email a, u_email b with
     | Some x, Some y => String.eqb x y
     | _, _ => false
     end.

Definition createUser (id : string) (now : Z) (username : string)
    (displayName email : option string) (docs : list User)
  : exn + (list User * User) :=
  let user :=
    mkUser id username (if truthy email then email else None)
           (Some (orElse displayName username)) now None true 0 0 0 0 in
  match Mongo.insertOne clash user docs with
  | inl e => inl e
  | inr docs' => inr (docs', user)
  end.

Definition findByUsername (username : string) (docs : list User) : option User :=
  Mongo.findOne (λ u, String.eqb (u_username u) username) docs.

Definition findByEmail (email : string) (docs : list User) : option User :=
  Mongo.findOne
    (λ u, match u_email u with
          | Some e => String.eqb e email
          | None => false
          end) docs.

(** [identifier.includes('@')]. *)
Definition includesAt (identifier : string) : bool :=
  existsb (λ c, Ascii.eqb c "@"%char) (String.list_ascii_of_string identifier).

Definition findByUsernameOrEmail (identifier : string) (docs : list User)
  : option User :=
  if includesAt identifier
  then findByEmail identifier docs
  else findByUsername identifier docs.

Definition byId (id : string) (u : User) : bool := String.eqb (u_id u) id.

Definition findById (id : string) (docs : list User) : option User :=
  Mongo.findOne (byId id) docs.

Definition incrementPasskeyRegistrations (id : string) (docs : list User)
  : list User * bool :=
  let result :=
    Mongo.updateOne (byId id)
      (λ u, mkUser (u_id u) (u_username u) (u_email u) (u_displayName u)
                   (u_createdAt u) (u_lastLoginAt u) (u_isActive u)
                   (u_passkeyRegistrations u + 1) (u_otpFallbackUsage u)
                   (u_successfulAuthentications u)
                   (u_failedAuthentications u)) docs in
  (fst result, 0 <? Mongo.modifiedCount (snd result)).

Definition incrementSuccessfulAuthentications (now : Z) (id : string)
    (docs : list User) : list User * bool :=
  let result :=
    Mongo.updateOne (byId id)
      (λ u, mkUser (u_id u) (u_username u) (u_email u) (u_displayName u)
                   (u_createdAt u) (Some now) (u_isActive u)
                   (u_passkeyRegistrations u) (u_otpFallbackUsage u)
                   (u_successfulAuthentications u + 1)
                   (u_failedAuthentications u)) docs in
  (fst result, 0 <? Mongo.modifiedCount (snd result)).

End UserModel.

(* ===================================================================== *)
(** * CredentialModel                                                     *)
(* ===================================================================== *)

Module CredentialModel.

(** The unique index of [credentials]: [{ id: 1 }]. *)
Definition clash (a b : Credential) : bool := String.eqb (cr_id a) (cr_id b).

(** [{ ...credentialData, createdAt: new Date(), useCount: 0 }]. *)
Definition createCredential (now : Z) (credentialData : Credential)
    (docs : list Credential) : exn + (list Credential * Credential) :=
  let credential :=
    mkCredential (cr_id credentialData) (cr_userId credentialData)
                 (cr_publicKey credentialData) (cr_counter credentialData)
                 (cr_deviceType credentialData) (cr_transports credentialData)
                 now (cr_lastUsedAt credentialData) 0 in
  match Mongo.insertOne clash credential docs with
  | inl e => inl e
  | inr docs' => inr (docs', credential)
  end.

Definition byId (id : string) (c : Credential) : bool := String.eqb (cr_id c) id.

Definition findById (id : string) (docs : list Credential) : option Credential :=
  Mongo.findOne (byId id) docs.

Definition findByUserId (userId : string) (docs : list Credential)
  : list Credential :=
  Mongo.find (λ c, String.eqb (cr_userId c) userId) docs.

(** [updateCredential(id, updates)] with the only argument the code ever
    passes, [updates = {}]: an empty [$set]. *)
Definition updateCredentialEmpty (id : string) (docs : list Credential)
  : list Credential * bool :=
  let result := Mongo.updateOne (byId id) (λ c, c) docs in
  (fst result, 0 <? Mongo.modifiedCount (snd result)).

(** The update document of [updateCounter]:
    [{ $set: { counter: newCounter, lastUsedAt: now }, $inc: { useCount: 1 } }]. *)
Definition counterUpdate (now newCounter : Z) (c : Credential) : Credential :=
  mkCredential (cr_id c) (cr_userId c) (cr_publicKey c) newCounter
               (cr_deviceType c) (cr_transports c) (cr_createdAt c)
               (Some now) (cr_useCount c + 1).

Definition updateCounter (now : Z) (id : string) (newCounter : Z)
    (docs : list Credential) : list Credential * bool :=
  let result := Mongo.updateOne (byId id) (counterUpdate now newCounter) docs in
  (fst result, 0 <? Mongo.modifiedCount (snd result)).

Definition deleteByUserId (userId : string) (docs : list Credential)
  : list Credential * Z :=
  Mongo.deleteMany (λ c, String.eqb (cr_userId c) userId) docs.

End CredentialModel.

(* ===================================================================== *)
(** * SecurityEventModel                                                  *)
(* ===================================================================== *)

Module SecurityEventModel.

(** [logEvent(eventType, eventData?, userId?, ipAddress?, userAgent?,
    severity = 'low')]: one document appended to [securityEvents]. *)
Definition logEvent (id : string) (now : Z) (eventType : string)
    (eventData : Payload) (userId ipAddress userAgent : option string)
    (severity : Severity) (docs : list SecurityEvent)
  : list SecurityEvent * SecurityEvent :=
  let event :=
    mkSecurityEvent id (orElse userId "") eventType eventData
                    (orElse ipAddress "") (orElse userAgent "") now severity in
  (docs ++ [event], event).

End SecurityEventModel.

(* ===================================================================== *)
(** * Strings, buffers and the credential-id canonicalization helper      *)
(* ===================================================================== *)

(** Identifiers travel as Latin-1 text, a Rocq [string].  A string that a
    decoder produces is kept as its list of UTF-16 code units until the
    code has checked what it contains. *)
Definition codeUnits (s : string) : list N :=
  map N_of_ascii (String.list_ascii_of_string s).

Definition fromCodeUnits (t : list N) : string :=
  String.string_of_list_ascii (map ascii_of_N t).

(** One character of the class [[A-Za-z0-9_-]]. *)
Definition isBase64urlCode (c : N) : bool :=
  ((65 <=? c) && (c <=? 90) || (97 <=? c) && (c <=? 122)
   || (48 <=? c) && (c <=? 57) || (c =? 95) || (c =? 45))%N.

(** [/^[A-Za-z0-9_-]+$/.test(text)]. *)
Definition matchesBase64url (text : list N) : bool :=
  match text with
  | [] => false
  | _ => forallb isBase64urlCode text
  end.

(** [String(e)] for a thrown error. *)
Definition exnText (e : exn) : string :=
  match e with
  | AppError message _ => "Error: " +:+ message
  | JsError name message => name +:+ ": " +:+ message
  end.

(** The three library calls inside [canonicalizeCredentialId], each of
    which may throw: [Buffer.from(s, 'base64url')],
    [buf.toString('utf8')] and [isoBase64URL.fromBuffer(buf)]. *)
Record Codec : Type := mkCodec {
  bufferFromBase64url : string → exn + Buffer;
  bufferToUtf8 : Buffer → exn + list N;
  isoFromBuffer : Buffer → exn + string
}.

Record Canonical : Type := mkCanonical {
  canonical : string;
  transformations : list string
}.

#[global] Instance Canonical_eq_dec : EqDecision Canonical.
Proof. solve_decision. Defined.

(** How one turn of the [for] loop ends. *)
Inductive Flow : Type := Continue | Break.

Section Canonicalize.
Context (codec : Codec).

(** The body of the loop for index [i], from the values [current] and
    [steps] have when the turn starts.  A throw leaves both as they were:
    within a turn every call that can throw precedes the first
    assignment. *)
Definition iteration (i : nat) (current : string) (steps : list string)
  : exn + (Flow * string * list string) :=
  match bufferFromBase64url codec current with
  | inl e => inl e
  | inr buf =>
      match bufferToUtf8 codec buf with
      | inl e => inl e
      | inr ascii =>
          if matchesBase64url ascii
             && (length ascii <? String.length current)%nat
          then inr (Continue, fromCodeUnits ascii,
                    steps ++ ["unwrap-layer-" +:+ pretty (i + 1)%nat])
          else
            match isoFromBuffer codec buf with
            | inl e => inl e
            | inr canon =>
                inr (Break, canon,
                     if String.eqb canon current then steps
                     else steps ++ ["re-encode-raw"])
            end
      end
  end.

(** [for (let i = ...; i < 2; i++)] with [fuel = 2 - i] turns left; the
    result is what was thrown, if anything, and the final [current] and
    [steps]. *)
Fixpoint loop (fuel i : nat) (current : string) (steps : list string)
  : option exn * string * list string :=
  match fuel with
  | O => (None, current, steps)
  | S fuel' =>
      match iteration i current steps with
      | inl e => (Some e, current, steps)
      | inr (Continue, current', steps') => loop fuel' (S i) current' steps'
      | inr (Break, current', steps') => (None, current', steps')
      end
  end.

Definition canonicalizeCredentialId (id : string) : Canonical :=
  match loop 2 0 id [] with
  | (Some e, current, steps) =>
      mkCanonical current (steps ++ ["canonicalization-error:" +:+ exnText e])
  | (None, current, steps) => mkCanonical current steps
  end.

End Canonicalize.

(** ** The codec of the Node runtime

    [Buffer.from(s, 'base64url')] is Node's forgiving decoder: it accepts
    both alphabets, skips every other character, stops at the first ['='],
    and drops a dangling last sextet.  It never throws on a string. *)
Module Node.

#[local] Open Scope N_scope.

Definition unbase64 (c : N) : option N :=
  if (65 <=? c) && (c <=? 90) then Some (c - 65)
  else if (97 <=? c) && (c <=? 122) then Some (c - 71)
  else if (48 <=? c) && (c <=? 57) then Some (c + 4)
  else if (c =? 43) || (c =? 45) then Some 62
  else if (c =? 47) || (c =? 95) then Some 63
  else None.

(** The legal characters before the first ['='], as 6-bit values. *)
Fixpoint sextets (cs : list N) : list N :=
  match cs with
  | [] => []
  | c :: rest =>
      match unbase64 c with
      | Some v => v :: sextets rest
      | None => if c =? 61 then [] else sextets rest
      end
  end.

Definition byte0 (a b : N) : N :=
  N.lor (N.shiftl (N.land a 63) 2) (N.shiftr (N.land b 48) 4).

Definition byte1 (b c : N) : N :=
  N.lor (N.shiftl (N.land b 15) 4) (N.shiftr (N.land c 60) 2).

Definition byte2 (c d : N) : N :=
  N.lor (N.shiftl (N.land c 3) 6) (N.land d 63).

Fixpoint pack (vs : list N) : Buffer :=
  match vs with
  | a :: b :: c :: d :: rest => byte0 a b :: byte1 b c :: byte2 c d :: pack rest
  | [a; b; c] => [byte0 a b; byte1 b c]
  | [a; b] => [byte0 a b]
  | _ => []
  end.

Definition base64Decode (s : string) : Buffer := pack (sextets (codeUnits s)).

(** [isoBase64URL.fromBuffer]: the URL-safe alphabet, no padding. *)
Definition charsUrl : string :=
  "ABCDEFGHIJKLMNOPQRSTUVWXYZabcdefghijklmnopqrstuvwxyz0123456789-_".

Definition base64urlChar (v : N) : ascii :=
  match String.get (N.to_nat v) charsUrl with
  | Some c => c
  | None => "A"%char
  end.

Definition enc0 (b0 : N) : N := N.shiftr b0 2.

Definition enc1 (b0 b1 : N) : N :=
  N.lor (N.shiftl (N.land b0 3) 4) (N.shiftr b1 4).

Definition enc2 (b1 b2 : N) : N :=
  N.lor (N.shiftl (N.land b1 15) 2) (N.shiftr b2 6).

Definition enc3 (b2 : N) : N := N.land b2 63.

Fixpoint unpack (bytes : Buffer) : list N :=
  match bytes with
  | b0 :: b1 :: b2 :: rest =>
      enc0 b0 :: enc1 b0 b1 :: enc2 b1 b2 :: enc3 b2 :: unpack rest
  | [b0; b1] => [enc0 b0; enc1 b0 b1; enc2 b1 0]
  | [b0] => [enc0 b0; enc1 b0 0]
  | [] => []
  end.

Definition base64urlEncode (bytes : Buffer) : string :=
  String.string_of_list_ascii (map base64urlChar (unpack bytes)).

(** [buf.toString('utf8')]: the WHATWG UTF-8 decoder.  An ill-formed
    sequence yields U+FFFD; a code point above U+FFFF is written as a
    surrogate pair. *)
Inductive Utf8State : Type :=
| Start
| Need (needed : nat) (codePoint lower upper : N).

Definition emit (cp : N) : list N :=
  if cp <? 65536 then [cp]
  else [55296 + N.shiftr (cp - 65536) 10; 56320 + N.land (cp - 65536) 1023].

Definition utf8Lead (b : N) : Utf8State * list N :=
  if b <=? 127 then (Start, [b])
  else if (194 <=? b) && (b <=? 223) then (Need 1 (N.land b 31) 128 191, [])
  else if (224 <=? b) && (b <=? 239) then
    (Need 2 (N.land b 15) (if b =? 224 then 160 else 128)
          (if b =? 237 then 159 else 191), [])
  else if (240 <=? b) && (b <=? 244) then
    (Need 3 (N.land b 7) (if b =? 240 then 144 else 128)
          (if b =? 244 then 143 else 191), [])
  else (Start, [65533]).

Definition utf8Step (st : Utf8State) (b : N) : Utf8State * list N :=
  match st with
  | Start => utf8Lead b
  | Need needed cp lower upper =>
      if (lower <=? b) && (b <=? upper) then
        let cp' := N.lor (N.shiftl cp 6) (N.land b 63) in
        match needed with
        | S (S n) => (Need (S n) cp' 128 191, [])
        | _ => (Start, emit cp')
        end
      else
        let r := utf8Lead b in (fst r, 65533 :: snd r)
  end.

Fixpoint utf8Run (st : Utf8State) (bytes : Buffer) : list N :=
  match bytes with
  | [] => match st with Start => [] | Need _ _ _ _ => [65533] end
  | b :: rest =>
      let r := utf8Step st b in snd r ++ utf8Run (fst r) rest
  end.

Definition utf8Decode (bytes : Buffer) : list N := utf8Run Start bytes.

Definition codec : Codec :=
  mkCodec (λ s, inr (base64Decode s))
          (λ buf, inr (utf8Decode buf))
          (λ buf, inr (base64urlEncode buf)).

End Node.

(** [canonicalizeCredentialId] as it runs on the server. *)
Definition canonicalize (id : string) : Canonical :=
  canonicalizeCredentialId Node.codec id.

(* ===================================================================== *)
(** * What the controllers take from outside                              *)
(* ===================================================================== *)

(** [getEnv()]. *)
Record Env : Type := mkEnv {
  RP_NAME : string;
  RP_ID : string;
  CORS_ORIGINS : list string;
  ENABLE_ATTESTATION : bool
}.

(** The options object of the verifier library; the controllers read its
    [challenge] only. *)
Record Options : Type := mkOptions {
  opt_challenge : string;
  opt_rest : string
}.

Record Descriptor (Id : Type) : Type := mkDescriptor {
  d_id : Id;
  d_transports : list string
}.
Arguments mkDescriptor {Id} _ _.
Arguments d_id {Id} _.
Arguments d_transports {Id} _.

Record RegistrationOptionsArgs : Type := mkRegistrationOptionsArgs {
  roa_rpName : string;
  roa_rpID : string;
  roa_userID : Buffer;
  roa_userName : string;
  roa_userDisplayName : string;
  roa_attestationType : string;
  roa_excludeCredentials : list (Descriptor string)
}.

Record AuthenticationOptionsArgs : Type := mkAuthenticationOptionsArgs {
  aoa_rpID : string;
  aoa_allowCredentials : option (list (Descriptor Buffer))
}.

(** The credential a browser posts back ([req.body.credential], a
    [RegistrationResponseJSON] or [AuthenticationResponseJSON]): the
    properties the controllers read, and the rest as the verifier's
    business. *)
Record CredentialJSON : Type := mkCredentialJSON {
  cj_id : string;
  cj_rawId : string;
  cj_userHandle : option string;
  cj_authenticatorAttachment : option string;
  cj_transports : option (list string);
  cj_signed : string
}.

Record RegistrationInfo : Type := mkRegistrationInfo {
  ri_credentialID : Buffer;
  ri_credentialPublicKey : Buffer;
  ri_counter : Z
}.

Record VerifiedRegistrationResponse : Type := mkVerifiedRegistration {
  vr_verified : bool;
  vr_registrationInfo : option RegistrationInfo
}.

Record VerifiedAuthenticationResponse : Type := mkVerifiedAuthentication {
  va_verified : bool;
  va_newCounter : Z
}.

Record RegistrationVerifyArgs : Type := mkRegistrationVerifyArgs {
  rva_response : CredentialJSON;
  rva_expectedChallenge : string;
  rva_expectedOrigin : list string;
  rva_expectedRPID : string
}.

Record AuthenticationVerifyArgs : Type := mkAuthenticationVerifyArgs {
  ava_response : CredentialJSON;
  ava_expectedChallenge : string;
  ava_expectedOrigin : list string;
  ava_expectedRPID : string;
  ava_credentialID : Buffer;
  ava_credentialPublicKey : Buffer;
  ava_counter : Z
}.

(** The collaborators of the ceremony core: the id and random sources, the
    environment, the verifier library (an oracle that answers or throws)
    and the library decoder [isoBase64URL.toBuffer]. *)
Record External : Type := mkExternal {
  nanoid : nat → string;
  randomCode : nat → Z;
  env : Env;
  generateRegistrationOptions : RegistrationOptionsArgs → exn + Options;
  generateAuthenticationOptions : AuthenticationOptionsArgs → exn + Options;
  verifyRegistrationResponse :
    RegistrationVerifyArgs → exn + VerifiedRegistrationResponse;
  verifyAuthenticationResponse :
    AuthenticationVerifyArgs → exn + VerifiedAuthenticationResponse;
  isoToBuffer : string → exn + Buffer
}.

(** An express request: its body and the two headers the audit trail
    records. *)
Record Request (Body : Type) : Type := mkRequest {
  body : Body;
  ip : option string;
  userAgent : option string
}.
Arguments mkRequest {Body} _ _ _.
Arguments body {Body} _.
Arguments ip {Body} _.
Arguments userAgent {Body} _.

(** [Buffer.from(s, 'utf8')] on Latin-1 text. *)
Definition utf8Encode (s : string) : Buffer :=
  flat_map (λ c, if (c <? 128)%N then [c]
                 else [N.lor 192 (N.shiftr c 6); N.lor 128 (N.land c 63)])
           (codeUnits s).

(** A decoded string as Latin-1 text, when it is such text. *)
Definition asLatin1 (text : list N) : option string :=
  if forallb (λ c, (c <? 256)%N) text then Some (fromCodeUnits text) else None.

(* ===================================================================== *)
(** * WebAuthnController                                                  *)
(* ===================================================================== *)

Record UserSummary : Type := mkUserSummary {
  us_id : option string;
  us_username : option string;
  us_displayName : option string;
  us_credentialCount : option Z
}.

Record RegistrationStartBody : Type := mkRegistrationStartBody {
  rs_username : string;
  rs_email : option string;
  rs_displayName : option string
}.

Record RegistrationStartResponse : Type := mkRegistrationStartResponse {
  rsr_options : Options;
  rsr_user : UserSummary
}.

Record AuthenticationStartBody : Type := mkAuthenticationStartBody {
  as_username : option string
}.

Record FinishBody : Type := mkFinishBody {
  fb_username : option string;
  fb_credential : CredentialJSON
}.

Record VerifiedResponse : Type := mkVerifiedResponse {
  resp_verified : bool;
  resp_user : UserSummary
}.

Definition exnMessage (e : exn) : string :=
  match e with
  | AppError message _ => message
  | JsError _ message => message
  end.

Definition isAppError (e : exn) : bool :=
  match e with AppError _ _ => true | JsError _ _ => false end.

Module WebAuthnController.
Section WithExternal.
Context (ext : External).

(** [nanoid()]. *)
Definition fresh : M string :=
  state (λ w, (inr (nanoid ext (drawn w)), with_drawn S w)).

Definition logEvent (now : Z) (eventType : string) (eventData : Payload)
    (userId ipAddress userAgent : option string) (severity : Severity)
  : M SecurityEvent :=
  do id <- fresh;
  state (λ w,
    let r := SecurityEventModel.logEvent id now eventType eventData userId
               ipAddress userAgent severity (securityEvents w) in
    (inr (snd r), with_securityEvents (λ _, fst r) w)).

Definition createUser (now : Z) (username : string)
    (displayName email : option string) : M User :=
  do id <- fresh;
  state (λ w,
    match UserModel.createUser id now username displayName email (users w) with
    | inl e => (inl e, w)
    | inr (docs, user) => (inr user, with_users (λ _, docs) w)
    end).

Definition createChallenge (now : Z) (challenge : string)
    (type : ChallengeType) (userId : option string) : M Challenge :=
  do id <- fresh;
  state (λ w,
    match ChallengeModel.createChallenge id now now challenge type userId 5
            (challenges w) with
    | inl e => (inl e, w)
    | inr (docs, doc) => (inr doc, with_challenges (λ _, docs) w)
    end).

Definition createCredential (now : Z) (credentialData : Credential)
  : M Credential :=
  state (λ w,
    match CredentialModel.createCredential now credentialData
            (credentials w) with
    | inl e => (inl e, w)
    | inr (docs, doc) => (inr doc, with_credentials (λ _, docs) w)
    end).

Definition markChallengeAsUsed (id : string) : M bool :=
  state (λ w,
    let r := ChallengeModel.markChallengeAsUsed id (challenges w) in
    (inr (snd r), with_challenges (λ _, fst r) w)).

Definition updateCounter (now : Z) (id : string) (newCounter : Z) : M bool :=
  state (λ w,
    let r := CredentialModel.updateCounter now id newCounter (credentials w) in
    (inr (snd r), with_credentials (λ _, fst r) w)).

Definition incrementPasskeyRegistrations (id : string) : M bool :=
  state (λ w,
    let r := UserModel.incrementPasskeyRegistrations id (users w) in
    (inr (snd r), with_users (λ _, fst r) w)).

Definition incrementSuccessfulAuthentications (now : Z) (id : string) : M bool :=
  state (λ w,
    let r := UserModel.incrementSuccessfulAuthentications now id (users w) in
    (inr (snd r), with_users (λ _, fst r) w)).

Definition descriptorOf (cred : Credential) : Descriptor string :=
  mkDescriptor (cr_id cred) (cr_transports cred).

(** The [if (!user) { ... }] block of [startRegistration]: refuse an email
    that another user owns, otherwise create the user. *)
Definition createIfEmailFree (now : Z) (username : string)
    (displayName email : option string) : M User :=
  run (if truthy email then
         do emailOwner <-
           gets (λ w, UserModel.findByEmail (default ""%string email) (users w));
         match emailOwner with
         | Some _ =>
             throw (AppError
               "Email already in use. Please sign in or use a different email."
               409)
         | None => ret tt
         end
       else ret tt);
  createUser now username displayName email.

(** Start registration process. *)
Definition startRegistration (now : Z) (req : Request RegistrationStartBody)
  : M RegistrationStartResponse :=
  let username := rs_username (body req) in
  let email := rs_email (body req) in
  let displayName := rs_displayName (body req) in
  if String.eqb username "" then throw (AppError "Username is required" 400)
  else
    do found <- gets (λ w, UserModel.findByUsernameOrEmail username (users w));
    do user <- match found with
               | Some u => ret u
               | None => createIfEmailFree now username displayName email
               end;
    do existingCredentials <-
      gets (λ w, CredentialModel.findByUserId (u_id user) (credentials w));
    do options <-
      lift (generateRegistrationOptions ext
              (mkRegistrationOptionsArgs
                 (RP_NAME (env ext)) (RP_ID (env ext))
                 (utf8Encode (u_id user)) (u_username user)
                 (orElse (u_displayName user) (u_username user))
                 (if ENABLE_ATTESTATION (env ext) then "direct" else "none")
                 (map descriptorOf existingCredentials)));
    run createChallenge now (opt_challenge options) registration
                        (Some (u_id user));
    run logEvent now "registration_start" [("username"%string, JStr username)]
                 (Some (u_id user)) (ip req) (userAgent req) low;
    ret (mkRegistrationStartResponse options
           (mkUserSummary (Some (u_id user)) (Some (u_username user))
                          (u_displayName user) None)).

Definition deviceTypeOf (credential : CredentialJSON) : DeviceType :=
  if bool_decide (cj_authenticatorAttachment credential = Some "platform"%string)
     || match cj_transports credential with
        | Some ts => existsb (String.eqb "internal") ts
        | None => false
        end
  then platform else cross_platform.

(** Complete registration process. *)
Definition finishRegistration (now : Z) (req : Request FinishBody)
  : M VerifiedResponse :=
  let credential := fb_credential (body req) in
  do found <- gets (λ w, UserModel.findByUsername
                           (default ""%string (fb_username (body req)))
                           (users w));
  match found with
  | None => throw (AppError "User not found" 404)
  | Some user =>
      do pending <- gets (λ w, ChallengeModel.findValidChallenge now
                                 registration (Some (u_id user)) (challenges w));
      match pending with
      | None => throw (AppError "Invalid or expired challenge" 400)
      | Some challenge =>
          do verification <-
            tryCatch
              (lift (verifyRegistrationResponse ext
                       (mkRegistrationVerifyArgs credential
                          (ch_challenge challenge)
                          (CORS_ORIGINS (env ext)) (RP_ID (env ext)))))
              (λ error,
                 run logEvent now "registration_failed"
                       [("error"%string, JStr (exnMessage error))]
                       (Some (u_id user)) (ip req) (userAgent req) medium;
                 throw (AppError "Registration verification failed" 400));
          match vr_verified verification, vr_registrationInfo verification with
          | true, Some info =>
              let canonicalId := Node.base64urlEncode (ri_credentialID info) in
              run createCredential now
                    (mkCredential canonicalId (u_id user)
                       (ri_credentialPublicKey info) (ri_counter info)
                       (Some (deviceTypeOf credential))
                       (default [] (cj_transports credential))
                       now (Some now) 0);
              run markChallengeAsUsed (ch_id challenge);
              run incrementPasskeyRegistrations (u_id user);
              run logEvent now "registration_success"
                    [("credentialId"%string,
                      JStr (Node.base64urlEncode (ri_credentialID info)));
                     ("deviceType"%string,
                      JOpt (cj_authenticatorAttachment credential))]
                    (Some (u_id user)) (ip req) (userAgent req) low;
              ret (mkVerifiedResponse true
                     (mkUserSummary (Some (u_id user)) (Some (u_username user))
                        None (Some (u_passkeyRegistrations user + 1))))
          | _, _ => throw (AppError "Registration verification failed" 400)
          end
      end
  end.

(** [binaryAllow]: each id through [isoBase64URL.toBuffer], or its UTF-8
    bytes when that throws. *)
Definition binaryAllowOf (ac : Descriptor string) : Descriptor Buffer :=
  match isoToBuffer ext (d_id ac) with
  | inr binary => mkDescriptor binary (d_transports ac)
  | inl _ => mkDescriptor (utf8Encode (d_id ac)) (d_transports ac)
  end.

(** The first part of [startAuthentication]: resolve the handle and collect
    [allowCredentials]; a known user without credentials is refused. *)
Definition resolveAllowCredentials (username : option string)
  : M (option User * option (list (Descriptor string))) :=
  if truthy username then
    do found <- gets (λ w, UserModel.findByUsernameOrEmail
                             (default ""%string username) (users w));
    match found with
    | None => ret (None, None)
    | Some user =>
        do userCredentials <-
          gets (λ w, CredentialModel.findByUserId (u_id user) (credentials w));
        match userCredentials with
        | [] =>
            throw (AppError
              "No passkeys registered for this user. Please register a passkey first."
              400)
        | _ => ret (Some user, Some (map descriptorOf userCredentials))
        end
    end
  else ret (None, None).

Definition userlessOptions : exn + Options :=
  generateAuthenticationOptions ext
    (mkAuthenticationOptionsArgs (RP_ID (env ext)) None).

(** The options for the ceremony: restricted to the user's credentials
    when there are some (falling back to the userless form if the library
    throws), userless otherwise. *)
Definition authenticationOptions
    (allowCredentials : option (list (Descriptor string))) : M Options :=
  match allowCredentials with
  | Some (ac :: acs) =>
      let binaryAllow := map binaryAllowOf (ac :: acs) in
      tryCatch
        (lift (generateAuthenticationOptions ext
                 (mkAuthenticationOptionsArgs (RP_ID (env ext))
                                              (Some binaryAllow))))
        (λ _, lift userlessOptions)
  | _ =>
      tryCatch (lift userlessOptions)
        (λ _, throw (AppError
           "Failed to prepare authentication options. Check RP_ID and origin configuration."
           400))
  end.

(** Start authentication process. *)
Definition startAuthentication (now : Z) (req : Request AuthenticationStartBody)
  : M Options :=
  let username := as_username (body req) in
  tryCatch
    (do resolved <- resolveAllowCredentials username;
     let user := fst resolved in
     do options <- authenticationOptions (snd resolved);
     run tryCatch
           (createChallenge now (opt_challenge options) authentication
                            (u_id <$> user))
           (λ _, throw (AppError "Failed to store authentication challenge" 500));
     run logEvent now "authentication_start"
           [("username"%string, JOpt username)]
           (u_id <$> user) (ip req) (userAgent req) low;
     ret options)
    (λ error,
       if isAppError error then throw error
       else throw (AppError "Failed to start authentication" 500)).

(** [userHandle] decoded as the user id.  (The [catch] branch of the
    source retries with the raw handle; neither the decoder nor the lookup
    throws here, so it is never taken.) *)
Definition resolveAuthUser (credential : CredentialJSON) : M (option User) :=
  if truthy (cj_userHandle credential) then
    let rawHandle := default ""%string (cj_userHandle credential) in
    match asLatin1 (Node.utf8Decode (Node.base64Decode rawHandle)) with
    | Some decoded => gets (λ w, UserModel.findById decoded (users w))
    | None => ret None
    end
  else ret None.

(** The scan of the user's credentials for one whose canonical id differs
    from the stored id and equals the received id. *)
Fixpoint scanCanonical (credentialId : string) (creds : list Credential)
  : option Credential :=
  match creds with
  | [] => None
  | cred :: rest =>
      let canon := canonicalize (cr_id cred) in
      if negb (String.eqb (canonical canon) (cr_id cred))
         && String.eqb (canonical canon) credentialId
      then Some cred
      else scanCanonical credentialId rest
  end.

(** The last resort: compare decoded bytes; a credential whose id makes
    the decoder throw is skipped. *)
Fixpoint scanBinary (credentialId : string) (creds : list Credential)
  : option Credential :=
  match creds with
  | [] => None
  | cred :: rest =>
      let storedCanon := canonicalize (cr_id cred) in
      match isoToBuffer ext (canonical storedCanon), isoToBuffer ext credentialId with
      | inr storedBuf, inr receivedBuf =>
          if decide (storedBuf = receivedBuf) then Some cred
          else scanBinary credentialId rest
      | _, _ => scanBinary credentialId rest
      end
  end.

Definition orTry {A : Type} (found : option A) (next : option A) : option A :=
  match found with Some a => Some a | None => next end.

(** The lookup ladder of [finishAuthentication]. *)
Definition lookupCredential (credentialId : string) (authUser : option User)
    (w : World) : option Credential :=
  let direct := CredentialModel.findById credentialId (credentials w) in
  let receivedCanon := canonicalize credentialId in
  let viaCanonical :=
    orTry direct
      (if negb (String.eqb (canonical receivedCanon) credentialId)
       then CredentialModel.findById (canonical receivedCanon) (credentials w)
       else None) in
  let ofUser :=
    match authUser with
    | Some u => CredentialModel.findByUserId (u_id u) (credentials w)
    | None => []
    end in
  let viaScan := orTry viaCanonical (scanCanonical credentialId ofUser) in
  orTry viaScan (scanBinary credentialId ofUser).

Definition set_cr_id (id : string) (c : Credential) : Credential :=
  mkCredential id (cr_userId c) (cr_publicKey c) (cr_counter c)
               (cr_deviceType c) (cr_transports c) (cr_createdAt c)
               (cr_lastUsedAt c) (cr_useCount c).

(** "Produce canonical credential ID and optionally persist migration":
    the record in hand gets the canonical id, and [updateCredential] is
    called with that id and an empty update, its result ignored. *)
Definition migrate (credentialId : string) (credentialRecord : Credential)
  : M Credential :=
  let storedCanon := canonicalize (cr_id credentialRecord) in
  let receivedCanon := canonicalize credentialId in
  let buffersMatch :=
    match isoToBuffer ext (canonical storedCanon),
          isoToBuffer ext (canonical receivedCanon) with
    | inr storedBuf, inr receivedBuf => bool_decide (storedBuf = receivedBuf)
    | _, _ => false
    end in
  if negb (String.eqb (canonical storedCanon) (cr_id credentialRecord))
     && buffersMatch
  then
    run modify (with_credentials
                  (λ docs, fst (CredentialModel.updateCredentialEmpty
                                  (canonical storedCanon) docs)));
    ret (set_cr_id (canonical storedCanon) credentialRecord)
  else ret credentialRecord.

(** The [try] block around the verifier call. *)
Definition verifyAssertion (credential : CredentialJSON)
    (credentialRecord : Credential) (storedId : string) (challenge : Challenge)
  : exn + VerifiedAuthenticationResponse :=
  let storedCanon := canonicalize storedId in
  let authenticatorCredentialID :=
    match isoToBuffer ext (canonical storedCanon) with
    | inr b => inr b
    | inl _ => isoToBuffer ext (cr_id credentialRecord)
    end in
  match authenticatorCredentialID with
  | inl e => inl e
  | inr credentialID =>
      verifyAuthenticationResponse ext
        (mkAuthenticationVerifyArgs credential (ch_challenge challenge)
           (CORS_ORIGINS (env ext)) (RP_ID (env ext))
           credentialID (cr_publicKey credentialRecord)
           (cr_counter credentialRecord))
  end.

(** Complete authentication process. *)
Definition finishAuthentication (now : Z) (req : Request FinishBody)
  : M VerifiedResponse :=
  let credential := fb_credential (body req) in
  do authUser <- resolveAuthUser credential;
  let credentialId :=
    if String.eqb (cj_rawId credential) "" then cj_id credential
    else cj_rawId credential in
  do found <- gets (lookupCredential credentialId authUser);
  match found with
  | None => throw (AppError "Credential not found" 404)
  | Some stored =>
      do credentialRecord <- migrate credentialId stored;
      do pending <- gets (λ w, ChallengeModel.findValidChallenge now
                                 authentication None (challenges w));
      match pending with
      | None => throw (AppError "Invalid or expired challenge" 400)
      | Some challenge =>
          do verification <-
            tryCatch
              (lift (verifyAssertion credential credentialRecord
                                     (cr_id stored) challenge))
              (λ error,
                 run logEvent now "authentication_failed"
                       [("error"%string, JStr (exnMessage error))]
                       (Some (cr_userId credentialRecord))
                       (ip req) (userAgent req) medium;
                 throw (AppError "Authentication verification failed" 400));
          if negb (va_verified verification)
          then throw (AppError "Authentication verification failed" 400)
          else
            run updateCounter now (cr_id credentialRecord)
                              (va_newCounter verification);
            run markChallengeAsUsed (ch_id challenge);
            run incrementSuccessfulAuthentications now
                  (cr_userId credentialRecord);
            do user <- gets (λ w, UserModel.findById
                                    (cr_userId credentialRecord) (users w));
            run logEvent now "authentication_success"
                  [("credentialId"%string, JStr (cr_id credentialRecord))]
                  (Some (cr_userId credentialRecord))
                  (ip req) (userAgent req) low;
            ret (mkVerifiedResponse true
                   (mkUserSummary (u_id <$> user) (u_username <$> user)
                                  None None))
      end
  end.

End WithExternal.
End WebAuthnController.

(* ===================================================================== *)
(** * OTPController                                                       *)
(* ===================================================================== *)

Record OtpSendBody : Type := mkOtpSendBody {
  os_username : option string;
  os_email : option string;
  os_phoneNumber : option string;
  os_method : OtpMethod
}.

Record OtpSentResponse : Type := mkOtpSentResponse {
  osr_success : bool;
  osr_otpId : string;
  osr_expiresIn : Z;
  osr_method : OtpMethod
}.

Record OtpVerifyBody : Type := mkOtpVerifyBody {
  ov_otpId : string;
  ov_otp : string;
  ov_username : option string;
  ov_email : option string;
  ov_identifier : option string
}.

Definition methodName (m : OtpMethod) : string :=
  match m with email_method => "email" | sms_method => "sms" end.

(** The mock [NotificationService] of the controller file. *)
Module NotificationService.
Definition sendSMS (phoneNumber message : string) : bool := true.
Definition sendEmail (email subject message : string) : bool := true.
End NotificationService.

Module OTPController.
Section WithExternal.
Context (ext : External).

(** [storeOTP]: put the entry in the map and arm a five-minute timer that
    will delete the id. *)
Definition storeOTP (id : string) (data : OtpData) : M unit :=
  modify (with_otp (<[id := data]>) (λ ts, ts ++ [id])).

Definition getOTP (id : string) : M (option OtpData) :=
  gets (λ w, otpStore w !! id).

Definition deleteOTP (id : string) : M unit :=
  modify (with_otp (delete id) (λ ts, ts)).

(** The callback of an armed timer, run by the event loop between two
    requests once its five minutes are over. *)
Fixpoint disarm (id : string) (timers : list string) : list string :=
  match timers with
  | [] => []
  | t :: rest => if String.eqb t id then rest else t :: disarm id rest
  end.

Definition timerFires (id : string) (w : World) : World :=
  with_otp (delete id) (disarm id) w.

(** [Math.floor(100000 + Math.random() * 900000).toString()]. *)
Definition generateOtp : M string :=
  state (λ w, (inr (pretty (100000 + randomCode ext (drawn w) `mod` 900000)),
               with_drawn S w)).

Definition logEvent := WebAuthnController.logEvent ext.

(** Generate and send OTP for registration fallback. *)
Definition sendRegistrationOTP (now : Z) (req : Request OtpSendBody)
  : M OtpSentResponse :=
  let username := os_username (body req) in
  let email := os_email (body req) in
  let phoneNumber := os_phoneNumber (body req) in
  let method := os_method (body req) in
  if negb (truthy username) && negb (truthy email) then
    throw (AppError "Username or email and delivery method are required" 400)
  else if bool_decide (method = email_method) && negb (truthy email) then
    throw (AppError "Email is required for email OTP" 400)
  else if bool_decide (method = sms_method) && negb (truthy phoneNumber) then
    throw (AppError "Phone number is required for SMS OTP" 400)
  else
    do otp <- generateOtp;
    do otpId <- WebAuthnController.fresh ext;
    let expiresAt := now + 5 * 60 * 1000 in
    let otpData :=
      mkOtpData otpId (if truthy username then username else email)
                email phoneNumber None None otp method registration
                0 3 expiresAt false now in
    run storeOTP otpId otpData;
    let message :=
      ("Your verification code is: " +:+ otp
       +:+ ". This code expires in 5 minutes.")%string in
    let sent :=
      match method with
      | email_method =>
          NotificationService.sendEmail (default ""%string email)
            "Registration Verification Code" message
      | sms_method =>
          NotificationService.sendSMS (default ""%string phoneNumber) message
      end in
    if negb sent then throw (AppError "Failed to send OTP" 500)
    else
      run logEvent now "otp_sent"
            [("method"%string, JStr (methodName method));
             ("username"%string, JOpt username)]
            None (ip req) (userAgent req) low;
      ret (mkOtpSentResponse true otpId 300 method).

(** [otpData.attempts++] on the object held by the map. *)
Definition countAttempt (otpId : string) (otpData : OtpData) : M OtpData :=
  let counted := set_attempts (otp_attempts otpData + 1) otpData in
  run modify (with_otp (<[otpId := counted]>) (λ ts, ts));
  ret counted.

(** Verify OTP for registration fallback. *)
Definition verifyRegistrationOTP (now : Z) (req : Request OtpVerifyBody)
  : M VerifiedResponse :=
  let otpId := ov_otpId (body req) in
  let otp := ov_otp (body req) in
  let username := default ""%string (ov_username (body req)) in
  if String.eqb otpId "" || String.eqb otp "" || String.eqb username "" then
    throw (AppError "OTP ID, OTP code, and username/email are required" 400)
  else
    do stored <- getOTP otpId;
    match stored with
    | None => throw (AppError "Invalid or expired OTP" 400)
    | Some otpData =>
        if otp_expiresAt otpData <? now then
          run deleteOTP otpId;
          throw (AppError "OTP has expired" 400)
        else if otp_maxAttempts otpData <=? otp_attempts otpData then
          run deleteOTP otpId;
          run logEvent now "otp_max_attempts"
                [("username"%string, JStr username);
                 ("otpId"%string, JStr otpId)]
                None (ip req) (userAgent req) medium;
          throw (AppError "Maximum OTP attempts exceeded" 429)
        else
          do otpData <- countAttempt otpId otpData;
          if negb (String.eqb (otp_otp otpData) otp)
             || negb (bool_decide (otp_username otpData = Some username))
          then
            run storeOTP otpId otpData;
            run logEvent now "otp_failed"
                  [("username"%string, JStr username);
                   ("otpId"%string, JStr otpId);
                   ("attempts"%string, JNum (otp_attempts otpData))]
                  None (ip req) (userAgent req) low;
            throw (AppError "Invalid OTP code" 400)
          else
            do found <- gets (λ w, UserModel.findByUsernameOrEmail username
                                     (users w));
            do user <- match found with
                       | Some u => ret u
                       | None =>
                           WebAuthnController.createUser ext now
                             (default ""%string (otp_username otpData))
                             None (otp_email otpData)
                       end;
            run logEvent now "otp_registration_success"
                  [("username"%string, JStr username);
                   ("method"%string, JStr (methodName (otp_method otpData)))]
                  (Some (u_id user)) (ip req) (userAgent req) low;
            run deleteOTP otpId;
            ret (mkVerifiedResponse true
                   (mkUserSummary (Some (u_id user)) (Some (u_username user))
                                  None None))
    end.

(** Send authentication OTP. *)
Definition sendAuthenticationOTP (now : Z) (req : Request OtpSendBody)
  : M OtpSentResponse :=
  let username := os_username (body req) in
  let email := os_email (body req) in
  let phoneNumber := os_phoneNumber (body req) in
  let method := os_method (body req) in
  if negb (truthy username) && negb (truthy email) then
    throw (AppError "Username or email and delivery method are required" 400)
  else
    let identifier := orElse username (default ""%string email) in
    do found <- gets (λ w, UserModel.findByUsernameOrEmail identifier (users w));
    match found with
    | None => throw (AppError "Invalid user identifier" 400)
    | Some user =>
        do otp <- generateOtp;
        do otpId <- WebAuthnController.fresh ext;
        let expiresAt := now + 5 * 60 * 1000 in
        let otpData :=
          mkOtpData otpId username None None (Some (u_id user))
                    (Some identifier) otp method authentication
                    0 3 expiresAt false now in
        run storeOTP otpId otpData;
        let emailTarget := if truthy email then email else u_email user in
        let smsTarget := orElse phoneNumber "+1234567890" in
        let message :=
          ("Your authentication code is: " +:+ otp
           +:+ ". This code expires in 5 minutes.")%string in
        do sent <-
          match method with
          | email_method =>
              if negb (truthy emailTarget) then
                throw (AppError
                  "No email available for user; provide an email to send OTP"
                  400)
              else ret (NotificationService.sendEmail
                          (default ""%string emailTarget)
                          "Authentication Code" message)
          | sms_method =>
              if String.eqb smsTarget "" then
                throw (AppError
                  "No phone number available; provide phoneNumber to send OTP"
                  400)
              else ret (NotificationService.sendSMS smsTarget message)
          end;
        if negb sent then throw (AppError "Failed to send OTP" 500)
        else
          run logEvent now "auth_otp_sent"
                [("method"%string, JStr (methodName method));
                 ("username"%string, JOpt username)]
                (Some (u_id user)) (ip req) (userAgent req) low;
          ret (mkOtpSentResponse true otpId 300 method)
    end.

(** Verify authentication OTP. *)
Definition verifyAuthenticationOTP (now : Z) (req : Request OtpVerifyBody)
  : M VerifiedResponse :=
  let otpId := ov_otpId (body req) in
  let otp := ov_otp (body req) in
  let providedIdentifier :=
    if truthy (ov_username (body req)) then ov_username (body req)
    else if truthy (ov_email (body req)) then ov_email (body req)
    else ov_identifier (body req) in
  if String.eqb otpId "" || String.eqb otp "" || negb (truthy providedIdentifier)
  then
    throw (AppError "OTP ID, OTP code, and username/email are required" 400)
  else
    do stored <- getOTP otpId;
    match stored with
    | None => throw (AppError "Invalid or expired OTP" 400)
    | Some otpData =>
        if otp_expiresAt otpData <? now then
          run deleteOTP otpId;
          throw (AppError "OTP has expired" 400)
        else if otp_maxAttempts otpData <=? otp_attempts otpData then
          run deleteOTP otpId;
          run logEvent now "auth_otp_max_attempts"
                [("identifier"%string, JOpt providedIdentifier);
                 ("otpId"%string, JStr otpId)]
                (otp_userId otpData) (ip req) (userAgent req) high;
          throw (AppError "Maximum OTP attempts exceeded" 429)
        else
          do otpData <- countAttempt otpId otpData;
          let expectedIdentifier :=
            match otp_identifier otpData with
            | Some i => Some i
            | None => otp_username otpData
            end in
          if negb (String.eqb (otp_otp otpData) otp)
             || negb (bool_decide (expectedIdentifier = providedIdentifier))
          then
            run storeOTP otpId otpData;
            run logEvent now "auth_otp_failed"
                  [("identifier"%string, JOpt providedIdentifier);
                   ("otpId"%string, JStr otpId);
                   ("attempts"%string, JNum (otp_attempts otpData))]
                  (otp_userId otpData) (ip req) (userAgent req) medium;
            throw (AppError "Invalid OTP code" 400)
          else
            do found <- gets (λ w, UserModel.findById
                                     (default ""%string (otp_userId otpData))
                                     (users w));
            match found with
            | None => throw (AppError "User not found" 404)
            | Some user =>
                run WebAuthnController.incrementSuccessfulAuthentications
                      now (u_id user);
                run logEvent now "auth_otp_success"
                      [("identifier"%string, JOpt providedIdentifier);
                       ("method"%string,
                        JStr (methodName (otp_method otpData)))]
                      (Some (u_id user)) (ip req) (userAgent req) low;
                run deleteOTP otpId;
                ret (mkVerifiedResponse true
                       (mkUserSummary (Some (u_id user))
                                      (Some (u_username user)) None None))
            end
    end.

End WithExternal.
End OTPController.

(* ===================================================================== *)
(** * Vocabulary of the properties                                        *)
(* ===================================================================== *)

(** What the specification calls a usable challenge for a lookup at time
    [now]: of the requested type, unused, expiring strictly after [now],
    and, when an owner is asked for, owned by it. *)
Definition usable (now : Z) (type : ChallengeType) (userId : option string)
    (c : Challenge) : Prop :=
  ch_type c = type ∧ ch_used c = false ∧ now < ch_expiresAt c
  ∧ (truthy userId = true → Some (ch_userId c) = userId).

(** The two verify handlers, by ceremony type. *)
Definition verifyOTP (ext : External) (kind : ChallengeType)
  : Z → Request OtpVerifyBody → M VerifiedResponse :=
  match kind with
  | registration => OTPController.verifyRegistrationOTP ext
  | authentication => OTPController.verifyAuthenticationOTP ext
  end.

(** The identifier a request presents. *)
Definition provided (kind : ChallengeType) (b : OtpVerifyBody) : option string :=
  match kind with
  | registration => ov_username b
  | authentication =>
      if truthy (ov_username b) then ov_username b
      else if truthy (ov_email b) then ov_email b
      else ov_identifier b
  end.

(** The identifier a ticket expects. *)
Definition expected (kind : ChallengeType) (d : OtpData) : option string :=
  match kind with
  | registration => otp_username d
  | authentication =>
      match otp_identifier d with
      | Some i => Some i
      | None => otp_username d
      end
  end.

(** A request for ticket [id] that passes the handler's input check. *)
Definition wellFormed (kind : ChallengeType) (id : string)
    (req : Request OtpVerifyBody) : Prop :=
  ov_otpId (body req) = id ∧ id ≠ ""%string
  ∧ ov_otp (body req) ≠ ""%string
  ∧ truthy (provided kind (body req)) = true.

(** A failed attempt: the code or the identifier is not the ticket's. *)
Definition mismatch (kind : ChallengeType) (d : OtpData)
    (req : Request OtpVerifyBody) : Prop :=
  ov_otp (body req) ≠ otp_otp d ∨ expected kind d ≠ provided kind (body req).

(** Requests handled one after the other, each at its own time. *)
Fixpoint runCalls {A : Type} (handler : Z → Request OtpVerifyBody → M A)
    (calls : list (Z * Request OtpVerifyBody)) (w : World)
  : list (exn + A) * World :=
  match calls with
  | [] => ([], w)
  | (now, req) :: rest =>
      let r := handler now req w in
      let rs := runCalls handler rest (snd r) in
      (fst r :: fst rs, snd rs)
  end.

(** The numbers below [n], for checking a property of bytes on each. *)
Definition below (n : nat) : list N := map N.of_nat (seq 0 n).

Definition isByte (b : N) : Prop := (b < 256)%N.

Definition isSextet (v : N) : Prop := (v < 64)%N.

(** What the decoder knows in the middle of a sequence: the code point
    that is being assembled cannot end below 128. *)
Definition needOk (needed : nat) (cp lower upper : N) : bool :=
  ((128 <=? lower) && (upper <=? 191)
   && match needed with
      | O | S O => 2 <=? cp
      | S (S O) => (1 <=? cp) || (cp =? 0) && (160 <=? lower)
      | _ => (1 <=? cp) || (cp =? 0) && (144 <=? lower)
      end)%N.

(** What the decoder does on the first byte of a sequence: it copies an
    ASCII byte, writes U+FFFD, or starts a sequence in a state that is
    [needOk]. *)
Definition leadOk (b : N) : bool :=
  match Node.utf8Lead b with
  | (Node.Start, out) =>
      bool_decide (out = [b]) && (b <=? 127)%N
      || bool_decide (out = [65533%N])
  | (Node.Need n cp lo hi, out) => needOk n cp lo hi && bool_decide (out = [])
  end.

(** The test that makes a turn unwrap a layer. *)
Definition unwraps (current : string) : bool :=
  matchesBase64url (Node.utf8Decode (Node.base64Decode current))
  && (length (Node.utf8Decode (Node.base64Decode current))
      <? String.length current)%nat.

(** What the re-encoding step makes of [current]. *)
Definition reencoded (current : string) : string :=
  Node.base64urlEncode (Node.base64Decode current).

(** The first turn of the loop unwraps [id] to [text]: the decoded bytes
    read as base64url text shorter than [id]. *)
Definition unwrapsTo (codec : Codec) (id text : string) : Prop :=
  ∃ buf units,
    bufferFromBase64url codec id = inr buf
    ∧ bufferToUtf8 codec buf = inr units
    ∧ matchesBase64url units && (length units <? String.length id)%nat = true
    ∧ text = fromCodeUnits units.

(** The step the [catch] block records. *)
Definition errorStep (e : exn) : string :=
  ("canonicalization-error:" +:+ exnText e)%string.

(** The transformation lists of a run in which nothing throws. *)
Definition plainSteps (steps : list string) : Prop :=
  steps = []
  ∨ steps = ["re-encode-raw"%string]
  ∨ steps = ["unwrap-layer-1"%string]
  ∨ steps = ["unwrap-layer-1"; "re-encode-raw"]%string
  ∨ steps = ["unwrap-layer-1"; "unwrap-layer-2"]%string.

(* ===================================================================== *)
(** * Sample states and requests                                          *)
(* ===================================================================== *)

(** A runtime older than the ['base64url'] encoding: [Buffer.from]
    rejects the encoding name, whatever the string.  The error is Node's
    [ERR_UNKNOWN_ENCODING], whose name carries the code in brackets. *)
Definition legacyCodec : Codec :=
  mkCodec (λ _, inl (JsError "TypeError [ERR_UNKNOWN_ENCODING]"
                             "Unknown encoding: base64url"))
          (bufferToUtf8 Node.codec) (isoFromBuffer Node.codec).

(** A build whose verifier library has no [isoBase64URL] among its helpers:
    decoding and text conversion are Node's own and work, every call of
    [isoBase64URL.fromBuffer] throws. *)
Definition helperlessCodec : Codec :=
  mkCodec (bufferFromBase64url Node.codec) (bufferToUtf8 Node.codec)
          (λ _, inl (JsError "TypeError"
                       "Cannot read properties of undefined (reading 'fromBuffer')")).

(** A pending authentication challenge. *)
Definition demoChallenge : Challenge :=
  mkChallenge "ch-1" "alice" "r4nd0m" authentication 1000 301000 false.

(** The defaults of the environment schema. *)
Definition demoEnv : Env :=
  mkEnv "Passkey Readiness Tester" "localhost"
        ["http://localhost:3000"; "http://localhost:3001"]%string false.

(** A stand-in for the verifier library: the assertion carries the
    challenge it signs in [cj_signed]; it verifies, with the stored counter
    plus one as new counter, when that is the expected challenge, and
    throws otherwise.  Ids are ["id-0"], ["id-1"], ... *)
Definition demoExternal : External :=
  mkExternal
    (λ n, ("id-" +:+ pretty n)%string)
    (λ n, 23456 + Z.of_nat n)
    demoEnv
    (λ args, inr (mkOptions ("reg-challenge-for-" +:+ roa_userName args) ""))
    (λ args, inr (mkOptions "auth-challenge" ""))
    (λ args, inr (mkVerifiedRegistration true
                    (Some (mkRegistrationInfo [1; 2; 3]%N [4; 5; 6]%N 0))))
    (λ args,
       if String.eqb (ava_expectedChallenge args) (cj_signed (ava_response args))
       then inr (mkVerifiedAuthentication true (ava_counter args + 1))
       else inl (JsError "Error" "Unexpected authentication response challenge"))
    (λ s, inr (Node.base64Decode s)).

(** A server that has seen nothing yet. *)
Definition emptyWorld : World := mkWorld [] [] [] [] ∅ [] 0.

(** The user [bob2] owns [bob@example.com]; a registration for the new
    handle [bob] asks for the same email. *)
Definition bob2 : User :=
  mkUser "u-bob2" "bob2" (Some "bob@example.com"%string) (Some "Bob"%string)
         1000 None true 0 0 0 0.

Definition bobWorld : World := mkWorld [bob2] [] [] [] ∅ [] 7.

Definition bobRequest : Request RegistrationStartBody :=
  mkRequest (mkRegistrationStartBody "bob" (Some "bob@example.com"%string) None)
            (Some "10.0.0.1"%string) (Some "agent"%string).

(** Carol is registered and has no credential. *)
Definition carol : User :=
  mkUser "u-carol" "carol" None (Some "Carol"%string) 1000 None true 0 0 0 0.

Definition carolWorld : World := mkWorld [carol] [] [] [] ∅ [] 3.

Definition carolRequest : Request AuthenticationStartBody :=
  mkRequest (mkAuthenticationStartBody (Some "carol"%string)) None None.

(** Dave asks for a registration code by email. *)
Definition daveSend : Request OtpSendBody :=
  mkRequest (mkOtpSendBody (Some "dave"%string) (Some "dave@example.com"%string)
                           None email_method) None None.

(** The state after [sendRegistrationOTP]: ticket ["id-1"], code
    ["123456"], no attempt, bound 3, expiring at 301000. *)
Definition daveWorld : World :=
  snd (OTPController.sendRegistrationOTP demoExternal 1000 daveSend emptyWorld).

(** The ticket in [daveWorld]. *)
Definition daveTicket : OtpData :=
  mkOtpData "id-1" (Some "dave"%string) (Some "dave@example.com"%string) None
            None None "123456" email_method registration 0 3 301000 false 1000.

(** Dave's verify request with a given code. *)
Definition daveVerify (code : string) : Request OtpVerifyBody :=
  mkRequest (mkOtpVerifyBody "id-1" code (Some "dave"%string) None None)
            None None.

(** Three wrong codes. *)
Definition daveFailed : list (Z * Request OtpVerifyBody) :=
  [(2000, daveVerify "000000"); (3000, daveVerify "111111");
   (4000, daveVerify "222222")].

(** The state after the three failed calls. *)
Definition daveExhausted : World :=
  snd (runCalls (verifyOTP demoExternal registration) daveFailed daveWorld).

(** An assertion for a credential id that nobody has enrolled. *)
Definition strayAssertion : Request FinishBody :=
  mkRequest
    (mkFinishBody None
       (mkCredentialJSON "AAECAwQFBgc" "AAECAwQFBgc" None None None
                         "auth-challenge"))
    (Some "10.0.0.9"%string) (Some "agent"%string).

(** Alice and Bob, each with one enrolled credential. *)
Definition alice : User :=
  mkUser "u-alice" "alice" (Some "alice@example.com"%string)
         (Some "Alice"%string) 100 None true 1 0 0 0.

Definition bob : User :=
  mkUser "u-bob" "bob" None (Some "Bob"%string) 200 None true 1 0 0 0.

Definition aliceKey : Credential :=
  mkCredential "AAECAwQFBgc" "u-alice" [9; 9; 9]%N 5 (Some platform)
               ["internal"%string] 300 (Some 300) 0.

Definition bobKey : Credential :=
  mkCredential "CAkKCwwNDg8" "u-bob" [7; 7; 7]%N 2 (Some platform)
               ["internal"%string] 400 (Some 400) 0.

Definition aliceChallenge : Challenge :=
  mkChallenge "ch-a" "u-alice" "chal-alice" authentication 1000 301000 false.

Definition bobChallenge : Challenge :=
  mkChallenge "ch-b" "u-bob" "chal-bob" authentication 2000 302000 false.

(** Alice and Bob have each started an authentication; Bob did so later. *)
Definition twoCeremonies : World :=
  mkWorld [alice; bob] [aliceKey; bobKey] [aliceChallenge; bobChallenge]
          [] ∅ [] 10.

(** The counter rule of the verifier library: it accepts an assertion only
    with a counter strictly greater than the one its caller hands over,
    unless both are zero; otherwise it throws. *)
Definition counterRule (ext : External) : Prop :=
  ∀ args v,
    verifyAuthenticationResponse ext args = inr v →
    ava_counter args < va_newCounter v
    ∨ ava_counter args = 0 ∧ va_newCounter v = 0.

(** The verifier stand-in with the registration side filled in: the
    credential id it reports is the one the authenticator chose, the bytes
    that [cj_rawId] encodes, with a first counter of 0.  Assertions are
    judged as by [demoExternal]: the new counter is the counter the
    verifier was handed plus one, so strictly above it. *)
Definition deviceExternal : External :=
  mkExternal (nanoid demoExternal) (randomCode demoExternal) demoEnv
    (generateRegistrationOptions demoExternal)
    (generateAuthenticationOptions demoExternal)
    (λ args,
       inr (mkVerifiedRegistration true
              (Some (mkRegistrationInfo
                       (Node.base64Decode (cj_rawId (rva_response args)))
                       [4; 5; 6]%N 0))))
    (verifyAuthenticationResponse demoExternal)
    (isoToBuffer demoExternal).

(** The requests of a registration and of an authentication: the start
    request for a handle, the attestation of a new credential for it, and
    an assertion by a credential over the challenge just issued. *)
Definition registrationOf (username : string) : Request RegistrationStartBody :=
  mkRequest (mkRegistrationStartBody username None None) None None.

Definition attestationOf (username rawId : string) : Request FinishBody :=
  mkRequest
    (mkFinishBody (Some username)
       (mkCredentialJSON rawId rawId None (Some "platform"%string) None ""))
    None None.

Definition authenticationOf (username : string)
  : Request AuthenticationStartBody :=
  mkRequest (mkAuthenticationStartBody (Some username)) None None.

Definition assertionOf (rawId : string) : Request FinishBody :=
  mkRequest
    (mkFinishBody None
       (mkCredentialJSON rawId rawId None (Some "platform"%string) None
                         "auth-challenge"))
    None None.

(** Alice's assertion: her credential, her user handle (["u-alice"] in
    base64url), signed over the challenge [signed]. *)
Definition aliceAssertion (signed : string) : Request FinishBody :=
  mkRequest
    (mkFinishBody None
       (mkCredentialJSON "AAECAwQFBgc" "AAECAwQFBgc" (Some "dS1hbGljZQ"%string)
                         (Some "platform"%string) None signed))
    None None.


(* ===================================================================== *)
(** * The server as a transition system                                   *)
(* ===================================================================== *)

(** What changes the state while the server runs: a request that one of
    the eight POST routes (routes/webauthn.ts, routes/otp.ts) hands to its
    controller, an OTP timer that goes off, and a pass of the database's
    TTL monitor over the challenges.  The routes validate the body before
    the call; here a request is any body of the right shape, so what holds
    for every [Call] holds for the validated ones. *)
Inductive Call : Type :=
| StartRegistration (req : Request RegistrationStartBody)
| FinishRegistration (req : Request FinishBody)
| StartAuthentication (req : Request AuthenticationStartBody)
| FinishAuthentication (req : Request FinishBody)
| SendRegistrationOTP (req : Request OtpSendBody)
| VerifyRegistrationOTP (req : Request OtpVerifyBody)
| SendAuthenticationOTP (req : Request OtpSendBody)
| VerifyAuthenticationOTP (req : Request OtpVerifyBody)
| TimerFires (id : string)
| TtlMonitor (batch : Challenge → bool).

(** The state after a call made at time [now]. *)
Definition handle (ext : External) (now : Z) (call : Call) (w : World) : World :=
  match call with
  | StartRegistration req =>
      snd (WebAuthnController.startRegistration ext now req w)
  | FinishRegistration req =>
      snd (WebAuthnController.finishRegistration ext now req w)
  | StartAuthentication req =>
      snd (WebAuthnController.startAuthentication ext now req w)
  | FinishAuthentication req =>
      snd (WebAuthnController.finishAuthentication ext now req w)
  | SendRegistrationOTP req =>
      snd (OTPController.sendRegistrationOTP ext now req w)
  | VerifyRegistrationOTP req =>
      snd (OTPController.verifyRegistrationOTP ext now req w)
  | SendAuthenticationOTP req =>
      snd (OTPController.sendAuthenticationOTP ext now req w)
  | VerifyAuthenticationOTP req =>
      snd (OTPController.verifyAuthenticationOTP ext now req w)
  | TimerFires id => OTPController.timerFires id w
  | TtlMonitor batch =>
      with_challenges (ChallengeModel.ttlMonitor now batch) w
  end.

(** The state after a history of calls, each with its time. *)
Fixpoint serve (ext : External) (history : list (Z * Call)) (w : World)
  : World :=
  match history with
  | [] => w
  | (now, call) :: rest => serve ext rest (handle ext now call w)
  end.

(** [grows rel old new]: the collection [new] is [old] with each document
    possibly rewritten within [rel], followed by inserted documents. *)
Definition grows {A : Type} (rel : A → A → Prop) (old new : list A) : Prop :=
  ∃ kept added, new = kept ++ added ∧ Forall2 rel old kept.

(** What may change in a stored user: the login time and the two counters
    of successes, which do not decrease. *)
Definition userRel (u u' : User) : Prop :=
  u_id u' = u_id u ∧ u_username u' = u_username u ∧ u_email u' = u_email u
  ∧ u_displayName u' = u_displayName u ∧ u_createdAt u' = u_createdAt u
  ∧ u_isActive u' = u_isActive u
  ∧ u_otpFallbackUsage u' = u_otpFallbackUsage u
  ∧ u_failedAuthentications u' = u_failedAuthentications u
  ∧ u_passkeyRegistrations u <= u_passkeyRegistrations u'
  ∧ u_successfulAuthentications u <= u_successfulAuthentications u'.

(** What may change in a stored credential: the signature counter, the
    time of last use, and the use count, which does not decrease. *)
Definition credentialRel (c c' : Credential) : Prop :=
  cr_id c' = cr_id c ∧ cr_userId c' = cr_userId c
  ∧ cr_publicKey c' = cr_publicKey c ∧ cr_deviceType c' = cr_deviceType c
  ∧ cr_transports c' = cr_transports c ∧ cr_createdAt c' = cr_createdAt c
  ∧ cr_useCount c <= cr_useCount c'.

(** What may change in a stored challenge: [used], from false to true. *)
Definition challengeRel (c c' : Challenge) : Prop :=
  c' = c ∨ c' = set_used true c.

(** How the three collections evolve that nothing is ever deleted from. *)
Definition evolves (w w' : World) : Prop :=
  grows userRel (users w) (users w')
  ∧ grows credentialRel (credentials w) (credentials w')
  ∧ grows eq (securityEvents w) (securityEvents w').

(** The challenge [c] is stored, as it is or marked used. *)
Definition held (c : Challenge) (w : World) : Prop :=
  ∃ c', In c' (challenges w) ∧ challengeRel c c'.

(** A step that does not lose the challenge [c]. *)
Definition retains (c : Challenge) (w w' : World) : Prop :=
  held c w → held c w'.

(** A history in which the TTL monitor makes no pass at [limit] or later. *)
Definition sweptBefore (limit : Z) (history : list (Z * Call)) : Prop :=
  ∀ now batch, In (now, TtlMonitor batch) history → now < limit.

(** The keys that the unique indexes of [createIndexes] protect. *)
Definition uniqueKeys (w : World) : Prop :=
  NoDup (map u_id (users w))
  ∧ NoDup (map u_username (users w))
  ∧ NoDup (omap u_email (users w))
  ∧ NoDup (map cr_id (credentials w))
  ∧ NoDup (map ch_id (challenges w)).

(** A relation between the state before and after is a frame condition of
    the controllers when it is a preorder that every write the controllers
    make to the database respects: a [nanoid()] draw, the insert of
    [logEvent], [createUser] and [createChallenge] when the insert
    succeeds, and the five updates.  [Frame0] leaves out the insert of a
    credential, which only [finishRegistration] makes; [Frame] has it. *)
Record Frame0 (R : World → World → Prop) : Prop := mkFrame0 {
  frame_refl : ∀ w, R w w;
  frame_trans : ∀ a b c, R a b → R b c → R a c;
  frame_drawn : ∀ w, R w (with_drawn S w);
  frame_logEvent :
    ∀ w id now eventType eventData userId ipAddress userAgent severity,
      R w (with_securityEvents
             (λ _, fst (SecurityEventModel.logEvent id now eventType eventData
                          userId ipAddress userAgent severity
                          (securityEvents w))) w);
  frame_createUser :
    ∀ w id now username displayName email docs user,
      UserModel.createUser id now username displayName email (users w)
      = inr (docs, user) →
      R w (with_users (λ _, docs) w);
  frame_createChallenge :
    ∀ w id created now challenge type userId docs doc,
      ChallengeModel.createChallenge id created now challenge type userId 5
        (challenges w) = inr (docs, doc) →
      R w (with_challenges (λ _, docs) w);
  frame_markChallengeAsUsed :
    ∀ w id,
      R w (with_challenges
             (λ _, fst (ChallengeModel.markChallengeAsUsed id (challenges w))) w);
  frame_updateCounter :
    ∀ w now id newCounter,
      R w (with_credentials
             (λ _, fst (CredentialModel.updateCounter now id newCounter
                          (credentials w))) w);
  frame_updateCredential :
    ∀ w id,
      R w (with_credentials
             (λ docs, fst (CredentialModel.updateCredentialEmpty id docs)) w);
  frame_incrementPasskeyRegistrations :
    ∀ w id,
      R w (with_users
             (λ _, fst (UserModel.incrementPasskeyRegistrations id (users w))) w);
  frame_incrementSuccessfulAuthentications :
    ∀ w now id,
      R w (with_users
             (λ _, fst (UserModel.incrementSuccessfulAuthentications now id
                          (users w))) w)
}.

Record Frame (R : World → World → Prop) : Prop := mkFrame {
  frame_base : Frame0 R;
  frame_createCredential :
    ∀ w now data docs doc,
      CredentialModel.createCredential now data (credentials w)
      = inr (docs, doc) →
      R w (with_credentials (λ _, docs) w)
}.

(** A frame condition that also allows every change of the OTP store. *)
Definition otpFrame (R : World → World → Prop) : Prop :=
  ∀ w f g, R w (with_otp f g w).

(** A frame condition that also allows every pass of the TTL monitor. *)
Definition ttlFrame (R : World → World → Prop) : Prop :=
  ∀ w now batch, R w (with_challenges (ChallengeModel.ttlMonitor now batch) w).

(** A handler whose every run is within [R]. *)
Definition keeps {A : Type} (R : World → World → Prop) (m : M A) : Prop :=
  ∀ w, R w (snd (m w)).

(** Two states with the same users, credentials and challenges. *)
Definition sameDatabase (w w' : World) : Prop :=
  users w' = users w ∧ credentials w' = credentials w
  ∧ challenges w' = challenges w.




(** The id an assertion presents: [credential.rawId || credential.id]. *)
Definition presentedId (credential : CredentialJSON) : string :=
  if String.eqb (cj_rawId credential) "" then cj_id credential
  else cj_rawId credential.

(** The library decoder accepts both ids and reads the same bytes in
    them: the [buffersMatch] of [finishAuthentication]. *)
Definition sameBytes (ext : External) (a b : string) : Prop :=
  ∃ bytes, isoToBuffer ext a = inr bytes ∧ isoToBuffer ext b = inr bytes.

(** Alice alone, with one pending authentication challenge. *)
Definition aliceOnly : World :=
  mkWorld [alice] [aliceKey] [aliceChallenge] [] ∅ [] 10.

(** A credential stored under a doubly encoded id: ["QUFFQ0F3UUZCZ2M"] is
    the base64url text of the characters of ["AAECAwQFBgc"]. *)
Definition legacyKey : Credential :=
  mkCredential "QUFFQ0F3UUZCZ2M" "u-alice" [9; 9; 9]%N 5 (Some platform)
               ["internal"%string] 300 (Some 300) 0.

Definition legacyWorld : World :=
  mkWorld [alice] [legacyKey] [aliceChallenge] [] ∅ [] 10.

(** An assertion that presents the id as it is stored. *)
Definition legacyAssertion : Request FinishBody :=
  mkRequest
    (mkFinishBody None
       (mkCredentialJSON "QUFFQ0F3UUZCZ2M" "QUFFQ0F3UUZCZ2M"
                         (Some "dS1hbGljZQ"%string) (Some "platform"%string)
                         None "chal-alice"))
    None None.

(** Erin registers: the start request, and the finish request with the
    authenticator's response. *)
Definition erinStart : Request RegistrationStartBody :=
  mkRequest (mkRegistrationStartBody "erin" None None) None None.

Definition erinFinish : Request FinishBody :=
  mkRequest
    (mkFinishBody (Some "erin"%string)
       (mkCredentialJSON "AQID" "AQID" None (Some "platform"%string)
                         (Some ["internal"%string]) ""))
    None None.


(** Frank registers under an email-like handle and gives no email. *)
Definition frankStart : Request RegistrationStartBody :=
  mkRequest (mkRegistrationStartBody "frank@example.com" None None) None None.



(** A well-formed OTP ticket stored under [id]: it carries that id, allows
    three attempts of which at most three are used, and is not marked
    verified. *)
Definition ticketOk (id : string) (d : OtpData) : Prop :=
  otp_id d = id ∧ otp_maxAttempts d = 3
  ∧ 0 <= otp_attempts d <= 3
  ∧ otp_verified d = false.

Definition ticketsOk (w : World) : Prop :=
  ∀ id d, otpStore w !! id = Some d → ticketOk id d.

(** Two states with the same OTP store. *)
Definition sameTickets (w w' : World) : Prop := otpStore w' = otpStore w.

(** A handler that preserves the invariant [I]. *)
Definition guards {A : Type} (I : World → Prop) (m : M A) : Prop :=
  ∀ w, I w → I (snd (m w)).

(** Every stored credential belongs to a stored user. *)
Definition owned (w : World) : Prop :=
  ∀ c, In c (credentials w) → ∃ u, In u (users w) ∧ u_id u = cr_userId c.

(** Alice wants a second passkey and identifies herself by her email. *)
Definition aliceByEmail : Request RegistrationStartBody :=
  mkRequest (mkRegistrationStartBody "alice@example.com" None None) None None.

Definition aliceByEmailFinish : Request FinishBody :=
  mkRequest
    (mkFinishBody (Some "alice@example.com"%string)
       (mkCredentialJSON "AQID" "AQID" None (Some "platform"%string)
                         (Some ["internal"%string]) ""))
    None None.

(** Alice enrols a credential whose id is the bytes 0..7, stored as
    ["AAECAwQFBgc"], and signs in twice.  Mallory enrols a credential of
    her own whose id, chosen by her authenticator, is the eleven characters
    of Alice's stored id, so it is stored as ["QUFFQ0F3UUZCZ2M"]; then she
    starts an authentication. *)
Definition twinHistory : list (Z * Call) :=
  [(1000, StartRegistration (registrationOf "alice"));
   (2000, FinishRegistration (attestationOf "alice" "AAECAwQFBgc"));
   (3000, StartRegistration (registrationOf "mallory"));
   (4000, FinishRegistration (attestationOf "mallory" "QUFFQ0F3UUZCZ2M"));
   (5000, StartAuthentication (authenticationOf "alice"));
   (6000, FinishAuthentication (assertionOf "AAECAwQFBgc"));
   (7000, StartAuthentication (authenticationOf "alice"));
   (8000, FinishAuthentication (assertionOf "AAECAwQFBgc"));
   (9000, StartAuthentication (authenticationOf "mallory"))].

Definition twinWorld : World := serve deviceExternal twinHistory emptyWorld.

(** A stored credential in short: its id, its owner and its counter. *)
Definition counterOf (c : Credential) : string * string * Z :=
  (cr_id c, cr_userId c, cr_counter c).
(* ===================================================================== *)
(** * Properties                                                          *)
(* ===================================================================== *)

(** Opens the handler monad in a goal. *)
Ltac unfold_handler :=
  unfold bind, ret, throw, tryCatch, gets, modify, lift, state in *.

(** ** The Mongo collection model *)

Section MongoFacts.
Context {A : Type} `{EqDecision A}.

Lemma head_insertDesc (key : A → Z) (x : A) (sorted : list A) :
  head (Mongo.insertDesc key x sorted) =
  Some (match head sorted with
        | None => x
        | Some y => if key y <=? key x then x else y
        end).
Proof.
  destruct sorted as [|y rest]; simpl; [reflexivity|].
  destruct (key y <=? key x); reflexivity.
Qed.

Lemma head_sortDesc_None (key : A → Z) (docs : list A) :
  head (Mongo.sortDesc key docs) = None → docs = [].
Proof.
  destruct docs as [|d docs]; [reflexivity|].
  simpl. rewrite head_insertDesc. discriminate.
Qed.

Lemma head_sortDesc_max (key : A → Z) (docs : list A) (m : A) :
  head (Mongo.sortDesc key docs) = Some m →
  In m docs ∧ ∀ d, In d docs → key d <= key m.
Proof.
  revert m. induction docs as [|d docs IH]; intros m; simpl; [discriminate|].
  rewrite head_insertDesc.
  destruct (head (Mongo.sortDesc key docs)) as [y|] eqn:Hhd.
  - destruct (IH y eq_refl) as [Hin Hmax].
    destruct (Z.leb_spec (key y) (key d)); intros [= <-].
    + split; [now left|]. intros d' [<-|Hd']; [lia|].
      specialize (Hmax d' Hd'). lia.
    + split; [now right|]. intros d' [<-|Hd']; [lia|]. now apply Hmax.
  - apply head_sortDesc_None in Hhd. subst docs. intros [= <-].
    split; [now left|]. intros d' [<-|[]]. lia.
Qed.

Lemma findOneSorted_spec (q : A → bool) (key : A → Z) (docs : list A) :
  match Mongo.findOneSorted q key docs with
  | Some m => In m docs ∧ q m = true
              ∧ ∀ d, In d docs → q d = true → key d <= key m
  | None => ∀ d, In d docs → q d = false
  end.
Proof.
  unfold Mongo.findOneSorted, Mongo.find.
  destruct (head _) as [m|] eqn:Hhd.
  - apply head_sortDesc_max in Hhd. destruct Hhd as [Hin Hmax].
    apply filter_In in Hin. destruct Hin as [Hin Hq].
    repeat split; try assumption.
    intros d Hd Hqd. apply Hmax. apply filter_In. now split.
  - apply head_sortDesc_None in Hhd. intros d Hd.
    destruct (q d) eqn:Hqd; [|reflexivity].
    assert (In d (List.filter q docs)) as Hf by (apply filter_In; now split).
    rewrite Hhd in Hf. destruct Hf.
Qed.

Lemma updateOne_findOne (q : A → bool) (upd : A → A) (docs : list A) (d : A) :
  Mongo.findOne q docs = Some d →
  Mongo.updateOne q upd docs =
    (fst (Mongo.updateOne q upd docs),
     Mongo.mkUpdateResult 1 (if decide (upd d = d) then 0 else 1)).
Proof.
  unfold Mongo.findOne. induction docs as [|x docs IH]; simpl; [discriminate|].
  destruct (q x) eqn:Hq.
  - intros [= <-]. reflexivity.
  - intros Hf. specialize (IH Hf). rewrite IH at 2. reflexivity.
Qed.

Lemma updateOne_no_match (q : A → bool) (upd : A → A) (docs : list A) :
  Mongo.findOne q docs = None →
  Mongo.updateOne q upd docs = (docs, Mongo.mkUpdateResult 0 0).
Proof.
  unfold Mongo.findOne. induction docs as [|x docs IH]; simpl; [reflexivity|].
  destruct (q x) eqn:Hq; [discriminate|].
  intros Hf. rewrite (IH Hf). reflexivity.
Qed.

(** After [updateOne], a query [q'] that the update preserves on the
    documents [q] does not select, and that agrees with [q] on the
    rewritten one, finds the rewritten document. *)
Lemma findOne_updateOne_same (q : A → bool) (upd : A → A) (docs : list A) (d : A) :
  Mongo.findOne q docs = Some d →
  q (upd d) = true →
  Mongo.findOne q (fst (Mongo.updateOne q upd docs)) = Some (upd d).
Proof.
  unfold Mongo.findOne. induction docs as [|x docs IH]; simpl; [discriminate|].
  destruct (q x) eqn:Hq.
  - intros [= <-] Hqu. simpl. now rewrite Hqu.
  - intros Hf Hqu. simpl. rewrite Hq. now apply IH.
Qed.

Lemma findOne_updateOne_other (q q' : A → bool) (upd : A → A) (docs : list A) :
  (∀ d, q d = true → q' d = false ∧ q' (upd d) = false) →
  Mongo.findOne q' (fst (Mongo.updateOne q upd docs)) = Mongo.findOne q' docs.
Proof.
  intros Hsep. unfold Mongo.findOne.
  induction docs as [|x docs IH]; simpl; [reflexivity|].
  destruct (q x) eqn:Hq; simpl.
  - destruct (Hsep x Hq) as [-> ->]. reflexivity.
  - destruct (q' x); [reflexivity|]. exact IH.
Qed.

End MongoFacts.

Section MongoUpdateFacts.
Context {A : Type} `{EqDecision A}.

Lemma updateOne_fixed (q : A → bool) (upd : A → A) (docs : list A) (d : A) :
  Mongo.findOne q docs = Some d →
  upd d = d →
  fst (Mongo.updateOne q upd docs) = docs.
Proof.
  unfold Mongo.findOne. induction docs as [|x docs IH]; simpl; [discriminate|].
  destruct (q x) eqn:Hq; simpl.
  - intros [= <-] ->. reflexivity.
  - intros Hf Hd. f_equal. now apply IH.
Qed.

End MongoUpdateFacts.

(** ** ChallengeModel *)

Lemma byId_set_used (id : string) (u : bool) (c : Challenge) :
  ChallengeModel.byId id (set_used u c) = ChallengeModel.byId id c.
Proof. reflexivity. Qed.

Lemma byId_true (id : string) (c : Challenge) :
  ChallengeModel.byId id c = true ↔ ch_id c = id.
Proof. unfold ChallengeModel.byId. apply String.eqb_eq. Qed.

Lemma findOne_Some_true {A : Type} (q : A → bool) (docs : list A) (d : A) :
  Mongo.findOne q docs = Some d → In d docs ∧ q d = true.
Proof. unfold Mongo.findOne. intros Hf. apply find_some in Hf. exact Hf. Qed.

Lemma markChallengeAsUsed_present (id : string) (docs : list Challenge) (c : Challenge) :
  Mongo.findOne (ChallengeModel.byId id) docs = Some c →
  Mongo.findOne (ChallengeModel.byId id)
                (fst (ChallengeModel.markChallengeAsUsed id docs))
    = Some (set_used true c)
  ∧ snd (ChallengeModel.markChallengeAsUsed id docs) = negb (ch_used c).
Proof.
  intros Hf. unfold ChallengeModel.markChallengeAsUsed. simpl. split.
  - apply findOne_updateOne_same; [exact Hf|].
    rewrite byId_set_used. now apply findOne_Some_true in Hf.
  - rewrite (updateOne_findOne _ _ _ _ Hf). simpl.
    destruct c as [i u ch t ca ea used]. unfold set_used. simpl.
    destruct used; simpl.
    + rewrite decide_True by reflexivity. reflexivity.
    + rewrite decide_False by discriminate. reflexivity.
Qed.

(** C1.  [markChallengeAsUsed] on the id of a stored challenge leaves that
    challenge flagged used and answers [true] exactly when the challenge
    was unused before the call ([false] when it was already used); a second
    call on the same id changes nothing and answers [false], so two calls
    on a fresh challenge give one [true] and one [false].  Challenges with
    another id are not touched. *)
Theorem markChallengeAsUsed_single_transition :
  ∀ (docs : list Challenge) (id : string) (c : Challenge),
    Mongo.findOne (ChallengeModel.byId id) docs = Some c →
    let first := ChallengeModel.markChallengeAsUsed id docs in
    let second := ChallengeModel.markChallengeAsUsed id (fst first) in
    Mongo.findOne (ChallengeModel.byId id) (fst first) = Some (set_used true c)
    ∧ (snd first = true ↔ ch_used c = false)
    ∧ (snd first = false ↔ ch_used c = true)
    ∧ snd second = false
    ∧ fst second = fst first
    ∧ (ch_used c = false → (snd first, snd second) = (true, false))
    ∧ (∀ id', id' ≠ id →
         Mongo.findOne (ChallengeModel.byId id') (fst first)
         = Mongo.findOne (ChallengeModel.byId id') docs).
Proof.
  intros docs id c Hf. cbv zeta.
  destruct (markChallengeAsUsed_present id docs c Hf) as [Hfirst Hr1].
  destruct (markChallengeAsUsed_present id _ _ Hfirst) as [_ Hr2].
  change (ch_used (set_used true c)) with true in Hr2.
  change (negb true) with false in Hr2.
  split; [exact Hfirst|].
  split; [rewrite Hr1; destruct (ch_used c); simpl; intuition congruence|].
  split; [rewrite Hr1; destruct (ch_used c); simpl; intuition congruence|].
  split; [exact Hr2|].
  split.
  { unfold ChallengeModel.markChallengeAsUsed at 1. simpl.
    eapply updateOne_fixed; [exact Hfirst|]. reflexivity. }
  split; [intros Hu; rewrite Hr1, Hr2, Hu; reflexivity|].
  intros id' Hne. unfold ChallengeModel.markChallengeAsUsed. simpl.
    apply findOne_updateOne_other. intros d Hd.
    rewrite byId_set_used. apply byId_true in Hd.
    assert (ChallengeModel.byId id' d = false) as ->; [|now split].
    unfold ChallengeModel.byId. apply String.eqb_neq. congruence.
Qed.

Lemma markChallengeAsUsed_single_transition_witness :
  Mongo.findOne (ChallengeModel.byId "ch-1") [demoChallenge] = Some demoChallenge
  ∧ (snd (ChallengeModel.markChallengeAsUsed "ch-1" [demoChallenge]),
     snd (ChallengeModel.markChallengeAsUsed "ch-1"
            (fst (ChallengeModel.markChallengeAsUsed "ch-1" [demoChallenge]))))
    = (true, false).
Proof.
  split; [reflexivity|].
  apply (markChallengeAsUsed_single_transition [demoChallenge] "ch-1" demoChallenge);
    reflexivity.
Defined.

Lemma validQuery_usable now type userId c :
  ChallengeModel.validQuery now type userId c = true ↔ usable now type userId c.
Proof.
  unfold ChallengeModel.validQuery, usable, ChallengeType_eqb.
  rewrite !andb_true_iff, bool_decide_eq_true, negb_true_iff, Z.ltb_lt.
  destruct userId as [u|]; simpl.
  - destruct (String.eqb u "") eqn:Hu; simpl.
    + intuition discriminate.
    + rewrite String.eqb_eq. intuition congruence.
  - intuition discriminate.
Qed.

(** C4.  Whatever the collection holds (purged or not), a challenge that
    [findValidChallenge] returns is stored, has the requested type, is
    unused, expires strictly after the time of the lookup, matches the
    owner when one is given, and no other usable challenge was created
    later; the lookup answers nothing only when no stored challenge is
    usable.  Without an owner every unused, unexpired challenge of the type
    is usable. *)
Theorem findValidChallenge_latest_usable :
  ∀ (now : Z) (type : ChallengeType) (userId : option string)
    (docs : list Challenge),
    match ChallengeModel.findValidChallenge now type userId docs with
    | Some c =>
        In c docs
        ∧ ch_type c = type ∧ ch_used c = false ∧ now < ch_expiresAt c
        ∧ (truthy userId = true → Some (ch_userId c) = userId)
        ∧ (∀ c', In c' docs → usable now type userId c' →
                 ch_createdAt c' <= ch_createdAt c)
    | None => ∀ c', In c' docs → ¬ usable now type userId c'
    end
    ∧ (∀ c, usable now type None c
            ↔ ch_type c = type ∧ ch_used c = false ∧ now < ch_expiresAt c).
Proof.
  intros now type userId docs. split.
  - unfold ChallengeModel.findValidChallenge.
    pose proof (findOneSorted_spec (ChallengeModel.validQuery now type userId)
                  ch_createdAt docs) as Hspec.
    destruct (Mongo.findOneSorted _ _ _) as [c|].
    + destruct Hspec as (Hin & Hq & Hmax).
      apply validQuery_usable in Hq. destruct Hq as (Ht & Hu & He & Ho).
      repeat split; try assumption.
      intros c' Hc' Hus. apply Hmax; [assumption|].
      now apply validQuery_usable.
    + intros c' Hc' Hus. apply validQuery_usable in Hus.
      rewrite (Hspec c' Hc') in Hus. discriminate.
  - intros c. unfold usable. simpl. intuition discriminate.
Qed.

(** ** Registration start: an email that is already taken *)

(** C6.  When the handle of a registration start resolves to no user and
    the supplied email already belongs to a user, the handler throws
    [AppError(..., 409)] and the whole server state, the user collection
    included, is what it was before the call. *)
Theorem startRegistration_email_conflict :
  ∀ (ext : External) (now : Z) (req : Request RegistrationStartBody)
    (w : World) (email : string) (owner : User),
    rs_username (body req) ≠ ""%string →
    UserModel.findByUsernameOrEmail (rs_username (body req)) (users w) = None →
    rs_email (body req) = Some email →
    email ≠ ""%string →
    UserModel.findByEmail email (users w) = Some owner →
    WebAuthnController.startRegistration ext now req w
    = (inl (AppError
              "Email already in use. Please sign in or use a different email."
              409), w).
Proof.
  intros ext now req w email owner Hname Hnone Hmail Hne Howner.
  unfold WebAuthnController.startRegistration.
  apply String.eqb_neq in Hname. rewrite Hname.
  unfold WebAuthnController.createIfEmailFree.
  unfold_handler. rewrite Hnone, Hmail. simpl.
  apply String.eqb_neq in Hne. rewrite Hne. simpl.
  rewrite Howner. reflexivity.
Qed.

Lemma startRegistration_email_conflict_witness :
  WebAuthnController.startRegistration demoExternal 5000 bobRequest bobWorld
  = (inl (AppError
            "Email already in use. Please sign in or use a different email."
            409), bobWorld).
Proof.
  apply (startRegistration_email_conflict demoExternal 5000 bobRequest bobWorld
           "bob@example.com" bob2); (reflexivity || discriminate).
Defined.

(** ** Authentication start: a user without credentials *)

(** C7.  When the handle of an authentication start resolves to a user
    who has no credential, the handler throws the "No passkeys registered"
    [AppError] (status 400).  The throw comes from the resolution step,
    which runs before [authenticationOptions], so whatever the option
    generator would do; the server state is unchanged: no challenge is
    stored and nothing is logged. *)
Theorem startAuthentication_no_credentials :
  ∀ (ext : External) (now : Z) (req : Request AuthenticationStartBody)
    (w : World) (handle : string) (user : User),
    as_username (body req) = Some handle →
    handle ≠ ""%string →
    UserModel.findByUsernameOrEmail handle (users w) = Some user →
    CredentialModel.findByUserId (u_id user) (credentials w) = [] →
    let noCredentials :=
      AppError
        "No passkeys registered for this user. Please register a passkey first."
        400 in
    WebAuthnController.resolveAllowCredentials (as_username (body req)) w
    = (inl noCredentials, w)
    ∧ WebAuthnController.startAuthentication ext now req w
      = (inl noCredentials, w)
    ∧ challenges (snd (WebAuthnController.startAuthentication ext now req w))
      = challenges w.
Proof.
  intros ext now req w handle user Hname Hne Huser Hcreds noCredentials.
  assert (WebAuthnController.resolveAllowCredentials (as_username (body req)) w
          = (inl noCredentials, w)) as Hres.
  { unfold WebAuthnController.resolveAllowCredentials. rewrite Hname. simpl.
    apply String.eqb_neq in Hne. rewrite Hne. simpl.
    unfold_handler. rewrite Huser, Hcreds. reflexivity. }
  assert (WebAuthnController.startAuthentication ext now req w
          = (inl noCredentials, w)) as Hstart.
  { unfold WebAuthnController.startAuthentication.
    unfold tryCatch at 1. unfold bind at 1. rewrite Hres. reflexivity. }
  split; [exact Hres|]. split; [exact Hstart|]. now rewrite Hstart.
Qed.

Lemma startAuthentication_no_credentials_witness :
  WebAuthnController.startAuthentication demoExternal 5000 carolRequest carolWorld
  = (inl (AppError
            "No passkeys registered for this user. Please register a passkey first."
            400), carolWorld).
Proof.
  apply (startAuthentication_no_credentials demoExternal 5000 carolRequest
           carolWorld "carol" carol); (reflexivity || discriminate).
Defined.

(** ** OTP verification: counted attempts and the end of a ticket *)

Lemma truthy_Some (s : option string) :
  truthy s = true → ∃ v, s = Some v ∧ v ≠ ""%string.
Proof.
  destruct s as [v|]; simpl; [|discriminate].
  intros Hv. exists v. split; [reflexivity|].
  apply negb_true_iff in Hv. now apply String.eqb_neq.
Qed.

Lemma input_check_passes (kind : ChallengeType) (id : string)
    (req : Request OtpVerifyBody) :
  wellFormed kind id req →
  String.eqb (ov_otpId (body req)) "" = false
  ∧ String.eqb (ov_otp (body req)) "" = false.
Proof.
  intros (Hid & Hne & Hotp & _). subst id.
  split; now apply String.eqb_neq.
Qed.

Lemma mismatch_test (kind : ChallengeType) (d : OtpData)
    (req : Request OtpVerifyBody) :
  mismatch kind d req →
  negb (String.eqb (otp_otp d) (ov_otp (body req)))
  || negb (bool_decide (expected kind d = provided kind (body req))) = true.
Proof.
  intros [Hotp|Hid]; apply orb_true_iff.
  - left. apply negb_true_iff, String.eqb_neq. congruence.
  - right. apply negb_true_iff, bool_decide_eq_false. exact Hid.
Qed.

(** A well-formed request for a ticket that is not stored is refused with
    "Invalid or expired OTP" and changes nothing. *)
Lemma verifyOTP_missing (ext : External) (kind : ChallengeType) (id : string)
    (now : Z) (req : Request OtpVerifyBody) (w : World) :
  wellFormed kind id req →
  otpStore w !! id = None →
  verifyOTP ext kind now req w = (inl (AppError "Invalid or expired OTP" 400), w).
Proof.
  intros Hwf Hnone.
  destruct (input_check_passes kind id req Hwf) as [Hi Ho].
  destruct Hwf as (Hid & _ & _ & Htr).
  destruct kind; simpl in *;
    [unfold OTPController.verifyRegistrationOTP
    |unfold OTPController.verifyAuthenticationOTP];
    rewrite Hi, Ho; simpl.
  - destruct (truthy_Some _ Htr) as (u & -> & Hu). simpl.
    apply String.eqb_neq in Hu. rewrite Hu.
    unfold OTPController.getOTP. unfold_handler.
    rewrite Hid, Hnone. reflexivity.
  - rewrite Htr. simpl.
    unfold OTPController.getOTP. unfold_handler.
    rewrite Hid, Hnone. reflexivity.
Qed.

(** A failed attempt on a live ticket: the handler answers "Invalid OTP
    code", and the ticket it leaves in the store has one more attempt. *)
Lemma verifyOTP_mismatch (ext : External) (kind : ChallengeType) (id : string)
    (d : OtpData) (now : Z) (req : Request OtpVerifyBody) (w : World) :
  wellFormed kind id req →
  otpStore w !! id = Some d →
  now <= otp_expiresAt d →
  otp_attempts d < otp_maxAttempts d →
  mismatch kind d req →
  fst (verifyOTP ext kind now req w) = inl (AppError "Invalid OTP code" 400)
  ∧ otpStore (snd (verifyOTP ext kind now req w)) !! id
    = Some (set_attempts (otp_attempts d + 1) d)
  ∧ length (securityEvents (snd (verifyOTP ext kind now req w)))
    = S (length (securityEvents w)).
Proof.
  intros Hwf Hsome Hlive Hleft Hmis.
  destruct (input_check_passes kind id req Hwf) as [Hi Ho].
  pose proof (mismatch_test kind (set_attempts (otp_attempts d + 1) d) req Hmis)
    as Htest.
  destruct Hwf as (Hid & _ & _ & Htr).
  assert ((otp_expiresAt d <? now) = false) as Hexp.
  { apply Z.ltb_ge. lia. }
  assert ((otp_maxAttempts d <=? otp_attempts d) = false) as Hmax.
  { apply Z.leb_gt. lia. }
  destruct kind; simpl in *;
    [unfold OTPController.verifyRegistrationOTP
    |unfold OTPController.verifyAuthenticationOTP];
    rewrite Hi, Ho; simpl.
  - destruct (truthy_Some _ Htr) as (u & Hu & Hune). rewrite Hu in *. simpl.
    apply String.eqb_neq in Hune. rewrite Hune.
    unfold OTPController.getOTP, OTPController.countAttempt,
      OTPController.storeOTP, OTPController.logEvent,
      WebAuthnController.logEvent, WebAuthnController.fresh.
    unfold_handler. rewrite Hid, Hsome, Hexp, Hmax. simpl.
    simpl in Htest. rewrite Htest. simpl.
    rewrite !lookup_insert_eq, length_app. simpl.
    repeat split; try reflexivity. lia.
  - rewrite Htr. simpl.
    unfold OTPController.getOTP, OTPController.countAttempt,
      OTPController.storeOTP, OTPController.logEvent,
      WebAuthnController.logEvent, WebAuthnController.fresh.
    unfold_handler. rewrite Hid, Hsome, Hexp, Hmax. simpl.
    simpl in Htest. rewrite Htest. simpl.
    rewrite !lookup_insert_eq, length_app. simpl.
    repeat split; try reflexivity. lia.
Qed.

(** A request on a ticket whose attempts have reached the bound: the
    ticket is deleted, one event is logged, and the handler answers
    "Maximum OTP attempts exceeded" (429), whatever code was sent. *)
Lemma verifyOTP_exhausted (ext : External) (kind : ChallengeType) (id : string)
    (d : OtpData) (now : Z) (req : Request OtpVerifyBody) (w : World) :
  wellFormed kind id req →
  otpStore w !! id = Some d →
  now <= otp_expiresAt d →
  otp_maxAttempts d <= otp_attempts d →
  fst (verifyOTP ext kind now req w)
  = inl (AppError "Maximum OTP attempts exceeded" 429)
  ∧ otpStore (snd (verifyOTP ext kind now req w)) !! id = None
  ∧ ∃ event,
      securityEvents (snd (verifyOTP ext kind now req w))
      = securityEvents w ++ [event]
      ∧ se_eventType event
        = match kind with
          | registration => "otp_max_attempts"%string
          | authentication => "auth_otp_max_attempts"%string
          end
      ∧ se_severity event
        = match kind with registration => medium | authentication => high end.
Proof.
  intros Hwf Hsome Hlive Hfull.
  destruct (input_check_passes kind id req Hwf) as [Hi Ho].
  destruct Hwf as (Hid & _ & _ & Htr).
  assert ((otp_expiresAt d <? now) = false) as Hexp.
  { apply Z.ltb_ge. lia. }
  assert ((otp_maxAttempts d <=? otp_attempts d) = true) as Hmax.
  { apply Z.leb_le. lia. }
  destruct kind; simpl in *;
    [unfold OTPController.verifyRegistrationOTP
    |unfold OTPController.verifyAuthenticationOTP];
    rewrite Hi, Ho; simpl.
  - destruct (truthy_Some _ Htr) as (u & Hu & Hune). rewrite Hu in *. simpl.
    apply String.eqb_neq in Hune. rewrite Hune.
    unfold OTPController.getOTP, OTPController.deleteOTP,
      OTPController.logEvent, WebAuthnController.logEvent,
      WebAuthnController.fresh.
    unfold_handler. rewrite Hid, Hsome, Hexp, Hmax. simpl.
    rewrite lookup_delete_eq.
    repeat split; try reflexivity. eexists. repeat split; reflexivity.
  - rewrite Htr. simpl.
    unfold OTPController.getOTP, OTPController.deleteOTP,
      OTPController.logEvent, WebAuthnController.logEvent,
      WebAuthnController.fresh.
    unfold_handler. rewrite Hid, Hsome, Hexp, Hmax. simpl.
    rewrite lookup_delete_eq.
    repeat split; try reflexivity. eexists. repeat split; reflexivity.
Qed.

Lemma mismatch_set_attempts (kind : ChallengeType) (n : Z) (d : OtpData)
    (req : Request OtpVerifyBody) :
  mismatch kind (set_attempts n d) req ↔ mismatch kind d req.
Proof. destruct kind; reflexivity. Qed.

(** Failed attempts in a row, as long as the bound allows: each is
    answered "Invalid OTP code" and each is counted in the stored ticket. *)
Lemma runCalls_failed (ext : External) (kind : ChallengeType) (id : string)
    (calls : list (Z * Request OtpVerifyBody)) :
  ∀ (d : OtpData) (w : World),
    otpStore w !! id = Some d →
    Forall (λ call, wellFormed kind id (snd call)
                    ∧ fst call <= otp_expiresAt d
                    ∧ mismatch kind d (snd call)) calls →
    otp_attempts d + Z.of_nat (length calls) <= otp_maxAttempts d →
    fst (runCalls (verifyOTP ext kind) calls w)
    = repeat (inl (AppError "Invalid OTP code" 400)) (length calls)
    ∧ otpStore (snd (runCalls (verifyOTP ext kind) calls w)) !! id
      = Some (set_attempts (otp_attempts d + Z.of_nat (length calls)) d).
Proof.
  induction calls as [|[now req] calls IH]; intros d w Hsome Hall Hroom.
  - simpl. split; [reflexivity|]. rewrite Hsome, Z.add_0_r.
    destruct d; reflexivity.
  - inversion Hall as [|call rest (Hwf & Hlive & Hmis) Hrest]; subst.
    clear Hall. rename Hrest into Hall. simpl in Hwf, Hlive, Hmis.
    simpl length in *. simpl runCalls.
    destruct (verifyOTP_mismatch ext kind id d now req w Hwf Hsome Hlive)
      as (Hres & Hstore & _); [lia|exact Hmis|].
    destruct (IH (set_attempts (otp_attempts d + 1) d)
                 (snd (verifyOTP ext kind now req w)) Hstore)
      as [IHres IHstore].
    { eapply Forall_impl; [exact Hall|]. intros call (H1 & H2 & H3).
      split; [exact H1|]. split; [exact H2|].
      now apply mismatch_set_attempts. }
    { simpl. lia. }
    simpl. rewrite Hres, IHres, IHstore. split; [reflexivity|].
    f_equal. unfold set_attempts. simpl. f_equal. lia.
Qed.

(** Requests for a ticket that is gone: all refused as "Invalid or
    expired OTP", the state untouched. *)
Lemma runCalls_missing (ext : External) (kind : ChallengeType) (id : string)
    (calls : list (Z * Request OtpVerifyBody)) (w : World) :
  otpStore w !! id = None →
  Forall (λ call, wellFormed kind id (snd call)) calls →
  runCalls (verifyOTP ext kind) calls w
  = (repeat (inl (AppError "Invalid or expired OTP" 400)) (length calls), w).
Proof.
  intros Hnone. induction calls as [|[now req] calls IH]; intros Hall.
  - reflexivity.
  - inversion Hall as [|call rest Hwf Hrest]; subst. simpl in Hwf.
    simpl. rewrite (verifyOTP_missing ext kind id now req w Hwf Hnone).
    simpl. rewrite (IH Hrest). reflexivity.
Qed.

(** Every call that gets past the guards is counted before its outcome is
    decided: if it fails, for whatever reason, the ticket it leaves behind
    has one more attempt; if it succeeds, the ticket is gone. *)
Lemma verifyOTP_counts_first (ext : External) (kind : ChallengeType)
    (id : string) (d : OtpData) (now : Z) (req : Request OtpVerifyBody)
    (w : World) :
  wellFormed kind id req →
  otpStore w !! id = Some d →
  now <= otp_expiresAt d →
  otp_attempts d < otp_maxAttempts d →
  otpStore (snd (verifyOTP ext kind now req w)) !! id
  = match fst (verifyOTP ext kind now req w) with
    | inl _ => Some (set_attempts (otp_attempts d + 1) d)
    | inr _ => None
    end.
Proof.
  intros Hwf Hsome Hlive Hleft.
  destruct (input_check_passes kind id req Hwf) as [Hi Ho].
  destruct Hwf as (Hid & _ & _ & Htr).
  assert ((otp_expiresAt d <? now) = false) as Hexp.
  { apply Z.ltb_ge. lia. }
  assert ((otp_maxAttempts d <=? otp_attempts d) = false) as Hmax.
  { apply Z.leb_gt. lia. }
  destruct kind; simpl in *;
    [unfold OTPController.verifyRegistrationOTP
    |unfold OTPController.verifyAuthenticationOTP];
    rewrite Hi, Ho; simpl.
  - destruct (truthy_Some _ Htr) as (u & Hu & Hune). rewrite Hu in *. simpl.
    apply String.eqb_neq in Hune. rewrite Hune.
    unfold OTPController.getOTP, OTPController.countAttempt,
      OTPController.storeOTP, OTPController.deleteOTP, OTPController.logEvent,
      WebAuthnController.logEvent, WebAuthnController.createUser,
      WebAuthnController.fresh.
    unfold_handler. rewrite Hid, Hsome, Hexp, Hmax. simpl.
    destruct (negb _ || negb _); simpl.
    + now rewrite !lookup_insert_eq.
    + destruct (UserModel.findByUsernameOrEmail u (users w)); simpl.
      * now rewrite lookup_delete_eq.
      * destruct (UserModel.createUser _ _ _ _ _ _) as [e|[docs user]]; simpl.
        -- now rewrite lookup_insert_eq.
        -- now rewrite lookup_delete_eq.
  - rewrite Htr. simpl.
    unfold OTPController.getOTP, OTPController.countAttempt,
      OTPController.storeOTP, OTPController.deleteOTP, OTPController.logEvent,
      WebAuthnController.logEvent,
      WebAuthnController.incrementSuccessfulAuthentications,
      WebAuthnController.fresh.
    unfold_handler. rewrite Hid, Hsome, Hexp, Hmax. simpl.
    destruct (negb _ || negb _); simpl.
    + now rewrite !lookup_insert_eq.
    + destruct (UserModel.findById _ (users w)); simpl.
      * now rewrite lookup_delete_eq.
      * now rewrite lookup_insert_eq.
Qed.

(** C8.  A ticket with no attempt yet and bound [maxAttempts] (3 as the
    send handlers create it), and verify calls for it that arrive before it
    expires, with no cleanup timer firing in between.  Every call that
    passes the guards is counted before its outcome is decided.
    [maxAttempts] failed calls are each answered "Invalid OTP code" and
    leave a ticket counting them all; the next call, whatever its code, is
    answered "Maximum OTP attempts exceeded" (429) and deletes the ticket;
    every later call for that id, at any time, is answered "Invalid or
    expired OTP" and changes nothing. *)
Theorem otp_attempts_counted_then_ticket_destroyed :
  ∀ (ext : External) (kind : ChallengeType) (id : string) (d : OtpData)
    (w : World) (failed : list (Z * Request OtpVerifyBody))
    (nowMax : Z) (reqMax : Request OtpVerifyBody)
    (later : list (Z * Request OtpVerifyBody)),
    otpStore w !! id = Some d →
    otp_attempts d = 0 →
    0 <= otp_maxAttempts d →
    length failed = Z.to_nat (otp_maxAttempts d) →
    Forall (λ call, wellFormed kind id (snd call)
                    ∧ fst call <= otp_expiresAt d
                    ∧ mismatch kind d (snd call)) failed →
    wellFormed kind id reqMax →
    nowMax <= otp_expiresAt d →
    Forall (λ call, wellFormed kind id (snd call)) later →
    let afterFailed := runCalls (verifyOTP ext kind) failed w in
    let rejected := verifyOTP ext kind nowMax reqMax (snd afterFailed) in
    let afterwards := runCalls (verifyOTP ext kind) later (snd rejected) in
    (∀ d' w' now req,
        wellFormed kind id req → otpStore w' !! id = Some d' →
        now <= otp_expiresAt d' → otp_attempts d' < otp_maxAttempts d' →
        otpStore (snd (verifyOTP ext kind now req w')) !! id
        = match fst (verifyOTP ext kind now req w') with
          | inl _ => Some (set_attempts (otp_attempts d' + 1) d')
          | inr _ => None
          end)
    ∧ (∀ k, (k <= length failed)%nat →
         otpStore (snd (runCalls (verifyOTP ext kind) (take k failed) w)) !! id
         = Some (set_attempts (Z.of_nat k) d))
    ∧ fst afterFailed
      = repeat (inl (AppError "Invalid OTP code" 400)) (length failed)
    ∧ otpStore (snd afterFailed) !! id
      = Some (set_attempts (otp_maxAttempts d) d)
    ∧ fst rejected = inl (AppError "Maximum OTP attempts exceeded" 429)
    ∧ length (securityEvents (snd rejected))
      = S (length (securityEvents (snd afterFailed)))
    ∧ otpStore (snd rejected) !! id = None
    ∧ fst afterwards
      = repeat (inl (AppError "Invalid or expired OTP" 400)) (length later)
    ∧ snd afterwards = snd rejected.
Proof.
  intros ext kind id d w failed nowMax reqMax later
         Hsome Hzero Hbound Hlen Hfailed HwfMax HliveMax Hlater.
  cbv zeta.
  destruct (runCalls_failed ext kind id failed d w Hsome Hfailed)
    as [Hres Hstore]; [lia|].
  rewrite Hzero, Hlen, Z2Nat.id, Z.add_0_l in Hstore by lia.
  destruct (verifyOTP_exhausted ext kind id _ nowMax reqMax _ HwfMax Hstore)
    as (Hrej & Hgone & event & Hevents & _); [exact HliveMax|simpl; lia|].
  split; [intros; now apply verifyOTP_counts_first|].
  split.
  { intros k Hk.
    destruct (runCalls_failed ext kind id (take k failed) d w Hsome)
      as [_ Hk']. 
    - apply Forall_take. exact Hfailed.
    - rewrite length_take. lia.
    - rewrite Hk', Hzero, length_take. do 2 f_equal. lia. }
  split; [exact Hres|]. split; [exact Hstore|]. split; [exact Hrej|].
  split; [rewrite Hevents, length_app; simpl; lia|].
  split; [exact Hgone|].
  rewrite (runCalls_missing ext kind id later _ Hgone Hlater).
  split; reflexivity.
Qed.

Lemma otp_attempts_counted_then_ticket_destroyed_witness :
  fst (runCalls (verifyOTP demoExternal registration) daveFailed daveWorld)
  = repeat (inl (AppError "Invalid OTP code" 400)) 3
  ∧ fst (verifyOTP demoExternal registration 5000 (daveVerify "123456")
           (snd (runCalls (verifyOTP demoExternal registration)
                          daveFailed daveWorld)))
    = inl (AppError "Maximum OTP attempts exceeded" 429)
  ∧ fst (runCalls (verifyOTP demoExternal registration)
           [(6000, daveVerify "123456")]
           (snd (verifyOTP demoExternal registration 5000 (daveVerify "123456")
                   (snd (runCalls (verifyOTP demoExternal registration)
                                  daveFailed daveWorld)))))
    = [inl (AppError "Invalid or expired OTP" 400)].
Proof.
  assert (∀ code, wellFormed registration "id-1" (daveVerify code)
                  ↔ code ≠ ""%string) as Hwf.
  { intros code. unfold wellFormed. simpl. intuition discriminate. }
  destruct (otp_attempts_counted_then_ticket_destroyed
              demoExternal registration "id-1" daveTicket daveWorld daveFailed
              5000 (daveVerify "123456") [(6000, daveVerify "123456")])
    as (_ & _ & Hfailed & _ & Hrejected & _ & _ & Hlater & _).
  - vm_compute. reflexivity.
  - reflexivity.
  - simpl. lia.
  - reflexivity.
  - unfold daveFailed.
    repeat (apply List.Forall_cons;
            [split; [apply Hwf; discriminate
                    |split; [simpl; lia|left; discriminate]]|]).
    apply List.Forall_nil.
  - apply Hwf. discriminate.
  - simpl. lia.
  - apply List.Forall_cons; [apply Hwf; discriminate|apply List.Forall_nil].
  - split; [exact Hfailed|]. split; [exact Hrejected|]. exact Hlater.
Defined.

(** ** Which failures reach the audit trail *)

(** An assertion for a credential that is not enrolled is answered
    "Credential not found" (404) while the event collection stays empty. *)
Lemma credential_not_found_not_logged :
  fst (WebAuthnController.finishAuthentication demoExternal 5000
         strayAssertion carolWorld)
  = inl (AppError "Credential not found" 404)
  ∧ securityEvents
      (snd (WebAuthnController.finishAuthentication demoExternal 5000
              strayAssertion carolWorld))
    = [].
Proof. vm_compute. split; reflexivity. Qed.

Lemma resolveAuthUser_pure (credential : CredentialJSON) (w : World) :
  snd (WebAuthnController.resolveAuthUser credential w) = w
  ∧ ∃ u, fst (WebAuthnController.resolveAuthUser credential w) = inr u.
Proof.
  unfold WebAuthnController.resolveAuthUser.
  destruct (truthy _); [|simpl; eauto].
  destruct (asLatin1 _); simpl; eauto.
Qed.

Lemma migrate_events (ext : External) (credentialId : string)
    (stored : Credential) (w : World) :
  securityEvents (snd (WebAuthnController.migrate ext credentialId stored w))
  = securityEvents w
  ∧ challenges (snd (WebAuthnController.migrate ext credentialId stored w))
    = challenges w
  ∧ ∃ record,
      fst (WebAuthnController.migrate ext credentialId stored w) = inr record.
Proof.
  unfold WebAuthnController.migrate.
  destruct (negb _ && _); simpl; eauto.
Qed.

Lemma createUser_error (id : string) (now : Z) (username : string)
    (displayName email : option string) (docs : list User) (e : exn) :
  UserModel.createUser id now username displayName email docs = inl e →
  e = JsError "MongoServerError" "E11000 duplicate key error".
Proof.
  unfold UserModel.createUser, Mongo.insertOne.
  destruct (existsb _ _); [|discriminate]. now intros [= <-].
Qed.

Lemma verifyOTP_429_logged (ext : External) (kind : ChallengeType) (now : Z)
    (req : Request OtpVerifyBody) (w : World) :
  fst (verifyOTP ext kind now req w)
  = inl (AppError "Maximum OTP attempts exceeded" 429) →
  ∃ event,
    securityEvents (snd (verifyOTP ext kind now req w))
    = securityEvents w ++ [event]
    ∧ se_severity event
      = match kind with registration => medium | authentication => high end.
Proof.
  destruct kind; simpl;
    [unfold OTPController.verifyRegistrationOTP
    |unfold OTPController.verifyAuthenticationOTP];
    (destruct (_ || _ || _); [simpl; discriminate|]);
    unfold OTPController.getOTP, OTPController.countAttempt,
      OTPController.storeOTP, OTPController.deleteOTP, OTPController.logEvent,
      WebAuthnController.logEvent, WebAuthnController.createUser,
      WebAuthnController.incrementSuccessfulAuthentications,
      WebAuthnController.fresh;
    unfold_handler;
    (destruct (otpStore w !! _) as [d|]; [|simpl; discriminate]);
    (destruct (otp_expiresAt d <? now); [simpl; discriminate|]);
    (destruct (otp_maxAttempts d <=? otp_attempts d);
       [simpl; intros _; eexists; split; reflexivity|]);
    simpl; (destruct (negb _ || negb _); [simpl; discriminate|]).
  - destruct (UserModel.findByUsernameOrEmail _ _); simpl; [discriminate|].
    destruct (UserModel.createUser _ _ _ _ _ _) as [e|[docs user]] eqn:Hcreate;
      simpl; [|discriminate].
    apply createUser_error in Hcreate. subst e. discriminate.
  - destruct (UserModel.findById _ _); simpl; discriminate.
Qed.

Lemma finishAuthentication_unlogged_eq (ext : External) (now : Z)
    (req : Request FinishBody) (w w' : World) (res : exn + VerifiedResponse) :
  WebAuthnController.finishAuthentication ext now req w = (res, w') →
  (res = inl (AppError "Credential not found" 404) → w' = w)
  ∧ (res = inl (AppError "Invalid or expired challenge" 400) →
     securityEvents w' = securityEvents w).
Proof.
  unfold WebAuthnController.finishAuthentication.
  unfold bind at 1.
  destruct (resolveAuthUser_pure (fb_credential (body req)) w) as [Hw [u Hu]].
  destruct (WebAuthnController.resolveAuthUser _ w) as [r w0].
  simpl in Hw, Hu. subst w0 r.
  unfold bind at 1. unfold gets at 1.
  destruct (WebAuthnController.lookupCredential _ _ _ w) as [stored|].
  2: { unfold throw, ret; intros [= <- <-]. split; [reflexivity|discriminate]. }
  unfold bind at 1.
  match goal with
  | |- context [WebAuthnController.migrate ext ?i stored w] =>
      destruct (migrate_events ext i stored w) as (Hev & _ & record & Hrec);
      destruct (WebAuthnController.migrate ext i stored w) as [r wm]
  end.
  simpl in Hev, Hrec. subst r.
  unfold bind at 1. unfold gets at 1.
  destruct (ChallengeModel.findValidChallenge _ _ _ _) as [challenge|].
  2: { unfold throw, ret; intros [= <- <-]. split; [discriminate|intros _; exact Hev]. }
  unfold bind at 1, tryCatch, lift.
  destruct (WebAuthnController.verifyAssertion _ _ _ _ _) as [e|v].
  - unfold WebAuthnController.logEvent, WebAuthnController.fresh.
    unfold_handler. simpl. unfold throw, ret; intros [= <- <-]. split; discriminate.
  - destruct (va_verified v); simpl.
    + unfold WebAuthnController.updateCounter,
        WebAuthnController.markChallengeAsUsed,
        WebAuthnController.incrementSuccessfulAuthentications,
        WebAuthnController.logEvent, WebAuthnController.fresh.
      unfold_handler. simpl. unfold throw, ret; intros [= <- <-]. split; discriminate.
    + unfold_handler. unfold throw, ret; intros [= <- <-]. split; discriminate.
Qed.

Lemma finishAuthentication_unlogged (ext : External) (now : Z)
    (req : Request FinishBody) (w : World) :
  (fst (WebAuthnController.finishAuthentication ext now req w)
   = inl (AppError "Credential not found" 404) →
   snd (WebAuthnController.finishAuthentication ext now req w) = w)
  ∧ (fst (WebAuthnController.finishAuthentication ext now req w)
     = inl (AppError "Invalid or expired challenge" 400) →
     securityEvents (snd (WebAuthnController.finishAuthentication ext now req w))
     = securityEvents w).
Proof.
  destruct (WebAuthnController.finishAuthentication ext now req w)
    as [res w'] eqn:Hrun.
  exact (finishAuthentication_unlogged_eq ext now req w w' res Hrun).
Qed.

Lemma finishRegistration_unlogged_eq (ext : External) (now : Z)
    (req : Request FinishBody) (w w' : World) (res : exn + VerifiedResponse) :
  WebAuthnController.finishRegistration ext now req w = (res, w') →
  res = inl (AppError "Invalid or expired challenge" 400) → w' = w.
Proof.
  unfold WebAuthnController.finishRegistration.
  unfold bind at 1. unfold gets at 1.
  destruct (UserModel.findByUsername _ _) as [user|];
    [|unfold throw, ret; intros [= <- <-]; discriminate].
  unfold bind at 1. unfold gets at 1.
  destruct (ChallengeModel.findValidChallenge _ _ _ _) as [challenge|];
    [|unfold throw, ret; intros [= <- <-]; reflexivity].
  unfold bind at 1, tryCatch, lift.
  destruct (verifyRegistrationResponse ext _) as [e|v].
  - unfold WebAuthnController.logEvent, WebAuthnController.fresh.
    unfold_handler. simpl. unfold throw, ret; intros [= <- <-]. discriminate.
  - destruct (vr_verified v), (vr_registrationInfo v) as [info|];
      try (unfold_handler; unfold throw, ret; intros [= <- <-]; discriminate).
    unfold WebAuthnController.createCredential,
      WebAuthnController.markChallengeAsUsed,
      WebAuthnController.incrementPasskeyRegistrations,
      WebAuthnController.logEvent, WebAuthnController.fresh.
    unfold_handler. simpl.
    destruct (CredentialModel.createCredential _ _ _) as [e|[docs doc]] eqn:Hc;
      simpl; [|unfold throw, ret; intros [= <- <-]; discriminate].
    unfold CredentialModel.createCredential, Mongo.insertOne in Hc.
    destruct (existsb _ _); [|discriminate].
    injection Hc as <-. unfold throw, ret; intros [= <- <-]. discriminate.
Qed.

Lemma finishRegistration_unlogged (ext : External) (now : Z)
    (req : Request FinishBody) (w : World) :
  fst (WebAuthnController.finishRegistration ext now req w)
  = inl (AppError "Invalid or expired challenge" 400) →
  snd (WebAuthnController.finishRegistration ext now req w) = w.
Proof.
  destruct (WebAuthnController.finishRegistration ext now req w)
    as [res w'] eqn:Hrun.
  exact (finishRegistration_unlogged_eq ext now req w w' res Hrun).
Qed.

(** C9, as the code has it.  Of the three state/protocol failures only
    "Maximum OTP attempts exceeded" is logged: whenever a verify handler
    answers it, one event (severity medium for the registration ticket,
    high for the authentication ticket) has been appended.  A "Credential
    not found" of [finishAuthentication] and an "Invalid or expired
    challenge" of [finishRegistration] leave the whole state as it was, and
    an "Invalid or expired challenge" of [finishAuthentication] leaves the
    event collection as it was. *)
Theorem only_max_attempts_is_logged :
  ∀ (ext : External) (now : Z),
    (∀ kind req w,
        fst (verifyOTP ext kind now req w)
        = inl (AppError "Maximum OTP attempts exceeded" 429) →
        ∃ event,
          securityEvents (snd (verifyOTP ext kind now req w))
          = securityEvents w ++ [event]
          ∧ se_severity event
            = match kind with
              | registration => medium
              | authentication => high
              end)
    ∧ (∀ req w,
          fst (WebAuthnController.finishAuthentication ext now req w)
          = inl (AppError "Credential not found" 404) →
          snd (WebAuthnController.finishAuthentication ext now req w) = w)
    ∧ (∀ req w,
          fst (WebAuthnController.finishAuthentication ext now req w)
          = inl (AppError "Invalid or expired challenge" 400) →
          securityEvents
            (snd (WebAuthnController.finishAuthentication ext now req w))
          = securityEvents w)
    ∧ (∀ req w,
          fst (WebAuthnController.finishRegistration ext now req w)
          = inl (AppError "Invalid or expired challenge" 400) →
          snd (WebAuthnController.finishRegistration ext now req w) = w).
Proof.
  intros ext now.
  split; [intros kind req w; apply verifyOTP_429_logged|].
  split; [intros req w; apply finishAuthentication_unlogged|].
  split; [intros req w; apply finishAuthentication_unlogged|].
  intros req w. apply finishRegistration_unlogged.
Qed.

(** The theorem at the stray assertion and at Dave's fourth call. *)
Lemma only_max_attempts_is_logged_witness :
  snd (WebAuthnController.finishAuthentication demoExternal 5000
         strayAssertion carolWorld) = carolWorld
  ∧ ∃ event,
      securityEvents
        (snd (verifyOTP demoExternal registration 5000 (daveVerify "123456")
                daveExhausted))
      = securityEvents daveExhausted ++ [event]
      ∧ se_severity event = medium.
Proof.
  destruct (only_max_attempts_is_logged demoExternal 5000)
    as (Hotp & Hcred & _).
  split.
  - apply Hcred. vm_compute. reflexivity.
  - apply (Hotp registration). vm_compute. reflexivity.
Defined.

(** ** Which challenge an authentication completion uses *)

(** C5, at a state with two pending ceremonies.  The subject is resolved
    from the user handle (Alice), yet the challenge looked up is the latest
    authentication challenge of anyone (Bob's): Alice's assertion over her
    own pending challenge is refused, and an assertion over Bob's challenge
    is accepted and consumes Bob's challenge, Alice's staying unused. *)
Theorem finishAuthentication_uses_latest_challenge_of_anyone :
  fst (WebAuthnController.resolveAuthUser
         (fb_credential (body (aliceAssertion "chal-alice"))) twoCeremonies)
  = inr (Some alice)
  ∧ ChallengeModel.findValidChallenge 3000 authentication (Some "u-alice"%string)
      (challenges twoCeremonies) = Some aliceChallenge
  ∧ fst (WebAuthnController.finishAuthentication demoExternal 3000
           (aliceAssertion "chal-alice") twoCeremonies)
    = inl (AppError "Authentication verification failed" 400)
  ∧ fst (WebAuthnController.finishAuthentication demoExternal 3000
           (aliceAssertion "chal-bob") twoCeremonies)
    = inr (mkVerifiedResponse true
             (mkUserSummary (Some "u-alice"%string) (Some "alice"%string)
                            None None))
  ∧ challenges
      (snd (WebAuthnController.finishAuthentication demoExternal 3000
              (aliceAssertion "chal-bob") twoCeremonies))
    = [aliceChallenge; set_used true bobChallenge].
Proof. vm_compute. repeat split; reflexivity. Qed.

(** ** The replay counter *)

(** [updateCounter] compares nothing: on a stored credential it reports
    success and stores the counter it is given; on an unknown id it reports
    failure and changes nothing.  What keeps a stored counter from going
    down is the verifier, which [finishAuthentication] hands the counter of
    the record it looked up. *)
Lemma updateCounter_present (now : Z) (id : string) (newCounter : Z)
    (docs : list Credential) (c : Credential) :
  CredentialModel.findById id docs = Some c →
  CredentialModel.findById id
    (fst (CredentialModel.updateCounter now id newCounter docs))
  = Some (CredentialModel.counterUpdate now newCounter c)
  ∧ snd (CredentialModel.updateCounter now id newCounter docs) = true.
Proof.
  unfold CredentialModel.findById, CredentialModel.updateCounter.
  intros Hf. simpl. split.
  - apply findOne_updateOne_same; [exact Hf|].
    apply findOne_Some_true in Hf. exact (proj2 Hf).
  - rewrite (updateOne_findOne _ _ _ _ Hf). simpl.
    rewrite decide_False; [reflexivity|].
    intros Heq. apply (f_equal cr_useCount) in Heq. simpl in Heq. lia.
Qed.

Lemma updateCounter_absent (now : Z) (id : string) (newCounter : Z)
    (docs : list Credential) :
  CredentialModel.findById id docs = None →
  CredentialModel.updateCounter now id newCounter docs = (docs, false).
Proof.
  unfold CredentialModel.findById, CredentialModel.updateCounter.
  intros Hf. rewrite (updateOne_no_match _ _ _ Hf). reflexivity.
Qed.

Lemma lookupCredential_direct (ext : External) (credentialId : string)
    (authUser : option User) (w : World) (stored : Credential) :
  CredentialModel.findById credentialId (credentials w) = Some stored →
  WebAuthnController.lookupCredential ext credentialId authUser w = Some stored.
Proof.
  intros Hf. unfold WebAuthnController.lookupCredential. rewrite Hf.
  reflexivity.
Qed.

Lemma migrate_canonical (ext : External) (credentialId : string)
    (stored : Credential) (w : World) :
  canonical (canonicalize (cr_id stored)) = cr_id stored →
  WebAuthnController.migrate ext credentialId stored w = (inr stored, w).
Proof.
  intros Hcanon. unfold WebAuthnController.migrate.
  rewrite Hcanon, String.eqb_refl. reflexivity.
Qed.

(** C2, at a state reached through the handlers, with a verifier that
    keeps the library's counter rule.  Alice's credential is stored under
    ["AAECAwQFBgc"] with counter 2.  Mallory's credential, whose id is the
    text of Alice's, is stored under ["QUFFQ0F3UUZCZ2M"] with counter 0.
    Mallory's assertion is looked up under her stored id and verified
    against her counter 0, which the verifier answers with the new counter
    1; the counter is then written under the canonical form of her id,
    which is Alice's id.  The call succeeds for Mallory, Alice's stored
    counter goes from 2 down to 1, and Mallory's stays 0. *)
Theorem finishAuthentication_rewinds_counter_of_canonical_twin :
  counterRule deviceExternal
  ∧ map counterOf (credentials twinWorld)
    = [("AAECAwQFBgc", "id-0", 2); ("QUFFQ0F3UUZCZ2M", "id-4", 0)]%string
  ∧ counterOf
      <$> WebAuthnController.lookupCredential deviceExternal
            "QUFFQ0F3UUZCZ2M" None twinWorld
    = Some ("QUFFQ0F3UUZCZ2M", "id-4", 0)%string
  ∧ canonical (canonicalize "QUFFQ0F3UUZCZ2M") = "AAECAwQFBgc"%string
  ∧ fst (WebAuthnController.finishAuthentication deviceExternal 10000
           (assertionOf "QUFFQ0F3UUZCZ2M") twinWorld)
    = inr (mkVerifiedResponse true
             (mkUserSummary (Some "id-4"%string) (Some "mallory"%string)
                            None None))
  ∧ map counterOf
      (credentials
         (snd (WebAuthnController.finishAuthentication deviceExternal 10000
                 (assertionOf "QUFFQ0F3UUZCZ2M") twinWorld)))
    = [("AAECAwQFBgc", "id-0", 1); ("QUFFQ0F3UUZCZ2M", "id-4", 0)]%string.
Proof.
  split.
  - intros args v. simpl.
    destruct (String.eqb _ _); [|discriminate].
    intros [= <-]. left. simpl. lia.
  - vm_compute. repeat split; reflexivity.
Qed.

(** ** Canonicalization of credential ids *)

(** *** Checking a byte-level identity on every value *)

Lemma below_complete (n : nat) (v : N) : (v < N.of_nat n)%N → In v (below n).
Proof.
  intros Hv. unfold below. apply in_map_iff. exists (N.to_nat v).
  split; [apply N2Nat.id|]. apply in_seq. lia.
Qed.

Lemma checked1 (f : N → bool) (n : nat) :
  forallb f (below n) = true → ∀ v, (v < N.of_nat n)%N → f v = true.
Proof.
  intros Hall v Hv. rewrite forallb_forall in Hall.
  apply Hall. now apply below_complete.
Qed.

Lemma checked2 (f : N → N → bool) (n m : nat) :
  forallb (λ a, forallb (f a) (below m)) (below n) = true →
  ∀ a b, (a < N.of_nat n)%N → (b < N.of_nat m)%N → f a b = true.
Proof.
  intros Hall a b Ha Hb.
  pose proof (checked1 _ n Hall a Ha) as Hrow. simpl in Hrow.
  exact (checked1 _ m Hrow b Hb).
Qed.

(** *** Node's decoder undoes the library's encoder *)

Section Base64.
#[local] Open Scope N_scope.

Lemma unbase64_base64urlChar (v : N) :
  v < 64 → Node.unbase64 (N_of_ascii (Node.base64urlChar v)) = Some v.
Proof.
  intros Hv.
  apply (checked1
           (λ v, bool_decide
                   (Node.unbase64 (N_of_ascii (Node.base64urlChar v)) = Some v))
           64) in Hv.
  - now apply bool_decide_eq_true in Hv.
  - vm_compute. reflexivity.
Qed.

Lemma unbase64_bound (c v : N) : Node.unbase64 c = Some v → v < 64.
Proof.
  unfold Node.unbase64.
  repeat match goal with
         | |- context [if ?b then _ else _] => destruct b eqn:?
         end; intros [= <-]; try lia.
  - apply andb_true_iff in Heqb. destruct Heqb as [H1 H2].
    apply N.leb_le in H1, H2. lia.
  - apply andb_true_iff in Heqb0. destruct Heqb0 as [H1 H2].
    apply N.leb_le in H1, H2. lia.
  - apply andb_true_iff in Heqb1. destruct Heqb1 as [H1 H2].
    apply N.leb_le in H1, H2. lia.
Qed.

Lemma enc_bounds (b0 b1 : N) :
  b0 < 256 → b1 < 256 →
  Node.enc0 b0 < 64 ∧ Node.enc1 b0 b1 < 64 ∧ Node.enc2 b0 b1 < 64
  ∧ Node.enc3 b0 < 64.
Proof.
  intros H0 H1.
  pose proof (checked2
    (λ b0 b1, (Node.enc0 b0 <? 64) && (Node.enc1 b0 b1 <? 64)
              && (Node.enc2 b0 b1 <? 64) && (Node.enc3 b0 <? 64))
    256 256) as Hc.
  specialize (Hc ltac:(vm_compute; reflexivity) b0 b1 H0 H1).
  simpl in Hc. rewrite !andb_true_iff, !N.ltb_lt in Hc. tauto.
Qed.

Lemma byte0_enc (b0 b1 : N) :
  b0 < 256 → b1 < 256 → Node.byte0 (Node.enc0 b0) (Node.enc1 b0 b1) = b0.
Proof.
  intros H0 H1. apply N.eqb_eq.
  exact (checked2
           (λ b0 b1, Node.byte0 (Node.enc0 b0) (Node.enc1 b0 b1) =? b0)
           256 256 ltac:(vm_compute; reflexivity) b0 b1 H0 H1).
Qed.

Lemma byte1_high (b0 b1 : N) :
  b0 < 256 → b1 < 256 →
  N.shiftl (N.land (Node.enc1 b0 b1) 15) 4 = N.shiftl (N.shiftr b1 4) 4.
Proof.
  intros H0 H1. apply N.eqb_eq.
  exact (checked2
           (λ b0 b1, N.shiftl (N.land (Node.enc1 b0 b1) 15) 4
                     =? N.shiftl (N.shiftr b1 4) 4)
           256 256 ltac:(vm_compute; reflexivity) b0 b1 H0 H1).
Qed.

Lemma byte1_low (b1 b2 : N) :
  b1 < 256 → b2 < 256 →
  N.shiftr (N.land (Node.enc2 b1 b2) 60) 2 = N.land b1 15.
Proof.
  intros H1 H2. apply N.eqb_eq.
  exact (checked2
           (λ b1 b2, N.shiftr (N.land (Node.enc2 b1 b2) 60) 2 =? N.land b1 15)
           256 256 ltac:(vm_compute; reflexivity) b1 b2 H1 H2).
Qed.

Lemma byte1_join (b1 : N) :
  b1 < 256 → N.lor (N.shiftl (N.shiftr b1 4) 4) (N.land b1 15) = b1.
Proof.
  intros H1. apply N.eqb_eq.
  exact (checked1
           (λ b1, N.lor (N.shiftl (N.shiftr b1 4) 4) (N.land b1 15) =? b1)
           256 ltac:(vm_compute; reflexivity) b1 H1).
Qed.

Lemma byte1_enc (b0 b1 b2 : N) :
  b0 < 256 → b1 < 256 → b2 < 256 →
  Node.byte1 (Node.enc1 b0 b1) (Node.enc2 b1 b2) = b1.
Proof.
  intros H0 H1 H2. unfold Node.byte1.
  rewrite byte1_high, byte1_low by assumption. now apply byte1_join.
Qed.

Lemma byte2_enc (b1 b2 : N) :
  b1 < 256 → b2 < 256 → Node.byte2 (Node.enc2 b1 b2) (Node.enc3 b2) = b2.
Proof.
  intros H1 H2. apply N.eqb_eq.
  exact (checked2
           (λ b1 b2, Node.byte2 (Node.enc2 b1 b2) (Node.enc3 b2) =? b2)
           256 256 ltac:(vm_compute; reflexivity) b1 b2 H1 H2).
Qed.

Lemma byte_bounds (a b : N) :
  a < 64 → b < 64 →
  Node.byte0 a b < 256 ∧ Node.byte1 a b < 256 ∧ Node.byte2 a b < 256.
Proof.
  intros Ha Hb.
  pose proof (checked2
    (λ a b, (Node.byte0 a b <? 256) && (Node.byte1 a b <? 256)
            && (Node.byte2 a b <? 256))
    64 64) as Hc.
  specialize (Hc ltac:(vm_compute; reflexivity) a b Ha Hb).
  simpl in Hc. rewrite !andb_true_iff, !N.ltb_lt in Hc. tauto.
Qed.

End Base64.

Lemma list_ind3 {A : Type} (P : list A → Prop) :
  P [] → (∀ a, P [a]) → (∀ a b, P [a; b]) →
  (∀ a b c l, P l → P (a :: b :: c :: l)) →
  ∀ l, P l.
Proof.
  intros H0 H1 H2 H3. fix IH 1. intros [|a [|b [|c l]]].
  - exact H0.
  - apply H1.
  - apply H2.
  - apply H3. apply IH.
Qed.

Lemma list_ind4 {A : Type} (P : list A → Prop) :
  P [] → (∀ a, P [a]) → (∀ a b, P [a; b]) → (∀ a b c, P [a; b; c]) →
  (∀ a b c d l, P l → P (a :: b :: c :: d :: l)) →
  ∀ l, P l.
Proof.
  intros H0 H1 H2 H3 H4. fix IH 1. intros [|a [|b [|c [|d l]]]].
  - exact H0.
  - apply H1.
  - apply H2.
  - apply H3.
  - apply H4. apply IH.
Qed.

Lemma unpack_sextets (bytes : Buffer) :
  List.Forall isByte bytes → List.Forall isSextet (Node.unpack bytes).
Proof.
  induction bytes as [|b0|b0 b1|b0 b1 b2 rest IH] using list_ind3;
    intros Hall; simpl.
  - constructor.
  - inversion Hall as [|? ? H0 _]; subst.
    destruct (enc_bounds b0 0 H0 ltac:(reflexivity)) as (E0 & E1 & _).
    repeat constructor; assumption.
  - inversion Hall as [|? ? H0 Hall1]; subst.
    inversion Hall1 as [|? ? H1 _]; subst.
    destruct (enc_bounds b0 b1 H0 H1) as (E0 & E1 & _).
    destruct (enc_bounds b1 0 H1 ltac:(reflexivity)) as (_ & _ & E2 & _).
    repeat constructor; assumption.
  - inversion Hall as [|? ? H0 Hall1]; subst.
    inversion Hall1 as [|? ? H1 Hall2]; subst.
    inversion Hall2 as [|? ? H2 Hall3]; subst.
    destruct (enc_bounds b0 b1 H0 H1) as (E0 & E1 & _).
    destruct (enc_bounds b1 b2 H1 H2) as (_ & _ & E2 & _).
    destruct (enc_bounds b2 0 H2 ltac:(reflexivity)) as (_ & _ & _ & E3).
    repeat (constructor; [assumption|]). now apply IH.
Qed.

Lemma pack_unpack (bytes : Buffer) :
  List.Forall isByte bytes → Node.pack (Node.unpack bytes) = bytes.
Proof.
  induction bytes as [|b0|b0 b1|b0 b1 b2 rest IH] using list_ind3;
    intros Hall; simpl.
  - reflexivity.
  - inversion Hall as [|? ? H0 _]; subst.
    now rewrite byte0_enc.
  - inversion Hall as [|? ? H0 Hall1]; subst.
    inversion Hall1 as [|? ? H1 _]; subst.
    now rewrite byte0_enc, byte1_enc.
  - inversion Hall as [|? ? H0 Hall1]; subst.
    inversion Hall1 as [|? ? H1 Hall2]; subst.
    inversion Hall2 as [|? ? H2 Hall3]; subst.
    rewrite byte0_enc, byte1_enc, byte2_enc by assumption.
    now rewrite IH.
Qed.

Lemma pack_bytes (vs : list N) :
  List.Forall isSextet vs → List.Forall isByte (Node.pack vs).
Proof.
  induction vs as [|a|a b|a b c|a b c d rest IH] using list_ind4;
    intros Hall; simpl.
  - constructor.
  - constructor.
  - inversion Hall as [|? ? Ha Hall1]; subst.
    inversion Hall1 as [|? ? Hb _]; subst.
    destruct (byte_bounds a b Ha Hb) as (B0 & _). repeat constructor; assumption.
  - inversion Hall as [|? ? Ha Hall1]; subst.
    inversion Hall1 as [|? ? Hb Hall2]; subst.
    inversion Hall2 as [|? ? Hc _]; subst.
    destruct (byte_bounds a b Ha Hb) as (B0 & _).
    destruct (byte_bounds b c Hb Hc) as (_ & B1 & _).
    repeat constructor; assumption.
  - inversion Hall as [|? ? Ha Hall1]; subst.
    inversion Hall1 as [|? ? Hb Hall2]; subst.
    inversion Hall2 as [|? ? Hc Hall3]; subst.
    inversion Hall3 as [|? ? Hd Hall4]; subst.
    destruct (byte_bounds a b Ha Hb) as (B0 & _).
    destruct (byte_bounds b c Hb Hc) as (_ & B1 & _).
    destruct (byte_bounds c d Hc Hd) as (_ & _ & B2).
    repeat (constructor; [assumption|]). now apply IH.
Qed.

Lemma pack_shorter (vs : list N) :
  (length (Node.pack vs) <= length vs)%nat
  ∧ (Node.pack vs ≠ [] → (length (Node.pack vs) < length vs)%nat).
Proof.
  induction vs as [|a|a b|a b c|a b c d rest IH] using list_ind4; simpl;
    (split; [lia|]); intros H; try lia; now destruct H.
Qed.

Lemma sextets_sextets (cs : list N) : List.Forall isSextet (Node.sextets cs).
Proof.
  induction cs as [|c cs IH]; simpl; [constructor|].
  destruct (Node.unbase64 c) as [v|] eqn:Hv.
  - constructor; [|exact IH]. exact (unbase64_bound c v Hv).
  - destruct (c =? 61)%N; [constructor|exact IH].
Qed.

Lemma sextets_shorter (cs : list N) :
  (length (Node.sextets cs) <= length cs)%nat.
Proof.
  induction cs as [|c cs IH]; simpl; [lia|].
  destruct (Node.unbase64 c); simpl; [lia|].
  destruct (c =? 61)%N; simpl; lia.
Qed.

Lemma sextets_of_chars (vs : list N) :
  List.Forall isSextet vs →
  Node.sextets (map (λ v, N_of_ascii (Node.base64urlChar v)) vs) = vs.
Proof.
  induction 1 as [|v vs Hv _ IH]; simpl; [reflexivity|].
  rewrite (unbase64_base64urlChar v Hv). now rewrite IH.
Qed.

Lemma codeUnits_of_list (l : list ascii) :
  codeUnits (String.string_of_list_ascii l) = map N_of_ascii l.
Proof.
  unfold codeUnits. now rewrite String.list_ascii_of_string_of_list_ascii.
Qed.

Lemma length_codeUnits (s : string) : length (codeUnits s) = String.length s.
Proof.
  unfold codeUnits. rewrite length_map.
  induction s as [|c s IH]; simpl; [reflexivity|]. now rewrite IH.
Qed.

Lemma base64Decode_bytes (s : string) : List.Forall isByte (Node.base64Decode s).
Proof. apply pack_bytes, sextets_sextets. Qed.

(** Decoding what the encoder wrote gives the bytes back. *)
Lemma base64Decode_base64urlEncode (bytes : Buffer) :
  List.Forall isByte bytes →
  Node.base64Decode (Node.base64urlEncode bytes) = bytes.
Proof.
  intros Hall. unfold Node.base64Decode, Node.base64urlEncode.
  rewrite codeUnits_of_list, map_map.
  rewrite (sextets_of_chars _ (unpack_sextets bytes Hall)).
  now apply pack_unpack.
Qed.

(** A non-empty decoding is shorter than the text it comes from. *)
Lemma base64Decode_shorter (s : string) :
  Node.base64Decode s ≠ [] →
  (length (Node.base64Decode s) < String.length s)%nat.
Proof.
  intros Hne. unfold Node.base64Decode in *.
  pose proof (proj2 (pack_shorter (Node.sextets (codeUnits s))) Hne) as H1.
  pose proof (sextets_shorter (codeUnits s)) as H2.
  rewrite length_codeUnits in H2. lia.
Qed.

(** *** Text that passes the alphabet test was decoded byte for byte *)

Section Utf8.
#[local] Open Scope N_scope.

Lemma isBase64urlCode_ascii (c : N) : isBase64urlCode c = true → c < 128.
Proof.
  unfold isBase64urlCode.
  rewrite !orb_true_iff, !andb_true_iff, !N.leb_le, !N.eqb_eq. lia.
Qed.

Lemma isBase64urlCode_high (c : N) : 128 <= c → isBase64urlCode c = false.
Proof.
  intros Hc. destruct (isBase64urlCode c) eqn:H; [|reflexivity].
  apply isBase64urlCode_ascii in H. lia.
Qed.

Lemma emit_high (cp : N) (rest : list N) :
  128 <= cp → forallb isBase64urlCode (Node.emit cp ++ rest) = false.
Proof.
  intros Hcp. unfold Node.emit. destruct (cp <? 65536); simpl.
  - now rewrite isBase64urlCode_high.
  - rewrite isBase64urlCode_high; [reflexivity|lia].
Qed.

Lemma utf8Lead_ok (b : N) : leadOk b = true.
Proof.
  destruct (N.lt_ge_cases b 256) as [Hb|Hb].
  - exact (checked1 leadOk 256 ltac:(vm_compute; reflexivity) b Hb).
  - unfold leadOk, Node.utf8Lead.
    assert ((b <=? 127) = false) as -> by (apply N.leb_gt; lia).
    assert ((b <=? 223) = false) as -> by (apply N.leb_gt; lia).
    assert ((b <=? 239) = false) as -> by (apply N.leb_gt; lia).
    assert ((b <=? 244) = false) as -> by (apply N.leb_gt; lia).
    rewrite !andb_false_r. reflexivity.
Qed.

Lemma low_bits (b : N) :
  b <= 191 →
  N.land b 63 < 64
  ∧ (144 <= b → 16 <= N.land b 63)
  ∧ (160 <= b → 32 <= N.land b 63).
Proof.
  intros Hb.
  pose proof (checked1
    (λ b, (N.land b 63 <? 64)
          && (negb (144 <=? b) || (16 <=? N.land b 63))
          && (negb (160 <=? b) || (32 <=? N.land b 63)))
    192 ltac:(vm_compute; reflexivity) b ltac:(simpl; lia)) as Hc.
  simpl in Hc.
  rewrite !andb_true_iff, !orb_true_iff, !negb_true_iff, N.ltb_lt,
    !N.leb_le, !N.leb_gt in Hc.
  destruct Hc as [[H1 H2] H3]. repeat split; [exact H1|lia|lia].
Qed.

Lemma append_bits (cp x : N) : x < 64 → cp * 64 <= N.lor (N.shiftl cp 6) x.
Proof.
  intros Hx.
  assert (N.shiftr (N.lor (N.shiftl cp 6) x) 6 = cp) as Hhigh.
  { rewrite N.shiftr_lor, N.shiftr_shiftl_r by lia.
    rewrite N.sub_diag, N.shiftr_0_r.
    rewrite (N.shiftr_div_pow2 x 6), N.div_small by (simpl; lia).
    apply N.lor_0_r. }
  rewrite N.shiftr_div_pow2 in Hhigh.
  change (2 ^ 6) with 64 in Hhigh.
  pose proof (N.Div0.mul_div_le (N.lor (N.shiftl cp 6) x) 64) as Hle.
  rewrite Hhigh in Hle. lia.
Qed.

Lemma append_bits_zero (x : N) : N.lor (N.shiftl 0 6) x = x.
Proof. now rewrite N.shiftl_0_l, N.lor_0_l. Qed.

(** Once inside a multi-byte sequence the decoder is bound to write a
    unit outside the alphabet. *)
Lemma utf8Run_need (bytes : Buffer) :
  ∀ (needed : nat) (cp lower upper : N),
    needOk needed cp lower upper = true →
    forallb isBase64urlCode
            (Node.utf8Run (Node.Need needed cp lower upper) bytes) = false.
Proof.
  induction bytes as [|b rest IH]; intros needed cp lower upper Hok.
  - reflexivity.
  - simpl Node.utf8Run. unfold Node.utf8Step.
    unfold needOk in Hok.
    rewrite !andb_true_iff, !N.leb_le in Hok. destruct Hok as [[Hlo Hhi] Hcp].
    destruct ((lower <=? b) && (b <=? upper)) eqn:Hin.
    + apply andb_true_iff in Hin. rewrite !N.leb_le in Hin.
      destruct Hin as [Hb1 Hb2].
      destruct (low_bits b ltac:(lia)) as (Hx & H16 & H32).
      pose proof (append_bits cp (N.land b 63) Hx) as Happ.
      destruct needed as [|[|[|n]]]; simpl fst; simpl snd.
      * apply emit_high. apply N.leb_le in Hcp. lia.
      * apply emit_high. apply N.leb_le in Hcp. lia.
      * simpl app. apply IH. unfold needOk. simpl.
        apply N.leb_le.
        rewrite orb_true_iff, andb_true_iff, N.leb_le, N.eqb_eq, N.leb_le in Hcp.
        destruct Hcp as [Hcp|[Hz Hl]]; [lia|].
        subst cp. rewrite append_bits_zero. specialize (H32 ltac:(lia)). lia.
      * simpl app. apply IH. unfold needOk.
        rewrite orb_true_iff, andb_true_iff, N.leb_le, N.eqb_eq, N.leb_le in Hcp.
        assert (1 <= N.lor (N.shiftl cp 6) (N.land b 63)) as Hone.
        { destruct Hcp as [Hcp|[Hz Hl]]; [lia|].
          subst cp. rewrite append_bits_zero. specialize (H16 ltac:(lia)). lia. }
        apply N.leb_le in Hone. simpl.
        destruct n; simpl; rewrite Hone; reflexivity.
    + simpl. reflexivity.
Qed.

Lemma utf8Run_text (bytes : Buffer) :
  forallb isBase64urlCode (Node.utf8Run Node.Start bytes) = true →
  Node.utf8Run Node.Start bytes = bytes.
Proof.
  induction bytes as [|b rest IH]; [reflexivity|].
  simpl Node.utf8Run. simpl Node.utf8Step.
  pose proof (utf8Lead_ok b) as Hlead. unfold leadOk in Hlead.
  destruct (Node.utf8Lead b) as [[|n cp lo hi] out]; simpl fst; simpl snd.
  - apply orb_true_iff in Hlead. destruct Hlead as [Hlead|Hlead].
    + apply andb_true_iff in Hlead. destruct Hlead as [Hout _].
      apply bool_decide_eq_true in Hout. subst out. simpl.
      intros Hall. apply andb_true_iff in Hall. destruct Hall as [_ Hall].
      now rewrite IH.
    + apply bool_decide_eq_true in Hlead. subst out. simpl. discriminate.
  - apply andb_true_iff in Hlead. destruct Hlead as [Hok Hout].
    apply bool_decide_eq_true in Hout. subst out. simpl.
    rewrite (utf8Run_need rest n cp lo hi Hok). discriminate.
Qed.

(** If the decoded text matches [[A-Za-z0-9_-]+], it is the buffer
    itself, byte for byte, and the buffer is not empty. *)
Lemma matchesBase64url_utf8Decode (bytes : Buffer) :
  matchesBase64url (Node.utf8Decode bytes) = true →
  Node.utf8Decode bytes = bytes ∧ bytes ≠ [].
Proof.
  unfold matchesBase64url, Node.utf8Decode. intros Hm.
  destruct (Node.utf8Run Node.Start bytes) as [|u us] eqn:Hrun;
    [discriminate|].
  rewrite <- Hrun in Hm. apply utf8Run_text in Hm.
  rewrite Hm in Hrun. split; [congruence|]. intros ->. discriminate.
Qed.

End Utf8.

(** *** One turn of the loop on the server's runtime *)

Lemma iteration_node (i : nat) (current : string) (steps : list string) :
  iteration Node.codec i current steps
  = inr (if unwraps current
         then (Continue,
               fromCodeUnits (Node.utf8Decode (Node.base64Decode current)),
               steps ++ [("unwrap-layer-" +:+ pretty (i + 1)%nat)%string])
         else (Break, reencoded current,
               if String.eqb (reencoded current) current then steps
               else steps ++ ["re-encode-raw"%string])).
Proof.
  unfold iteration, unwraps, reencoded. simpl.
  destruct (matchesBase64url _ && _); reflexivity.
Qed.

(** The alphabet test alone already implies the length test. *)
Lemma unwraps_matches (current : string) :
  unwraps current
  = matchesBase64url (Node.utf8Decode (Node.base64Decode current)).
Proof.
  unfold unwraps.
  destruct (matchesBase64url _) eqn:Hm; [|reflexivity]. simpl.
  apply matchesBase64url_utf8Decode in Hm. destruct Hm as [Htext Hne].
  rewrite Htext. apply Nat.ltb_lt. now apply base64Decode_shorter.
Qed.

(** A string that the re-encoding step wrote is a fixed point. *)
Lemma canonicalize_reencoded (current : string) :
  unwraps current = false →
  canonicalize (reencoded current) = mkCanonical (reencoded current) [].
Proof.
  intros Hno.
  assert (Node.base64Decode (reencoded current) = Node.base64Decode current)
    as Hback.
  { unfold reencoded. apply base64Decode_base64urlEncode, base64Decode_bytes. }
  assert (unwraps (reencoded current) = false) as Hno'.
  { rewrite unwraps_matches in *. now rewrite Hback. }
  assert (reencoded (reencoded current) = reencoded current) as Hfix.
  { unfold reencoded at 1. now rewrite Hback. }
  unfold canonicalize, canonicalizeCredentialId. simpl loop.
  rewrite iteration_node, Hno', Hfix, String.eqb_refl. reflexivity.
Qed.

(** The identifier ["WVdJ"] canonicalizes to ["ab"] by two unwraps, and
    ["ab"] canonicalizes to the empty string. *)
Lemma canonicalize_twice_differs :
  canonical (canonicalize "WVdJ") = "ab"%string
  ∧ canonical (canonicalize (canonical (canonicalize "WVdJ"))) = ""%string
  ∧ canonical (canonicalize (canonical (canonicalize "WVdJ")))
    ≠ canonical (canonicalize "WVdJ").
Proof. vm_compute. repeat split; discriminate. Qed.

(** C3, as the code has it.  Whenever canonicalization ends with the
    re-encoding step, that is, whenever it did not use both turns of its
    loop to unwrap (no ["unwrap-layer-2"] among the transformations), its
    result is a fixed point: canonicalizing it again returns it unchanged
    and records no transformation. *)
Theorem canonicalize_idempotent_unless_two_unwraps :
  ∀ (x : string),
    ¬ In "unwrap-layer-2"%string (transformations (canonicalize x)) →
    canonicalize (canonical (canonicalize x))
    = mkCanonical (canonical (canonicalize x)) [].
Proof.
  intros x. unfold canonicalize at 1 3 4, canonicalizeCredentialId.
  simpl loop. rewrite iteration_node.
  destruct (unwraps x) eqn:Hx.
  - rewrite iteration_node.
    destruct (unwraps (fromCodeUnits _)) eqn:Hy.
    + simpl. intros Hnot. exfalso. apply Hnot. right. left. reflexivity.
    + intros _. simpl canonical. now apply canonicalize_reencoded.
  - intros _. simpl canonical. now apply canonicalize_reencoded.
Qed.

Lemma canonicalize_idempotent_unless_two_unwraps_witness :
  canonicalize "QUFFQ0F3UUZCZ2M" = mkCanonical "AAECAwQFBgc" ["unwrap-layer-1"%string]
  ∧ canonicalize (canonical (canonicalize "QUFFQ0F3UUZCZ2M"))
    = mkCanonical (canonical (canonicalize "QUFFQ0F3UUZCZ2M")) [].
Proof.
  split; [vm_compute; reflexivity|].
  apply (canonicalize_idempotent_unless_two_unwraps "QUFFQ0F3UUZCZ2M").
  vm_compute. intros [H|[]]. discriminate H.
Defined.

(** *** Totality and the caught error *)

Lemma iteration_steps (codec : Codec) (i : nat) (current : string)
    (steps : list string) :
  match iteration codec i current steps with
  | inl _ => True
  | inr (Continue, _, steps') =>
      steps' = steps ++ [("unwrap-layer-" +:+ pretty (i + 1)%nat)%string]
  | inr (Break, _, steps') =>
      steps' = steps ∨ steps' = steps ++ ["re-encode-raw"%string]
  end.
Proof.
  unfold iteration.
  destruct (bufferFromBase64url codec current) as [e|buf]; [exact I|].
  destruct (bufferToUtf8 codec buf) as [e|text]; [exact I|].
  destruct (matchesBase64url text && _); [reflexivity|].
  destruct (isoFromBuffer codec buf) as [e|canon]; [exact I|].
  destruct (String.eqb canon current); [now left|now right].
Qed.

Lemma iteration_continue (codec : Codec) (i : nat) (current : string)
    (steps : list string) (current' : string) (steps' : list string) :
  iteration codec i current steps = inr (Continue, current', steps') →
  unwrapsTo codec current current'.
Proof.
  unfold iteration, unwrapsTo.
  destruct (bufferFromBase64url codec current) as [e|buf] eqn:Hbuf;
    [discriminate|].
  destruct (bufferToUtf8 codec buf) as [e|text] eqn:Htext; [discriminate|].
  destruct (matchesBase64url text && _) eqn:Htest.
  - intros [= <- _]. exists buf, text. now rewrite Htext.
  - destruct (isoFromBuffer codec buf) as [e|canon]; discriminate.
Qed.

(** A throw in the second turn comes after the first turn has replaced
    [current]: with an encoder that throws, the doubly encoded id comes
    back as the text unwrapped from it, not as the input, under the steps
    ["unwrap-layer-1"] and the error step. *)
Lemma canonicalizeCredentialId_error_after_unwrap :
  canonicalizeCredentialId helperlessCodec "QUFFQ0F3UUZCZ2M"
  = mkCanonical "AAECAwQFBgc"
      ["unwrap-layer-1";
       "canonicalization-error:TypeError: Cannot read properties of undefined (reading 'fromBuffer')"]%string
  ∧ canonical (canonicalizeCredentialId helperlessCodec "QUFFQ0F3UUZCZ2M")
    ≠ "QUFFQ0F3UUZCZ2M"%string.
Proof. split; [vm_compute; reflexivity|]. vm_compute. discriminate. Qed.

(** C10, with the string returned in the error case as the code has it.
    For every behaviour of the three library calls and every input,
    [canonicalizeCredentialId] returns a value.  If the decoder, the text
    conversion or the encoder throws while the input is being handled, the
    result is the original input with the single step
    ["canonicalization-error:..."]; in general a throw ends the run with
    the string that was current (the input, or after ["unwrap-layer-1"]
    the text that the first turn unwrapped from it) and the steps so far
    followed by the error step.  When nothing throws the steps are unwraps
    and a re-encoding only, and on the server's runtime nothing ever
    throws. *)
Theorem canonicalizeCredentialId_catches_errors :
  ∀ (codec : Codec) (id : string),
    (∀ e, bufferFromBase64url codec id = inl e →
          canonicalizeCredentialId codec id = mkCanonical id [errorStep e])
    ∧ (∀ buf e,
          bufferFromBase64url codec id = inr buf →
          bufferToUtf8 codec buf = inl e →
          canonicalizeCredentialId codec id = mkCanonical id [errorStep e])
    ∧ (∀ buf text e,
          bufferFromBase64url codec id = inr buf →
          bufferToUtf8 codec buf = inr text →
          matchesBase64url text && (length text <? String.length id)%nat
          = false →
          isoFromBuffer codec buf = inl e →
          canonicalizeCredentialId codec id = mkCanonical id [errorStep e])
    ∧ match loop codec 2 0 id [] with
      | (Some e, current, steps) =>
          canonicalizeCredentialId codec id
          = mkCanonical current (steps ++ [errorStep e])
          ∧ (steps = [] ∧ current = id
             ∨ steps = ["unwrap-layer-1"%string] ∧ unwrapsTo codec id current)
      | (None, current, steps) =>
          canonicalizeCredentialId codec id = mkCanonical current steps
          ∧ plainSteps steps
      end
    ∧ plainSteps (transformations (canonicalize id)).
Proof.
  intros codec id.
  assert (match loop codec 2 0 id [] with
          | (Some e, current, steps) =>
              canonicalizeCredentialId codec id
              = mkCanonical current (steps ++ [errorStep e])
              ∧ (steps = [] ∧ current = id
                 ∨ steps = ["unwrap-layer-1"%string]
                   ∧ unwrapsTo codec id current)
          | (None, current, steps) =>
              canonicalizeCredentialId codec id = mkCanonical current steps
              ∧ plainSteps steps
          end) as Hsummary.
  { unfold canonicalizeCredentialId, plainSteps. cbn [loop].
    pose proof (iteration_steps codec 0 id []) as H0.
    pose proof (iteration_continue codec 0 id []) as Hunwrap.
    destruct (iteration codec 0 id []) as [e|[[[|] a1] s1]].
    - split; [reflexivity|]. left. now split.
    - specialize (Hunwrap a1 s1 eq_refl).
      cbn [loop] in H0 |- *. subst s1.
      change ((["unwrap-layer-" +:+ pretty (0 + 1)%nat])%string)
        with ["unwrap-layer-1"%string].
      change ([] ++ ["unwrap-layer-1"%string]) with ["unwrap-layer-1"%string].
      pose proof (iteration_steps codec 1 a1 ["unwrap-layer-1"%string]) as H1.
      destruct (iteration codec 1 a1 ["unwrap-layer-1"%string])
        as [e|[[[|] a2] s2]].
      + split; [reflexivity|]. right. now split.
      + subst s2. split; [reflexivity|]. do 4 right. reflexivity.
      + split; [reflexivity|]. destruct H1 as [->| ->]; tauto.
    - split; [reflexivity|]. destruct H0 as [->| ->]; tauto. }
  split; [|split; [|split; [|split; [exact Hsummary|]]]].
  - intros e He. unfold canonicalizeCredentialId. simpl loop.
    unfold iteration. rewrite He. reflexivity.
  - intros buf e Hbuf He. unfold canonicalizeCredentialId. simpl loop.
    unfold iteration. rewrite Hbuf, He. reflexivity.
  - intros buf text e Hbuf Htext Htest He.
    unfold canonicalizeCredentialId. simpl loop.
    unfold iteration. rewrite Hbuf, Htext, Htest, He. reflexivity.
  - clear Hsummary. unfold canonicalize, canonicalizeCredentialId, plainSteps.
    simpl loop. rewrite iteration_node.
    destruct (unwraps id).
    + rewrite iteration_node.
      destruct (unwraps _); simpl; [tauto|].
      destruct (String.eqb _ _); simpl; tauto.
    + destruct (String.eqb _ _); simpl; tauto.
Qed.

(** The theorem on a runtime without the encoding: the input comes back
    with the error step alone. *)
Lemma canonicalizeCredentialId_catches_errors_witness :
  canonicalizeCredentialId legacyCodec "AAECAwQFBgc"
  = mkCanonical "AAECAwQFBgc"
      ["canonicalization-error:TypeError [ERR_UNKNOWN_ENCODING]: Unknown encoding: base64url"%string].
Proof.
  exact (proj1 (canonicalizeCredentialId_catches_errors legacyCodec
                  "AAECAwQFBgc")
           (JsError "TypeError [ERR_UNKNOWN_ENCODING]"
                    "Unknown encoding: base64url") eq_refl).
Defined.

(* ===================================================================== *)
(** * Further properties of the models                                    *)
(* ===================================================================== *)

Section MoreMongoFacts.
Context {A : Type} `{EqDecision A}.

Lemma filter_implied (p q : A → bool) (docs : list A) :
  (∀ d, In d docs → q d = true → p d = true) →
  List.filter q (List.filter p docs) = List.filter q docs.
Proof.
  induction docs as [|d rest IH]; simpl; intros Himp; [reflexivity|].
  assert (Hrest : List.filter q (List.filter p rest) = List.filter q rest).
  { apply IH. intros d' Hin. apply Himp. now right. }
  destruct (q d) eqn:Hq.
  - rewrite (Himp d (or_introl eq_refl) Hq). simpl. rewrite Hq.
    now rewrite Hrest.
  - destruct (p d); simpl; [rewrite Hq|]; exact Hrest.
Qed.

Lemma filter_split_length (p : A → bool) (docs : list A) :
  (length (List.filter p docs) + length (List.filter (λ d, negb (p d)) docs)
   = length docs)%nat.
Proof.
  induction docs as [|d rest IH]; simpl; [reflexivity|].
  destruct (p d); simpl; lia.
Qed.

Lemma filter_none (p : A → bool) (docs : list A) :
  (∀ d, In d docs → p d = false) → List.filter p docs = [].
Proof.
  induction docs as [|d rest IH]; simpl; intros Hnone; [reflexivity|].
  rewrite (Hnone d (or_introl eq_refl)). apply IH.
  intros d' Hin. apply Hnone. now right.
Qed.


Lemma findOneSorted_newest (q : A → bool) (key : A → Z) (docs : list A) (c : A) :
  q c = true →
  (∀ d, In d docs → q d = true → key d < key c) →
  Mongo.findOneSorted q key (docs ++ [c]) = Some c.
Proof.
  intros Hq Hold.
  pose proof (findOneSorted_spec q key (docs ++ [c])) as Hspec.
  destruct (Mongo.findOneSorted q key (docs ++ [c])) as [m|].
  - destruct Hspec as (Hin & Hqm & Hmax).
    apply in_app_or in Hin. destruct Hin as [Hin|[Heq|[]]].
    + pose proof (Hold m Hin Hqm).
      assert (key c <= key m).
      { apply Hmax; [apply in_or_app; right; now left | exact Hq]. }
      lia.
    + now subst.
  - rewrite Hspec in Hq; [discriminate|]. apply in_or_app. right. now left.
Qed.

Lemma findOne_app_None (q : A → bool) (docs extra : list A) :
  Mongo.findOne q docs = None →
  Mongo.findOne q (docs ++ extra) = Mongo.findOne q extra.
Proof.
  unfold Mongo.findOne. induction docs as [|d rest IH]; simpl; [reflexivity|].
  destruct (q d); [discriminate|]. exact IH.
Qed.

Lemma findOne_app_Some (q : A → bool) (docs extra : list A) (d : A) :
  Mongo.findOne q docs = Some d →
  Mongo.findOne q (docs ++ extra) = Some d.
Proof.
  unfold Mongo.findOne. induction docs as [|d' rest IH]; simpl; [discriminate|].
  destruct (q d'); [trivial|]. exact IH.
Qed.

Lemma findOne_None_all (q : A → bool) (docs : list A) :
  Mongo.findOne q docs = None ↔ ∀ d, In d docs → q d = false.
Proof.
  unfold Mongo.findOne. split.
  - intros Hnone d Hin. exact (find_none q docs Hnone d Hin).
  - induction docs as [|d rest IH]; simpl; intros Hall; [reflexivity|].
    rewrite (Hall d (or_introl eq_refl)). apply IH.
    intros d' Hin. apply Hall. now right.
Qed.

Lemma insertOne_fresh (clash : A → A → bool) (d : A) (docs : list A) :
  (∀ d', In d' docs → clash d d' = false) →
  Mongo.insertOne clash d docs = inr (docs ++ [d]).
Proof.
  intros Hfree. unfold Mongo.insertOne.
  destruct (existsb (clash d) docs) eqn:Hex; [|reflexivity].
  apply existsb_exists in Hex. destruct Hex as (d' & Hin & Hclash).
  rewrite (Hfree d' Hin) in Hclash. discriminate.
Qed.

Lemma insertOne_inr (clash : A → A → bool) (d : A) (docs docs' : list A) :
  Mongo.insertOne clash d docs = inr docs' →
  docs' = docs ++ [d] ∧ ∀ d', In d' docs → clash d d' = false.
Proof.
  unfold Mongo.insertOne.
  destruct (existsb (clash d) docs) eqn:Hex; [discriminate|].
  intros [= <-]. split; [reflexivity|].
  intros d' Hin. destruct (clash d d') eqn:Hclash; [|reflexivity].
  assert (existsb (clash d) docs = true) as Hyes.
  { apply existsb_exists. now exists d'. }
  congruence.
Qed.

Lemma insertOne_clash (clash : A → A → bool) (d d' : A) (docs : list A) :
  In d' docs → clash d d' = true →
  Mongo.insertOne clash d docs
  = inl (JsError "MongoServerError" "E11000 duplicate key error").
Proof.
  intros Hin Hclash. unfold Mongo.insertOne.
  assert (existsb (clash d) docs = true) as ->; [|reflexivity].
  apply existsb_exists. now exists d'.
Qed.

Lemma updateOne_identity (q : A → bool) (docs : list A) :
  Mongo.updateOne q (λ d, d) docs
  = (docs, Mongo.mkUpdateResult
             (match Mongo.findOne q docs with Some _ => 1 | None => 0 end) 0).
Proof.
  unfold Mongo.findOne.
  induction docs as [|d rest IH]; simpl; [reflexivity|].
  destruct (q d).
  - destruct (decide (d = d)); [reflexivity|congruence].
  - rewrite IH. reflexivity.
Qed.

End MoreMongoFacts.

(** ** ChallengeModel *)

Lemma validQuery_own (t : Z) (id challenge : string) (type : ChallengeType)
    (userId : option string) (now expiresAt : Z) :
  ChallengeModel.validQuery t type userId
    (mkChallenge id (orElse userId "") challenge type now expiresAt false)
  = (t <? expiresAt).
Proof.
  unfold ChallengeModel.validQuery, ChallengeType_eqb, orElse. simpl.
  rewrite bool_decide_eq_true_2 by reflexivity. simpl.
  destruct (truthy userId).
  - rewrite String.eqb_refl. now rewrite andb_true_r.
  - now rewrite andb_true_r.
Qed.

Lemma clash_byId (a c : Challenge) :
  ChallengeModel.clash a c = ChallengeModel.byId (ch_id a) c.
Proof. unfold ChallengeModel.clash, ChallengeModel.byId. apply String.eqb_sym. Qed.

(** X1 ([createChallenge], [findValidChallenge]).  For clock readings and
    a lifetime within the range of a [Date], a challenge created under a
    fresh id is stored unused, with the first reading as creation time and
    an expiry [expirationMinutes] minutes after the second.  The lookup for
    its type and owner returns it at every time before that expiry,
    provided every other challenge that the lookup could match was created
    strictly earlier; from the expiry on, the lookup answers as if the
    challenge had never been created. *)
Theorem createChallenge_then_findValidChallenge :
  ∀ (id : string) (created now : Z) (challenge : string)
    (type : ChallengeType) (userId : option string) (expirationMinutes : Z)
    (docs : list Challenge),
    validDate created → validDate now →
    validDate (expirationMinutes * 60 * 1000) →
    validDate (now + expirationMinutes * 60 * 1000) →
    Mongo.findOne (ChallengeModel.byId id) docs = None →
    ∃ c,
      ChallengeModel.createChallenge id created now challenge type userId
        expirationMinutes docs = inr (docs ++ [c], c)
      ∧ ch_used c = false
      ∧ ch_createdAt c = created
      ∧ ch_expiresAt c = now + expirationMinutes * 60000
      ∧ (∀ t,
            t < ch_expiresAt c →
            (∀ d, In d docs →
                  ChallengeModel.validQuery t type userId d = true →
                  ch_createdAt d < ch_createdAt c) →
            ChallengeModel.findValidChallenge t type userId (docs ++ [c])
            = Some c)
      ∧ (∀ t,
            ch_expiresAt c <= t →
            ChallengeModel.findValidChallenge t type userId (docs ++ [c])
            = ChallengeModel.findValidChallenge t type userId docs).
Proof.
  intros id created now challenge type userId minutes docs _ _ _ _ Hfresh.
  set (c := mkChallenge id (orElse userId "") challenge type created
                        (now + minutes * 60 * 1000) false).
  exists c.
  split; [|split; [reflexivity|split; [reflexivity|split; [simpl; lia|split]]]].
  - unfold ChallengeModel.createChallenge. fold c.
    rewrite insertOne_fresh; [reflexivity|].
    intros d Hin. rewrite clash_byId. simpl.
    exact (proj1 (findOne_None_all _ _) Hfresh d Hin).
  - intros t Ht Hold. unfold ChallengeModel.findValidChallenge.
    apply findOneSorted_newest.
    + unfold c. rewrite validQuery_own. simpl in Ht. lia.
    + exact Hold.
  - intros t Ht. unfold ChallengeModel.findValidChallenge, Mongo.findOneSorted,
      Mongo.find.
    rewrite List.filter_app. simpl.
    unfold c at 1. rewrite validQuery_own.
    replace (t <? now + minutes * 60 * 1000) with false by (simpl in Ht; lia).
    now rewrite app_nil_r.
Qed.

Lemma createChallenge_then_findValidChallenge_witness :
  ChallengeModel.createChallenge "ch-2" 2000 2001 "n0nc3" authentication None 5
    [demoChallenge]
  = inr ([demoChallenge;
          mkChallenge "ch-2" "" "n0nc3" authentication 2000 302001 false],
         mkChallenge "ch-2" "" "n0nc3" authentication 2000 302001 false)
  ∧ ChallengeModel.findValidChallenge 301500 authentication None
      [demoChallenge;
       mkChallenge "ch-2" "" "n0nc3" authentication 2000 302001 false]
    = Some (mkChallenge "ch-2" "" "n0nc3" authentication 2000 302001 false).
Proof.
  assert (∀ t, -8640000000000000 <= t <= 8640000000000000 → validDate t)
    as Hvalid by (intros t Ht; exact Ht).
  destruct (createChallenge_then_findValidChallenge "ch-2" 2000 2001 "n0nc3"
              authentication None 5 [demoChallenge]
              (Hvalid 2000 ltac:(lia)) (Hvalid 2001 ltac:(lia))
              (Hvalid 300000 ltac:(lia)) (Hvalid 302001 ltac:(lia)) eq_refl)
    as (c & Hcreate & _ & _ & _ & Hfind & _).
  vm_compute in Hcreate. injection Hcreate as <-.
  split; [reflexivity|].
  apply (Hfind 301500); [reflexivity|].
  intros d [<-|[]] _. reflexivity.
Defined.

Lemma marked_filter (id : string) (q : Challenge → bool) (docs : list Challenge) :
  NoDup (map ch_id docs) →
  (∀ c, q (set_used true c) = false) →
  List.filter q (fst (ChallengeModel.markChallengeAsUsed id docs))
  = List.filter (λ c, q c && negb (ChallengeModel.byId id c)) docs.
Proof.
  intros Hnodup Hused. unfold ChallengeModel.markChallengeAsUsed. simpl.
  induction docs as [|d rest IH]; simpl; [reflexivity|].
  simpl in Hnodup. apply NoDup_cons in Hnodup. destruct Hnodup as [Hnotin Hrest].
  destruct (ChallengeModel.byId id d) eqn:Hd; simpl.
  - rewrite Hused, andb_false_r.
    apply byId_true in Hd. subst id.
    apply List.filter_ext_in. intros e Hin.
    destruct (ChallengeModel.byId (ch_id d) e) eqn:He;
      [|now rewrite andb_true_r].
    apply byId_true in He. exfalso. apply Hnotin.
    rewrite <- He. apply list_elem_of_In, in_map, Hin.
  - rewrite andb_true_r. destruct (q d); [f_equal|]; exact (IH Hrest).
Qed.

Lemma findValidChallenge_marked (docs : list Challenge) (id : string) (t : Z)
    (type : ChallengeType) (userId : option string) :
  NoDup (map ch_id docs) →
  ChallengeModel.findValidChallenge t type userId
    (fst (ChallengeModel.markChallengeAsUsed id docs))
  = ChallengeModel.findValidChallenge t type userId
      (List.filter (λ c, negb (ChallengeModel.byId id c)) docs).
Proof.
  intros Hnodup.
  unfold ChallengeModel.findValidChallenge, Mongo.findOneSorted, Mongo.find.
  f_equal. f_equal. rewrite marked_filter; trivial.
  - clear Hnodup.
    induction docs as [|d rest IH]; simpl; [reflexivity|].
    destruct (ChallengeModel.byId id d); simpl.
    + rewrite andb_false_r. exact IH.
    + rewrite andb_true_r.
      destruct (ChallengeModel.validQuery t type userId d);
        [f_equal|]; exact IH.
  - intros c. unfold ChallengeModel.validQuery. simpl.
    now rewrite andb_false_r.
Qed.

(** X2 ([markChallengeAsUsed], [findValidChallenge]).  While challenge ids
    are unique (the collection's unique index), marking a challenge used
    takes exactly that challenge out of every later lookup: the lookup
    answers as it would on the collection without the challenge, so it
    never returns the consumed challenge again and what it finds among the
    others is not affected. *)
Theorem markChallengeAsUsed_retires_challenge :
  ∀ (docs : list Challenge) (id : string) (t : Z) (type : ChallengeType)
    (userId : option string),
    NoDup (map ch_id docs) →
    let docs' := fst (ChallengeModel.markChallengeAsUsed id docs) in
    ChallengeModel.findValidChallenge t type userId docs'
    = ChallengeModel.findValidChallenge t type userId
        (List.filter (λ c, negb (ChallengeModel.byId id c)) docs)
    ∧ ∀ c, ChallengeModel.findValidChallenge t type userId docs' = Some c →
           ch_id c ≠ id.
Proof.
  intros docs id t type userId Hnodup docs'.
  pose proof (findValidChallenge_marked docs id t type userId Hnodup) as Hfind.
  fold docs' in Hfind.
  split; [exact Hfind|].
  intros c Hc. rewrite Hfind in Hc.
  pose proof (findOneSorted_spec (ChallengeModel.validQuery t type userId)
                ch_createdAt
                (List.filter (λ c, negb (ChallengeModel.byId id c)) docs)) as Hspec.
  unfold ChallengeModel.findValidChallenge in Hc. rewrite Hc in Hspec.
  destruct Hspec as (Hin & _ & _).
  apply filter_In in Hin. destruct Hin as [_ Hne].
  intros Hid. apply byId_true in Hid. rewrite Hid in Hne. discriminate.
Qed.

Lemma markChallengeAsUsed_retires_challenge_witness :
  ChallengeModel.findValidChallenge 3000 authentication None
    (fst (ChallengeModel.markChallengeAsUsed "ch-b" [aliceChallenge; bobChallenge]))
  = ChallengeModel.findValidChallenge 3000 authentication None [aliceChallenge].
Proof.
  refine (proj1 (markChallengeAsUsed_retires_challenge
                   [aliceChallenge; bobChallenge] "ch-b" 3000 authentication
                   None _)).
  simpl. apply NoDup_cons. split.
  - rewrite list_elem_of_In. simpl. intuition discriminate.
  - apply NoDup_cons. split; [|apply NoDup_nil_2].
    rewrite list_elem_of_In. simpl. intuition.
Defined.

(** X3 ([cleanupExpiredChallenges], [findValidChallenge]).  Deleting the
    expired challenges is invisible to every lookup made at that time or
    later, whatever the type and owner asked for; the number the cleanup
    returns is the number of documents it removed, and no challenge that
    has not expired is among them. *)
Theorem cleanupExpiredChallenges_is_transparent :
  ∀ (now t : Z) (type : ChallengeType) (userId : option string)
    (docs : list Challenge),
    now <= t →
    let swept := ChallengeModel.cleanupExpiredChallenges now docs in
    ChallengeModel.findValidChallenge t type userId (fst swept)
    = ChallengeModel.findValidChallenge t type userId docs
    ∧ Z.of_nat (length docs) = Z.of_nat (length (fst swept)) + snd swept
    ∧ ∀ c, In c docs → now <= ch_expiresAt c → In c (fst swept).
Proof.
  intros now t type userId docs Hle swept. split; [|split].
  - unfold ChallengeModel.findValidChallenge, Mongo.findOneSorted, Mongo.find.
    unfold swept, ChallengeModel.cleanupExpiredChallenges, Mongo.deleteMany.
    simpl. rewrite filter_implied; [reflexivity|].
    intros d _ Hq. unfold ChallengeModel.validQuery in Hq.
    apply andb_prop in Hq. destruct Hq as [Hq _].
    apply andb_prop in Hq. destruct Hq as [_ Hq].
    apply Z.ltb_lt in Hq. apply negb_true_iff. lia.
  - unfold swept, ChallengeModel.cleanupExpiredChallenges, Mongo.deleteMany.
    simpl.
    pose proof (filter_split_length (λ c, ch_expiresAt c <? now) docs). lia.
  - intros c Hin Hlive.
    unfold swept, ChallengeModel.cleanupExpiredChallenges, Mongo.deleteMany.
    simpl. apply filter_In. split; [exact Hin|].
    apply negb_true_iff. lia.
Qed.

Lemma cleanupExpiredChallenges_is_transparent_witness :
  ChallengeModel.cleanupExpiredChallenges 301500 [aliceChallenge; bobChallenge]
  = ([bobChallenge], 1)
  ∧ ChallengeModel.findValidChallenge 301500 authentication None [bobChallenge]
    = ChallengeModel.findValidChallenge 301500 authentication None
        [aliceChallenge; bobChallenge].
Proof.
  split; [reflexivity|].
  refine (proj1 (cleanupExpiredChallenges_is_transparent 301500 301500
                   authentication None [aliceChallenge; bobChallenge] _)).
  lia.
Defined.


(** ** UserModel and CredentialModel *)

(** X5 ([createUser] and the finders).  [createUser] succeeds exactly when
    no stored user has the username, the id or (for a non-empty email) the
    email; otherwise the unique indexes refuse the insert and the
    collection is unchanged.  After a success the new user, with all its
    counters at zero, is what [findById], [findByUsername] and (for a
    non-empty email) [findByEmail] return for its keys, and lookups of
    other usernames answer as before. *)
Theorem createUser_unique_then_found :
  ∀ (id : string) (now : Z) (username : string)
    (displayName email : option string) (docs : list User),
    match UserModel.findByUsername username docs,
          UserModel.findById id docs,
          (if truthy email
           then UserModel.findByEmail (default ""%string email) docs
           else None) with
    | None, None, None =>
        ∃ user,
          UserModel.createUser id now username displayName email docs
          = inr (docs ++ [user], user)
          ∧ (u_id user, u_username user) = (id, username)
          ∧ u_email user = (if truthy email then email else None)
          ∧ (u_passkeyRegistrations user, u_otpFallbackUsage user,
             u_successfulAuthentications user, u_failedAuthentications user)
            = (0, 0, 0, 0)
          ∧ UserModel.findById id (docs ++ [user]) = Some user
          ∧ UserModel.findByUsername username (docs ++ [user]) = Some user
          ∧ (truthy email = true →
             UserModel.findByEmail (default ""%string email) (docs ++ [user])
             = Some user)
          ∧ ∀ other, other ≠ username →
              UserModel.findByUsername other (docs ++ [user])
              = UserModel.findByUsername other docs
    | _, _, _ =>
        UserModel.createUser id now username displayName email docs
        = inl (JsError "MongoServerError" "E11000 duplicate key error")
    end.
Proof.
  intros id now username displayName email docs.
  set (user := mkUser id username (if truthy email then email else None)
                      (Some (orElse displayName username)) now None true
                      0 0 0 0).
  assert (Hclash : ∀ d, In d docs → UserModel.clash user d = true →
            UserModel.createUser id now username displayName email docs
            = inl (JsError "MongoServerError" "E11000 duplicate key error")).
  { intros d Hin Hc. unfold UserModel.createUser. fold user.
    now rewrite (insertOne_clash UserModel.clash user d docs Hin Hc). }
  destruct (UserModel.findByUsername username docs) as [d|] eqn:Hname.
  { apply findOne_Some_true in Hname. destruct Hname as [Hin Hq].
    apply String.eqb_eq in Hq.
    assert (UserModel.clash user d = true) as Hc.
    { unfold UserModel.clash. simpl. rewrite Hq, String.eqb_refl. reflexivity. }
    destruct (UserModel.findById id docs);
      destruct (if truthy email then _ else _); exact (Hclash d Hin Hc). }
  destruct (UserModel.findById id docs) as [d|] eqn:Hid.
  { apply findOne_Some_true in Hid. destruct Hid as [Hin Hq].
    apply String.eqb_eq in Hq.
    assert (UserModel.clash user d = true) as Hc.
    { unfold UserModel.clash. simpl. rewrite Hq, String.eqb_refl.
      now rewrite orb_true_r. }
    destruct (if truthy email then _ else _); exact (Hclash d Hin Hc). }
  destruct (truthy email) eqn:Htruthy.
  - destruct (truthy_Some email Htruthy) as (e & -> & Hne). simpl.
    destruct (UserModel.findByEmail e docs) as [d|] eqn:Hemail.
    { apply findOne_Some_true in Hemail. destruct Hemail as [Hin Hq].
      apply (Hclash d Hin). unfold UserModel.clash. simpl.
      destruct (u_email d) as [e'|]; [|discriminate].
      apply String.eqb_eq in Hq. subst e'.
      rewrite String.eqb_refl. now rewrite orb_true_r. }
    exists user. split; [|repeat split].
    + unfold UserModel.createUser. rewrite Htruthy. fold user.
      rewrite insertOne_fresh; [reflexivity|].
      intros d Hin. unfold UserModel.clash. simpl.
      pose proof (proj1 (findOne_None_all _ _) Hname d Hin) as H1.
      pose proof (proj1 (findOne_None_all _ _) Hid d Hin) as H2.
      pose proof (proj1 (findOne_None_all _ _) Hemail d Hin) as H3.
      unfold UserModel.byId in H2. cbv beta in H1, H2, H3.
      rewrite (String.eqb_sym username), H1, (String.eqb_sym id), H2. simpl.
      destruct (u_email d) as [e'|]; [|reflexivity].
      now rewrite String.eqb_sym.
    + unfold UserModel.findById. rewrite (findOne_app_None _ _ _ Hid).
      unfold Mongo.findOne, UserModel.byId. simpl.
      now rewrite String.eqb_refl.
    + unfold UserModel.findByUsername in *.
      rewrite (findOne_app_None _ _ _ Hname).
      unfold Mongo.findOne. simpl. now rewrite String.eqb_refl.
    + intros _. unfold UserModel.findByEmail in *.
      rewrite (findOne_app_None _ _ _ Hemail).
      unfold Mongo.findOne. simpl. now rewrite String.eqb_refl.
    + intros other Hother. unfold UserModel.findByUsername.
      destruct (Mongo.findOne (λ u, String.eqb (u_username u) other) docs)
        as [d|] eqn:Hd.
      * exact (findOne_app_Some _ _ _ _ Hd).
      * rewrite (findOne_app_None _ _ _ Hd). unfold Mongo.findOne. simpl.
        destruct (String.eqb username other) eqn:Heq; [|reflexivity].
        apply String.eqb_eq in Heq. congruence.
  - exists user. split; [|repeat split].
    + unfold UserModel.createUser. rewrite Htruthy. fold user.
      rewrite insertOne_fresh; [reflexivity|].
      intros d Hin. unfold UserModel.clash. simpl.
      pose proof (proj1 (findOne_None_all _ _) Hname d Hin) as H1.
      pose proof (proj1 (findOne_None_all _ _) Hid d Hin) as H2.
      unfold UserModel.byId in H2. cbv beta in H1, H2.
      now rewrite (String.eqb_sym username), H1, (String.eqb_sym id), H2.
    + unfold UserModel.findById. rewrite (findOne_app_None _ _ _ Hid).
      unfold Mongo.findOne, UserModel.byId. simpl.
      now rewrite String.eqb_refl.
    + unfold UserModel.findByUsername in *.
      rewrite (findOne_app_None _ _ _ Hname).
      unfold Mongo.findOne. simpl. now rewrite String.eqb_refl.
    + discriminate.
    + intros other Hother. unfold UserModel.findByUsername.
      destruct (Mongo.findOne (λ u, String.eqb (u_username u) other) docs)
        as [d|] eqn:Hd.
      * exact (findOne_app_Some _ _ _ _ Hd).
      * rewrite (findOne_app_None _ _ _ Hd). unfold Mongo.findOne. simpl.
        destruct (String.eqb username other) eqn:Heq; [|reflexivity].
        apply String.eqb_eq in Heq. congruence.
Qed.

(** X6 ([createCredential], [findById], [findByUserId]).  A credential
    whose id is already stored is refused by the unique index.  Otherwise
    [createCredential] stores the data it is given with [createdAt] set to
    the clock and [useCount] to zero, whatever the caller put there;
    [findById] then returns it, it comes last in its owner's
    [findByUserId] list, and the lists of other owners are unchanged. *)
Theorem createCredential_then_found :
  ∀ (now : Z) (data : Credential) (docs : list Credential),
    match CredentialModel.findById (cr_id data) docs with
    | Some _ =>
        CredentialModel.createCredential now data docs
        = inl (JsError "MongoServerError" "E11000 duplicate key error")
    | None =>
        ∃ c,
          CredentialModel.createCredential now data docs
          = inr (docs ++ [c], c)
          ∧ c = mkCredential (cr_id data) (cr_userId data) (cr_publicKey data)
                  (cr_counter data) (cr_deviceType data) (cr_transports data)
                  now (cr_lastUsedAt data) 0
          ∧ CredentialModel.findById (cr_id data) (docs ++ [c]) = Some c
          ∧ CredentialModel.findByUserId (cr_userId data) (docs ++ [c])
            = CredentialModel.findByUserId (cr_userId data) docs ++ [c]
          ∧ ∀ other, other ≠ cr_userId data →
              CredentialModel.findByUserId other (docs ++ [c])
              = CredentialModel.findByUserId other docs
    end.
Proof.
  intros now data docs.
  set (c := mkCredential (cr_id data) (cr_userId data) (cr_publicKey data)
              (cr_counter data) (cr_deviceType data) (cr_transports data)
              now (cr_lastUsedAt data) 0).
  destruct (CredentialModel.findById (cr_id data) docs) as [d|] eqn:Hid.
  - apply findOne_Some_true in Hid. destruct Hid as [Hin Hq].
    unfold CredentialModel.createCredential. fold c.
    rewrite (insertOne_clash CredentialModel.clash c d docs Hin); [reflexivity|].
    unfold CredentialModel.clash. simpl.
    unfold CredentialModel.byId in Hq. now rewrite String.eqb_sym.
  - exists c. split; [|split; [reflexivity|split; [|split]]].
    + unfold CredentialModel.createCredential. fold c.
      rewrite insertOne_fresh; [reflexivity|].
      intros d Hin. unfold CredentialModel.clash. simpl.
      pose proof (proj1 (findOne_None_all _ _) Hid d Hin) as H1.
      unfold CredentialModel.byId in H1. now rewrite String.eqb_sym.
    + unfold CredentialModel.findById. rewrite (findOne_app_None _ _ _ Hid).
      unfold Mongo.findOne, CredentialModel.byId. simpl.
      now rewrite String.eqb_refl.
    + unfold CredentialModel.findByUserId, Mongo.find.
      rewrite List.filter_app. simpl. now rewrite String.eqb_refl.
    + intros other Hother. unfold CredentialModel.findByUserId, Mongo.find.
      rewrite List.filter_app. simpl.
      destruct (String.eqb (cr_userId data) other) eqn:Heq.
      * apply String.eqb_eq in Heq. congruence.
      * apply app_nil_r.
Qed.

(** X7 ([deleteByUserId]).  Deleting a user's credentials leaves that
    user with none, reports how many there were, and touches nobody
    else's: the credential lists of other users, and every lookup by id
    that found a credential of another user, answer as before. *)
Theorem deleteByUserId_removes_only_that_user :
  ∀ (userId : string) (docs : list Credential),
    let result := CredentialModel.deleteByUserId userId docs in
    CredentialModel.findByUserId userId (fst result) = []
    ∧ snd result = Z.of_nat (length (CredentialModel.findByUserId userId docs))
    ∧ (∀ other, other ≠ userId →
         CredentialModel.findByUserId other (fst result)
         = CredentialModel.findByUserId other docs)
    ∧ ∀ id c, CredentialModel.findById id docs = Some c →
              cr_userId c ≠ userId →
              CredentialModel.findById id (fst result) = Some c.
Proof.
  intros userId docs. cbv zeta.
  unfold CredentialModel.deleteByUserId, Mongo.deleteMany,
    CredentialModel.findByUserId, Mongo.find. simpl.
  split; [|split; [reflexivity|split]].
  - apply filter_none. intros d Hin. apply filter_In in Hin.
    destruct Hin as [_ Hq]. now apply negb_true_iff in Hq.
  - intros other Hother. apply filter_implied.
    intros d _ Hq. apply String.eqb_eq in Hq. apply negb_true_iff.
    apply String.eqb_neq. congruence.
  - intros id c. unfold CredentialModel.findById, Mongo.findOne.
    induction docs as [|d rest IH]; simpl; [discriminate|].
    destruct (CredentialModel.byId id d) eqn:Hd.
    + intros [= ->] Hother.
      apply String.eqb_neq in Hother. rewrite Hother. simpl. now rewrite Hd.
    + intros Hfind Hother.
      destruct (String.eqb (cr_userId d) userId); simpl;
        [|rewrite Hd]; exact (IH Hfind Hother).
Qed.

(* ===================================================================== *)
(** * Frame conditions of the controllers                                 *)
(* ===================================================================== *)

Section Keeps.
Context (R : World → World → Prop) (HR : Frame0 R).

Lemma keeps_ret {A : Type} (a : A) : keeps R (ret a).
Proof. intros w. apply (frame_refl R HR). Qed.

Lemma keeps_throw {A : Type} (e : exn) : keeps R (throw (A := A) e).
Proof. intros w. apply (frame_refl R HR). Qed.

Lemma keeps_gets {A : Type} (f : World → A) : keeps R (gets f).
Proof. intros w. apply (frame_refl R HR). Qed.

Lemma keeps_lift {A : Type} (r : exn + A) : keeps R (lift r).
Proof. intros w. apply (frame_refl R HR). Qed.

Lemma keeps_bind {A B : Type} (m : M A) (k : A → M B) :
  keeps R m → (∀ a, keeps R (k a)) → keeps R (bind m k).
Proof.
  intros Hm Hk w. unfold bind. specialize (Hm w).
  destruct (m w) as [[e|a] w']; simpl in *; [exact Hm|].
  exact (frame_trans R HR _ _ _ Hm (Hk a w')).
Qed.

Lemma keeps_tryCatch {A : Type} (m : M A) (h : exn → M A) :
  keeps R m → (∀ e, keeps R (h e)) → keeps R (tryCatch m h).
Proof.
  intros Hm Hh w. unfold tryCatch. specialize (Hm w).
  destruct (m w) as [[e|a] w']; simpl in *; [|exact Hm].
  exact (frame_trans R HR _ _ _ Hm (Hh e w')).
Qed.

Context (ext : External).

Lemma keeps_fresh : keeps R (WebAuthnController.fresh ext).
Proof. intros w. apply (frame_drawn R HR). Qed.

Lemma keeps_logEvent now eventType eventData userId ipAddress userAgent severity :
  keeps R (WebAuthnController.logEvent ext now eventType eventData userId
             ipAddress userAgent severity).
Proof.
  apply keeps_bind; [apply keeps_fresh|]. intros id w.
  apply (frame_logEvent R HR).
Qed.

Lemma keeps_createUser now username displayName email :
  keeps R (WebAuthnController.createUser ext now username displayName email).
Proof.
  apply keeps_bind; [apply keeps_fresh|]. intros id w. unfold state.
  destruct (UserModel.createUser _ _ _ _ _ _) as [e|[docs user]] eqn:Hc; simpl.
  - apply (frame_refl R HR).
  - exact (frame_createUser R HR _ _ _ _ _ _ _ _ Hc).
Qed.

Lemma keeps_createChallenge now challenge type userId :
  keeps R (WebAuthnController.createChallenge ext now challenge type userId).
Proof.
  apply keeps_bind; [apply keeps_fresh|]. intros id w. unfold state.
  destruct (ChallengeModel.createChallenge _ _ _ _ _ _ _ _) as [e|[docs doc]] eqn:Hc;
    simpl.
  - apply (frame_refl R HR).
  - exact (frame_createChallenge R HR _ _ _ _ _ _ _ _ _ Hc).
Qed.

Lemma keeps_markChallengeAsUsed id :
  keeps R (WebAuthnController.markChallengeAsUsed id).
Proof. intros w. apply (frame_markChallengeAsUsed R HR). Qed.

Lemma keeps_updateCounter now id newCounter :
  keeps R (WebAuthnController.updateCounter now id newCounter).
Proof. intros w. apply (frame_updateCounter R HR). Qed.

Lemma keeps_incrementPasskeyRegistrations id :
  keeps R (WebAuthnController.incrementPasskeyRegistrations id).
Proof. intros w. apply (frame_incrementPasskeyRegistrations R HR). Qed.

Lemma keeps_incrementSuccessfulAuthentications now id :
  keeps R (WebAuthnController.incrementSuccessfulAuthentications now id).
Proof. intros w. apply (frame_incrementSuccessfulAuthentications R HR). Qed.

Lemma keeps_migrate credentialId stored :
  keeps R (WebAuthnController.migrate ext credentialId stored).
Proof.
  unfold WebAuthnController.migrate.
  destruct (negb _ && _); [|apply keeps_ret].
  apply keeps_bind; [|intros; apply keeps_ret].
  intros w. apply (frame_updateCredential R HR).
Qed.

Lemma keeps_resolveAuthUser credential :
  keeps R (WebAuthnController.resolveAuthUser credential).
Proof.
  unfold WebAuthnController.resolveAuthUser.
  destruct (truthy _); [|apply keeps_ret].
  destruct (asLatin1 _); [apply keeps_gets|apply keeps_ret].
Qed.

End Keeps.

Lemma keeps_createCredential (R : World → World → Prop) (HR : Frame R)
    now data :
  keeps R (WebAuthnController.createCredential now data).
Proof.
  intros w. unfold WebAuthnController.createCredential, state.
  destruct (CredentialModel.createCredential _ _ _) as [e|[docs doc]] eqn:Hc;
    simpl.
  - apply (frame_refl R (frame_base R HR)).
  - exact (frame_createCredential R HR _ _ _ _ _ Hc).
Qed.

Ltac keeps_step HR :=
  lazymatch goal with
  | |- keeps _ (bind _ _) => apply (keeps_bind _ HR); [|intros ?]
  | |- keeps _ (ret _) => apply (keeps_ret _ HR)
  | |- keeps _ (throw _) => apply (keeps_throw _ HR)
  | |- keeps _ (gets _) => apply (keeps_gets _ HR)
  | |- keeps _ (lift _) => apply (keeps_lift _ HR)
  | |- keeps _ (tryCatch _ _) => apply (keeps_tryCatch _ HR); [|intros ?]
  | |- keeps _ (WebAuthnController.logEvent _ _ _ _ _ _ _ _) =>
      apply (keeps_logEvent _ HR)
  | |- keeps _ (OTPController.logEvent _ _ _ _ _ _ _ _) =>
      apply (keeps_logEvent _ HR)
  | |- keeps _ (WebAuthnController.fresh _) => apply (keeps_fresh _ HR)
  | |- keeps _ (WebAuthnController.createUser _ _ _ _ _) =>
      apply (keeps_createUser _ HR)
  | |- keeps _ (WebAuthnController.createChallenge _ _ _ _ _) =>
      apply (keeps_createChallenge _ HR)
  | |- keeps _ (WebAuthnController.markChallengeAsUsed _) =>
      apply (keeps_markChallengeAsUsed _ HR)
  | |- keeps _ (WebAuthnController.updateCounter _ _ _) =>
      apply (keeps_updateCounter _ HR)
  | |- keeps _ (WebAuthnController.incrementPasskeyRegistrations _) =>
      apply (keeps_incrementPasskeyRegistrations _ HR)
  | |- keeps _ (WebAuthnController.incrementSuccessfulAuthentications _ _) =>
      apply (keeps_incrementSuccessfulAuthentications _ HR)
  | |- keeps _ (WebAuthnController.migrate _ _ _) => apply (keeps_migrate _ HR)
  | |- keeps _ (WebAuthnController.resolveAuthUser _) =>
      apply (keeps_resolveAuthUser _ HR)
  | |- keeps _ (if ?b then _ else _) => destruct b
  | |- keeps _ (match ?x with _ => _ end) => destruct x
  end.

Section KeepsWebAuthn.
Context (R : World → World → Prop) (HR : Frame0 R) (ext : External).

Lemma keeps_startRegistration now req :
  keeps R (WebAuthnController.startRegistration ext now req).
Proof.
  unfold WebAuthnController.startRegistration,
    WebAuthnController.createIfEmailFree.
  cbv zeta. repeat keeps_step HR.
Qed.

Lemma keeps_startAuthentication now req :
  keeps R (WebAuthnController.startAuthentication ext now req).
Proof.
  unfold WebAuthnController.startAuthentication,
    WebAuthnController.resolveAllowCredentials,
    WebAuthnController.authenticationOptions.
  cbv zeta. repeat keeps_step HR.
Qed.

Lemma keeps_finishAuthentication now req :
  keeps R (WebAuthnController.finishAuthentication ext now req).
Proof.
  unfold WebAuthnController.finishAuthentication.
  cbv zeta. repeat keeps_step HR.
Qed.

End KeepsWebAuthn.

Lemma keeps_finishRegistration (R : World → World → Prop) (HR : Frame R)
    (ext : External) now req :
  keeps R (WebAuthnController.finishRegistration ext now req).
Proof.
  pose proof (frame_base R HR) as HB.
  unfold WebAuthnController.finishRegistration.
  cbv zeta.
  repeat first [apply (keeps_createCredential _ HR) | keeps_step HB].
Qed.

Section KeepsOtp.
Context (R : World → World → Prop) (HR : Frame0 R) (HO : otpFrame R)
        (ext : External).

Lemma keeps_storeOTP id data : keeps R (OTPController.storeOTP id data).
Proof. intros w. apply HO. Qed.

Lemma keeps_deleteOTP id : keeps R (OTPController.deleteOTP id).
Proof. intros w. apply HO. Qed.

Lemma keeps_getOTP id : keeps R (OTPController.getOTP id).
Proof. apply (keeps_gets _ HR). Qed.

Lemma keeps_generateOtp : keeps R (OTPController.generateOtp ext).
Proof. intros w. apply (frame_drawn R HR). Qed.

Lemma keeps_countAttempt id data : keeps R (OTPController.countAttempt id data).
Proof.
  apply (keeps_bind _ HR); [|intros; apply (keeps_ret _ HR)].
  intros w. apply HO.
Qed.

End KeepsOtp.

Ltac keeps_otp_step HR HO :=
  lazymatch goal with
  | |- keeps _ (OTPController.storeOTP _ _) => apply (keeps_storeOTP _ HO)
  | |- keeps _ (OTPController.deleteOTP _) => apply (keeps_deleteOTP _ HO)
  | |- keeps _ (OTPController.getOTP _) => apply (keeps_getOTP _ HR)
  | |- keeps _ (OTPController.generateOtp _) => apply (keeps_generateOtp _ HR)
  | |- keeps _ (OTPController.countAttempt _ _) =>
      apply (keeps_countAttempt _ HR HO)
  | _ => keeps_step HR
  end.

Section KeepsHandlers.
Context (R : World → World → Prop) (HR : Frame0 R) (HO : otpFrame R)
        (ext : External).

Lemma keeps_sendRegistrationOTP now req :
  keeps R (OTPController.sendRegistrationOTP ext now req).
Proof.
  unfold OTPController.sendRegistrationOTP.
  cbv zeta. repeat keeps_otp_step HR HO.
Qed.

Lemma keeps_verifyRegistrationOTP now req :
  keeps R (OTPController.verifyRegistrationOTP ext now req).
Proof.
  unfold OTPController.verifyRegistrationOTP.
  cbv zeta. repeat keeps_otp_step HR HO.
Qed.

Lemma keeps_sendAuthenticationOTP now req :
  keeps R (OTPController.sendAuthenticationOTP ext now req).
Proof.
  unfold OTPController.sendAuthenticationOTP.
  cbv zeta. repeat keeps_otp_step HR HO.
Qed.

Lemma keeps_verifyAuthenticationOTP now req :
  keeps R (OTPController.verifyAuthenticationOTP ext now req).
Proof.
  unfold OTPController.verifyAuthenticationOTP.
  cbv zeta. repeat keeps_otp_step HR HO.
Qed.

(** Every call but the completion of a registration and a pass of the TTL
    monitor is within every frame condition, with or without credential
    inserts. *)
Lemma handle_keeps0 now call w :
  (∀ req, call ≠ FinishRegistration req) →
  (∀ batch, call ≠ TtlMonitor batch) →
  R w (handle ext now call w).
Proof.
  intros Hother Hrequest. destruct call; simpl.
  - apply (keeps_startRegistration R HR).
  - now destruct (Hother req).
  - apply (keeps_startAuthentication R HR).
  - apply (keeps_finishAuthentication R HR).
  - apply keeps_sendRegistrationOTP.
  - apply keeps_verifyRegistrationOTP.
  - apply keeps_sendAuthenticationOTP.
  - apply keeps_verifyAuthenticationOTP.
  - apply HO.
  - now destruct (Hrequest batch).
Qed.

End KeepsHandlers.

Section KeepsRequests.
Context (R : World → World → Prop) (HR : Frame R) (HO : otpFrame R)
        (ext : External).

(** Every request and timer expiry is within every frame condition. *)
Lemma handle_keeps_requests now call w :
  (∀ batch, call ≠ TtlMonitor batch) → R w (handle ext now call w).
Proof.
  intros Hrequest.
  destruct call;
    try (apply (handle_keeps0 R (frame_base R HR) HO); discriminate).
  - apply (keeps_finishRegistration R HR).
  - now destruct (Hrequest batch).
Qed.

Context (HT : ttlFrame R).

(** Every call is within a frame condition that allows the TTL passes. *)
Lemma handle_keeps now call w : R w (handle ext now call w).
Proof.
  destruct call; try (apply handle_keeps_requests; discriminate).
  apply HT.
Qed.

Lemma serve_keeps history : ∀ w, R w (serve ext history w).
Proof.
  induction history as [|[now call] rest IH]; intros w; simpl.
  - apply (frame_refl R (frame_base R HR)).
  - exact (frame_trans R (frame_base R HR) _ _ _
             (handle_keeps now call w) (IH _)).
Qed.

End KeepsRequests.

(** ** How collections grow *)

Section Grows.
Context {A : Type} `{EqDecision A} (rel : A → A → Prop).
Context (rel_refl : ∀ x, rel x x) (rel_trans : ∀ x y z, rel x y → rel y z → rel x z).

Lemma Forall2_same (l : list A) : Forall2 rel l l.
Proof. induction l; constructor; auto. Qed.

Lemma grows_refl (l : list A) : grows rel l l.
Proof. exists l, []. split; [now rewrite app_nil_r|apply Forall2_same]. Qed.

Lemma grows_trans (a b c : list A) : grows rel a b → grows rel b c → grows rel a c.
Proof.
  intros (k1 & a1 & -> & H1) (k2 & a2 & -> & H2).
  apply Forall2_app_inv_l in H2. destruct H2 as (k3 & k4 & H3 & H4 & ->).
  exists k3, (k4 ++ a2). split; [now rewrite app_assoc|].
  revert H1 H3. clear -rel_trans. intros H1. revert k3.
  induction H1; intros k3 H3; inversion H3; subst; constructor; eauto.
Qed.

Lemma grows_app (l added : list A) : grows rel l (l ++ added).
Proof. exists l, added. split; [reflexivity|apply Forall2_same]. Qed.

Lemma grows_updateOne (q : A → bool) (upd : A → A) (l : list A) :
  (∀ x, rel x (upd x)) → grows rel l (fst (Mongo.updateOne q upd l)).
Proof.
  intros Hupd. exists (fst (Mongo.updateOne q upd l)), [].
  split; [now rewrite app_nil_r|].
  induction l as [|d rest IH]; simpl; [constructor|].
  destruct (q d); simpl; constructor; auto. apply Forall2_same.
Qed.

Lemma grows_In (old new : list A) (x : A) :
  grows rel old new → In x old → ∃ x', In x' new ∧ rel x x'.
Proof.
  intros (kept & added & -> & Hall) Hin.
  induction Hall as [|a k olds kepts Hrel Hall IH]; [destruct Hin|].
  destruct Hin as [<-|Hin].
  - exists k. split; [now left|exact Hrel].
  - destruct (IH Hin) as (x' & Hin' & Hrel'). exists x'.
    split; [now right|exact Hrel'].
Qed.

End Grows.

Lemma userRel_refl (u : User) : userRel u u.
Proof. unfold userRel. repeat split; lia. Qed.

Lemma userRel_trans (a b c : User) : userRel a b → userRel b c → userRel a c.
Proof.
  unfold userRel. intros (?&?&?&?&?&?&?&?&?&?) (?&?&?&?&?&?&?&?&?&?).
  repeat split; try congruence; lia.
Qed.

Lemma credentialRel_refl (c : Credential) : credentialRel c c.
Proof. unfold credentialRel. repeat split; lia. Qed.

Lemma credentialRel_trans (a b c : Credential) :
  credentialRel a b → credentialRel b c → credentialRel a c.
Proof.
  unfold credentialRel. intros (?&?&?&?&?&?&?) (?&?&?&?&?&?&?).
  repeat split; try congruence; lia.
Qed.

Lemma challengeRel_refl (c : Challenge) : challengeRel c c.
Proof. now left. Qed.

Lemma challengeRel_trans (a b c : Challenge) :
  challengeRel a b → challengeRel b c → challengeRel a c.
Proof.
  unfold challengeRel. intros [->| ->] [->| ->]; auto.
Qed.

Lemma evolves_refl (w : World) : evolves w w.
Proof.
  repeat split.
  - apply grows_refl, userRel_refl.
  - apply grows_refl, credentialRel_refl.
  - now apply grows_refl.
Qed.

Lemma createUser_inr id now username displayName email docs docs' user :
  UserModel.createUser id now username displayName email docs
  = inr (docs', user) →
  docs' = docs ++ [user]
  ∧ (∀ d, In d docs → UserModel.clash user d = false)
  ∧ user = mkUser id username (if truthy email then email else None)
             (Some (orElse displayName username)) now None true 0 0 0 0.
Proof.
  unfold UserModel.createUser.
  destruct (Mongo.insertOne _ _ _) as [e|inserted] eqn:Hins; [discriminate|].
  intros [= <- <-]. apply insertOne_inr in Hins. destruct Hins as [-> Hfree].
  repeat split. exact Hfree.
Qed.

Lemma createChallenge_inr id created now challenge type userId minutes docs
    docs' doc :
  ChallengeModel.createChallenge id created now challenge type userId minutes
    docs = inr (docs', doc) →
  docs' = docs ++ [doc]
  ∧ (∀ d, In d docs → ChallengeModel.clash doc d = false)
  ∧ doc = mkChallenge id (orElse userId "") challenge type created
            (now + minutes * 60 * 1000) false.
Proof.
  unfold ChallengeModel.createChallenge.
  destruct (Mongo.insertOne _ _ _) as [e|inserted] eqn:Hins; [discriminate|].
  intros [= <- <-]. apply insertOne_inr in Hins. destruct Hins as [-> Hfree].
  repeat split. exact Hfree.
Qed.

Lemma createCredential_inr now data docs docs' doc :
  CredentialModel.createCredential now data docs = inr (docs', doc) →
  docs' = docs ++ [doc]
  ∧ (∀ d, In d docs → CredentialModel.clash doc d = false)
  ∧ doc = mkCredential (cr_id data) (cr_userId data) (cr_publicKey data)
            (cr_counter data) (cr_deviceType data) (cr_transports data)
            now (cr_lastUsedAt data) 0.
Proof.
  unfold CredentialModel.createCredential.
  destruct (Mongo.insertOne _ _ _) as [e|inserted] eqn:Hins; [discriminate|].
  intros [= <- <-]. apply insertOne_inr in Hins. destruct Hins as [-> Hfree].
  repeat split. exact Hfree.
Qed.

Lemma evolves_frame0 : Frame0 evolves.
Proof.
  pose proof userRel_refl as Hu. pose proof credentialRel_refl as Hc.
  assert (Hrefl : ∀ w, evolves w w) by exact evolves_refl.
  constructor; try exact Hrefl.
  - intros a b c (H1 & H2 & H4) (H1' & H2' & H4').
    repeat split.
    + exact (grows_trans _ userRel_trans _ _ _ H1 H1').
    + exact (grows_trans _ credentialRel_trans _ _ _ H2 H2').
    + refine (grows_trans _ _ _ _ _ H4 H4'). intros; congruence.
  - intros w id now eventType eventData userId ipAddress userAgent severity.
    destruct (Hrefl w) as (H1 & H2 & _).
    repeat split; trivial. simpl. now apply grows_app.
  - intros w id now username displayName email docs user Hcreate.
    apply createUser_inr in Hcreate. destruct Hcreate as (-> & _).
    destruct (Hrefl w) as (_ & H2 & H4).
    repeat split; trivial. simpl. now apply grows_app.
  - intros w id created now challenge type userId docs doc _.
    exact (Hrefl w).
  - intros w id. exact (Hrefl w).
  - intros w now id newCounter. destruct (Hrefl w) as (H1 & _ & H4).
    repeat split; trivial. simpl. apply grows_updateOne; trivial.
    intros c. unfold credentialRel. simpl. repeat split; lia.
  - intros w id. destruct (Hrefl w) as (H1 & _ & H4).
    repeat split; trivial. simpl. now apply grows_updateOne.
  - intros w id. destruct (Hrefl w) as (_ & H2 & H4).
    repeat split; trivial. simpl. apply grows_updateOne; trivial.
    intros u. unfold userRel. simpl. repeat split; lia.
  - intros w now id. destruct (Hrefl w) as (_ & H2 & H4).
    repeat split; trivial. simpl. apply grows_updateOne; trivial.
    intros u. unfold userRel. simpl. repeat split; lia.
Qed.

Lemma evolves_frame : Frame evolves.
Proof.
  pose proof credentialRel_refl as Hc.
  split; [exact evolves_frame0|].
  intros w now data docs doc Hcreate.
  apply createCredential_inr in Hcreate. destruct Hcreate as (-> & _).
  destruct (evolves_refl w) as (H1 & _ & H4).
  repeat split; trivial. simpl. now apply grows_app.
Qed.

Lemma evolves_otpFrame : otpFrame evolves.
Proof. intros w f g. exact (evolves_refl w). Qed.

Lemma evolves_ttlFrame : ttlFrame evolves.
Proof. intros w now batch. exact (evolves_refl w). Qed.

Lemma serve_evolves (ext : External) (history : list (Z * Call)) (w : World) :
  evolves w (serve ext history w).
Proof.
  exact (serve_keeps evolves evolves_frame evolves_otpFrame ext
           evolves_ttlFrame history w).
Qed.

Lemma Forall2_eq_same {A : Type} (l k : list A) : Forall2 eq l k → l = k.
Proof. induction 1; congruence. Qed.

(** X8 (every handler, [SecurityEventModel.logEvent]).  The audit trail is
    append-only: whatever the requests and timer expiries that the server
    handles, the events stored before are still there afterwards, in the
    same order and unchanged, followed by the events logged since. *)
Theorem audit_trail_is_append_only :
  ∀ (ext : External) (history : list (Z * Call)) (w : World),
    ∃ logged,
      securityEvents (serve ext history w) = securityEvents w ++ logged.
Proof.
  intros ext history w.
  destruct (serve_evolves ext history w) as (_ & _ & kept & logged & Heq & Hall).
  exists logged. rewrite Heq. f_equal. symmetry. now apply Forall2_eq_same.
Qed.

(** X9 (every handler; [createCredential], [updateCounter],
    [updateCredential]).  No request deletes a stored credential or binds
    it to another user or key: after any history of calls every credential
    stored before is still stored under the same id, with the same owner,
    public key, device type, transports and creation time, and a use count
    that has not decreased. *)
Theorem credential_binding_is_permanent :
  ∀ (ext : External) (history : list (Z * Call)) (w : World) (c : Credential),
    In c (credentials w) →
    ∃ c',
      In c' (credentials (serve ext history w))
      ∧ cr_id c' = cr_id c ∧ cr_userId c' = cr_userId c
      ∧ cr_publicKey c' = cr_publicKey c
      ∧ cr_deviceType c' = cr_deviceType c
      ∧ cr_transports c' = cr_transports c
      ∧ cr_createdAt c' = cr_createdAt c
      ∧ cr_useCount c <= cr_useCount c'.
Proof.
  intros ext history w c Hin.
  destruct (serve_evolves ext history w) as (_ & Hcreds & _).
  destruct (grows_In _ _ _ _ Hcreds Hin) as (c' & Hin' & Hrel).
  exists c'. split; [exact Hin'|exact Hrel].
Qed.

Lemma credential_binding_is_permanent_witness :
  ∃ c',
    In c' (credentials
             (serve demoExternal
                [(3000, FinishAuthentication (aliceAssertion "chal-bob"))]
                twoCeremonies))
    ∧ cr_id c' = cr_id aliceKey ∧ cr_userId c' = cr_userId aliceKey
    ∧ cr_publicKey c' = cr_publicKey aliceKey
    ∧ cr_deviceType c' = cr_deviceType aliceKey
    ∧ cr_transports c' = cr_transports aliceKey
    ∧ cr_createdAt c' = cr_createdAt aliceKey
    ∧ cr_useCount aliceKey <= cr_useCount c'.
Proof.
  apply (credential_binding_is_permanent demoExternal
           [(3000, FinishAuthentication (aliceAssertion "chal-bob"))]
           twoCeremonies aliceKey).
  simpl. now left.
Defined.

Section UpdateOneIn.
Context {A : Type} `{EqDecision A}.

Lemma updateOne_In (q : A → bool) (upd : A → A) (l : list A) (x : A) :
  In x (fst (Mongo.updateOne q upd l)) → In x l ∨ ∃ y, In y l ∧ x = upd y.
Proof.
  induction l as [|d rest IH]; simpl; [tauto|].
  destruct (q d); simpl.
  - intros [<-|Hin]; [right; exists d; auto|left; now right].
  - intros [<-|Hin]; [left; now left|].
    destruct (IH Hin) as [Hold|(y & Hy & ->)]; [left; now right|].
    right. exists y. auto.
Qed.

Lemma updateOne_keeps (q : A → bool) (upd : A → A) (l : list A) (y : A) :
  In y l → In y (fst (Mongo.updateOne q upd l))
           ∨ In (upd y) (fst (Mongo.updateOne q upd l)).
Proof.
  induction l as [|d rest IH]; simpl; [tauto|].
  destruct (q d); simpl.
  - intros [<-|Hin]; [right; now left|left; now right].
  - intros [<-|Hin]; [left; now left|].
    destruct (IH Hin); [left|right]; now right.
Qed.

End UpdateOneIn.

Lemma set_used_twice (c : Challenge) :
  set_used true (set_used true c) = set_used true c.
Proof. reflexivity. Qed.

Lemma set_used_used (c : Challenge) : ch_used c = true → set_used true c = c.
Proof. destruct c. simpl. now intros ->. Qed.

Lemma held_challenges (c : Challenge) (w w' : World) :
  challenges w' = challenges w → retains c w w'.
Proof. intros Heq (c' & Hin & Hrel). exists c'. now rewrite Heq. Qed.

Lemma retains_frame0 (c : Challenge) : Frame0 (retains c).
Proof.
  constructor; try (intros; now apply held_challenges).
  - intros a b d Hab Hbd Ha. exact (Hbd (Hab Ha)).
  - intros w id created now challenge type userId docs doc Hcreate.
    apply createChallenge_inr in Hcreate. destruct Hcreate as (-> & _).
    intros (c' & Hin & Hrel). exists c'. split; [|exact Hrel].
    simpl. apply in_or_app. now left.
  - intros w id (c' & Hin & Hrel). simpl.
    unfold ChallengeModel.markChallengeAsUsed. simpl.
    destruct (updateOne_keeps (ChallengeModel.byId id) (set_used true)
                (challenges w) c' Hin) as [Hkept|Hmarked].
    + exists c'. now split.
    + exists (set_used true c'). split; [exact Hmarked|].
      destruct Hrel as [->| ->]; [now right|].
      right. apply set_used_twice.
Qed.

Lemma retains_frame (c : Challenge) : Frame (retains c).
Proof.
  split; [apply retains_frame0|]. intros. now apply held_challenges.
Qed.

Lemma retains_otpFrame (c : Challenge) : otpFrame (retains c).
Proof. intros w f g. now apply held_challenges. Qed.

(** A pass of the TTL monitor before the expiry of [c] does not take it. *)
Lemma retains_ttlMonitor (c : Challenge) (w : World) (now : Z)
    (batch : Challenge → bool) :
  now < ch_expiresAt c →
  retains c w (with_challenges (ChallengeModel.ttlMonitor now batch) w).
Proof.
  intros Hnow (c' & Hin & Hrel). exists c'. split; [|exact Hrel].
  simpl. unfold ChallengeModel.ttlMonitor. apply filter_In.
  split; [exact Hin|].
  assert (ch_expiresAt c' = ch_expiresAt c) as ->
    by (destruct Hrel as [->| ->]; reflexivity).
  replace (ch_expiresAt c <=? now) with false by lia.
  now rewrite andb_false_r.
Qed.

Lemma serve_retains (ext : External) (c : Challenge)
    (history : list (Z * Call)) :
  sweptBefore (ch_expiresAt c) history →
  ∀ w, retains c w (serve ext history w).
Proof.
  induction history as [|[now call] rest IH]; intros Hswept w; simpl.
  - intros Hheld. exact Hheld.
  - intros Hheld. apply IH.
    + intros t batch Hin. apply (Hswept t batch). now right.
    + revert Hheld. destruct call;
        try (apply (handle_keeps_requests _ (retains_frame c)
                      (retains_otpFrame c)); discriminate).
      apply retains_ttlMonitor. apply (Hswept now batch). now left.
Qed.

(** X10 (every handler and the TTL index; [markChallengeAsUsed],
    [createChallenge]).  Until a challenge expires, the only thing that
    ever changes in it is [used], and only from false to true: after any
    history of calls in which the TTL monitor makes no pass at the
    challenge's expiry time or later, the challenge is still stored,
    either as it was or marked used, so a used challenge stays used and no
    request deletes a challenge, extends an expiry or swaps the random
    value or the owner. *)
Theorem challenges_only_become_used :
  ∀ (ext : External) (history : list (Z * Call)) (w : World) (c : Challenge),
    In c (challenges w) →
    sweptBefore (ch_expiresAt c) history →
    (In c (challenges (serve ext history w))
     ∨ In (set_used true c) (challenges (serve ext history w)))
    ∧ (ch_used c = true → In c (challenges (serve ext history w))).
Proof.
  intros ext history w c Hin Hswept.
  destruct (serve_retains ext c history Hswept w) as (c' & Hin' & Hrel).
  { exists c. split; [exact Hin|now left]. }
  destruct Hrel as [->| ->].
  - split; [now left|trivial].
  - split; [now right|]. intros Hused.
    now rewrite <- (set_used_used c Hused) at 1.
Qed.

Lemma challenges_only_become_used_witness :
  In (set_used true bobChallenge)
     (challenges
        (serve demoExternal
           [(3000, FinishAuthentication (aliceAssertion "chal-bob"));
            (4000, TtlMonitor (λ _, true))]
           twoCeremonies)).
Proof.
  destruct (challenges_only_become_used demoExternal
              [(3000, FinishAuthentication (aliceAssertion "chal-bob"));
               (4000, TtlMonitor (λ _, true))]
              twoCeremonies bobChallenge) as [[Hin|Hin] _].
  - simpl. right. now left.
  - intros now batch [Hcall|[Hcall|[]]]; [discriminate|].
    injection Hcall as <- _. reflexivity.
  - exfalso. vm_compute in Hin. intuition discriminate.
  - exact Hin.
Defined.

(** X11 (every handler; [createUser], [incrementPasskeyRegistrations],
    [incrementSuccessfulAuthentications]).  No request deletes a user or
    changes a user's id, username, email, display name, creation time or
    active flag; the counters of passkey registrations and successful
    authentications never decrease; and [failedAuthentications] and
    [otpFallbackUsage] never change at all: no handler counts a failed
    authentication or an OTP fallback on the user. *)
Theorem users_are_kept_and_failures_never_counted :
  ∀ (ext : External) (history : list (Z * Call)) (w : World) (u : User),
    In u (users w) →
    ∃ u',
      In u' (users (serve ext history w))
      ∧ u_id u' = u_id u ∧ u_username u' = u_username u
      ∧ u_email u' = u_email u ∧ u_displayName u' = u_displayName u
      ∧ u_createdAt u' = u_createdAt u ∧ u_isActive u' = u_isActive u
      ∧ u_otpFallbackUsage u' = u_otpFallbackUsage u
      ∧ u_failedAuthentications u' = u_failedAuthentications u
      ∧ u_passkeyRegistrations u <= u_passkeyRegistrations u'
      ∧ u_successfulAuthentications u <= u_successfulAuthentications u'.
Proof.
  intros ext history w u Hin.
  destruct (serve_evolves ext history w) as (Husers & _).
  destruct (grows_In _ _ _ _ Husers Hin) as (u' & Hin' & Hrel).
  exists u'. split; [exact Hin'|exact Hrel].
Qed.

Lemma users_are_kept_and_failures_never_counted_witness :
  ∃ u',
    In u' (users
             (serve demoExternal
                [(5000, FinishAuthentication (aliceAssertion "wrong"))]
                twoCeremonies))
    ∧ u_id u' = u_id alice ∧ u_username u' = u_username alice
    ∧ u_email u' = u_email alice ∧ u_displayName u' = u_displayName alice
    ∧ u_createdAt u' = u_createdAt alice ∧ u_isActive u' = u_isActive alice
    ∧ u_otpFallbackUsage u' = u_otpFallbackUsage alice
    ∧ u_failedAuthentications u' = u_failedAuthentications alice
    ∧ u_passkeyRegistrations alice <= u_passkeyRegistrations u'
    ∧ u_successfulAuthentications alice <= u_successfulAuthentications u'.
Proof.
  apply (users_are_kept_and_failures_never_counted demoExternal
           [(5000, FinishAuthentication (aliceAssertion "wrong"))]
           twoCeremonies alice).
  simpl. now left.
Defined.

(** ** The unique indexes *)

Section UpdateKeys.
Context {A B : Type} `{EqDecision A}.

Lemma map_updateOne (key : A → B) (q : A → bool) (upd : A → A) (l : list A) :
  (∀ x, key (upd x) = key x) →
  map key (fst (Mongo.updateOne q upd l)) = map key l.
Proof.
  intros Hkey. induction l as [|d rest IH]; simpl; [reflexivity|].
  destruct (q d); simpl; [now rewrite Hkey|now rewrite IH].
Qed.

Lemma omap_head (key : A → option B) (x : A) (l : list A) :
  omap key (x :: l)
  = match key x with Some y => y :: omap key l | None => omap key l end.
Proof. reflexivity. Qed.

Lemma omap_updateOne (key : A → option B) (q : A → bool) (upd : A → A)
    (l : list A) :
  (∀ x, key (upd x) = key x) →
  omap key (fst (Mongo.updateOne q upd l)) = omap key l.
Proof.
  intros Hkey. induction l as [|d rest IH]; [reflexivity|].
  cbn [Mongo.updateOne]. destruct (q d); cbn [fst].
  - rewrite !omap_head, Hkey. reflexivity.
  - rewrite !omap_head, IH. reflexivity.
Qed.

Lemma NoDup_snoc_map (key : A → B) (l : list A) (x : A) :
  NoDup (map key l) →
  (∀ d, In d l → key d ≠ key x) →
  NoDup (map key (l ++ [x])).
Proof.
  intros Hnodup Hfresh. rewrite map_app. apply NoDup_app.
  split; [exact Hnodup|split].
  - intros k Hk Hk'. simpl in Hk'. apply list_elem_of_In in Hk'.
    destruct Hk' as [<-|[]].
    apply list_elem_of_In, in_map_iff in Hk. destruct Hk as (d & Heq & Hin).
    exact (Hfresh d Hin Heq).
  - simpl. apply NoDup_singleton.
Qed.

End UpdateKeys.

Lemma uniqueKeys_frame0 : Frame0 (λ w w', uniqueKeys w → uniqueKeys w').
Proof.
  constructor; try (intros; assumption); try tauto.
  - intros w id now username displayName email docs user Hcreate
      (Hid & Hname & Hemail & Hrest).
    apply createUser_inr in Hcreate. destruct Hcreate as (-> & Hfree & Huser).
    unfold uniqueKeys. simpl. repeat split; try tauto.
    + apply NoDup_snoc_map; [exact Hid|]. intros d Hin Heq.
      specialize (Hfree d Hin). unfold UserModel.clash in Hfree.
      rewrite <- Heq, String.eqb_refl in Hfree.
      now rewrite orb_true_r in Hfree.
    + apply NoDup_snoc_map; [exact Hname|]. intros d Hin Heq.
      specialize (Hfree d Hin). unfold UserModel.clash in Hfree.
      rewrite <- Heq, String.eqb_refl in Hfree. discriminate.
    + rewrite omap_app. apply NoDup_app. split; [exact Hemail|split].
      * intros e He He'. simpl in He'.
        destruct (u_email user) as [e'|] eqn:Hmail; simpl in He';
          apply list_elem_of_In in He';
          [destruct He' as [<-|[]]|destruct He'].
        apply list_elem_of_omap in He. destruct He as (d & Hin & Hd).
        apply list_elem_of_In in Hin.
        specialize (Hfree d Hin). unfold UserModel.clash in Hfree.
        rewrite Hmail, Hd, String.eqb_refl in Hfree.
        now rewrite orb_true_r in Hfree.
      * simpl. destruct (u_email user); simpl;
          [apply NoDup_singleton|apply NoDup_nil_2].
  - intros w id created now challenge type userId docs doc Hcreate
      (Hid & Hname & Hemail & Hcred & Hch).
    apply createChallenge_inr in Hcreate. destruct Hcreate as (-> & Hfree & _).
    unfold uniqueKeys. simpl. repeat split; trivial.
    apply NoDup_snoc_map; [exact Hch|]. intros d Hin Heq.
    specialize (Hfree d Hin). unfold ChallengeModel.clash in Hfree.
    rewrite <- Heq, String.eqb_refl in Hfree. discriminate.
  - intros w id (Hid & Hname & Hemail & Hcred & Hch).
    unfold uniqueKeys. simpl. repeat split; trivial.
    rewrite map_updateOne; trivial.
  - intros w now id newCounter (Hid & Hname & Hemail & Hcred & Hch).
    unfold uniqueKeys. simpl. repeat split; trivial.
    rewrite map_updateOne; trivial.
  - intros w id (Hid & Hname & Hemail & Hcred & Hch).
    unfold uniqueKeys. simpl. repeat split; trivial.
    rewrite map_updateOne; trivial.
  - intros w id (Hid & Hname & Hemail & Hcred & Hch).
    unfold uniqueKeys. simpl. repeat split; trivial.
    + rewrite map_updateOne; trivial.
    + rewrite map_updateOne; trivial.
    + rewrite omap_updateOne; trivial.
  - intros w now id (Hid & Hname & Hemail & Hcred & Hch).
    unfold uniqueKeys. simpl. repeat split; trivial.
    + rewrite map_updateOne; trivial.
    + rewrite map_updateOne; trivial.
    + rewrite omap_updateOne; trivial.
Qed.

Lemma uniqueKeys_frame : Frame (λ w w', uniqueKeys w → uniqueKeys w').
Proof.
  split; [exact uniqueKeys_frame0|].
  intros w now data docs doc Hcreate (Hid & Hname & Hemail & Hcred & Hch).
  apply createCredential_inr in Hcreate. destruct Hcreate as (-> & Hfree & _).
  unfold uniqueKeys. simpl. repeat split; trivial.
  apply NoDup_snoc_map; [exact Hcred|]. intros d Hin Heq.
  specialize (Hfree d Hin). unfold CredentialModel.clash in Hfree.
  rewrite <- Heq, String.eqb_refl in Hfree. discriminate.
Qed.

Lemma NoDup_map_filter {A B : Type} (key : A → B) (p : A → bool)
    (l : list A) :
  NoDup (map key l) → NoDup (map key (List.filter p l)).
Proof.
  induction l as [|x l IH]; simpl; [trivial|].
  intros Hnd. apply NoDup_cons in Hnd. destruct Hnd as [Hx Hl].
  destruct (p x); simpl; [|auto].
  apply NoDup_cons. split; [|auto].
  intros Hin. apply Hx. apply list_elem_of_In in Hin. apply list_elem_of_In.
  apply in_map_iff in Hin. destruct Hin as (y & Hy & Hin).
  apply filter_In in Hin. apply in_map_iff. exists y. tauto.
Qed.

Lemma uniqueKeys_ttlFrame : ttlFrame (λ w w', uniqueKeys w → uniqueKeys w').
Proof.
  intros w now batch (Hid & Hname & Hemail & Hcred & Hch).
  unfold uniqueKeys. simpl. repeat split; trivial.
  now apply NoDup_map_filter.
Qed.

(** X12 (every handler; the unique indexes of [createIndexes]).  In every
    state the server can reach from an empty database, whatever the ids
    the generator returns, no two users share an id, a username or an
    email, no two credentials share an id and no two challenges share an
    id: an insert that would break this is refused and every update keeps
    the keys. *)
Theorem reachable_states_have_unique_keys :
  ∀ (ext : External) (history : list (Z * Call)),
    uniqueKeys (serve ext history emptyWorld).
Proof.
  intros ext history.
  apply (serve_keeps _ uniqueKeys_frame (λ w f g H, H) ext uniqueKeys_ttlFrame
           history emptyWorld).
  unfold uniqueKeys, emptyWorld. simpl. repeat split; apply NoDup_nil_2.
Qed.

(* ===================================================================== *)
(** * Further properties of the WebAuthn controller                       *)
(* ===================================================================== *)

Lemma with_credentials_same (w : World) : with_credentials (λ docs, docs) w = w.
Proof. now destruct w. Qed.

Lemma migrate_state (ext : External) (credentialId : string)
    (stored : Credential) (w : World) :
  snd (WebAuthnController.migrate ext credentialId stored w) = w.
Proof.
  unfold WebAuthnController.migrate.
  destruct (negb (String.eqb _ _) && _); [|reflexivity].
  unfold_handler. simpl. unfold CredentialModel.updateCredentialEmpty.
  destruct w. unfold with_credentials. simpl. f_equal.
  now rewrite updateOne_identity.
Qed.

Lemma buffersMatch_sameBytes (ext : External) (a b : string) :
  match isoToBuffer ext a, isoToBuffer ext b with
  | inr storedBuf, inr receivedBuf => bool_decide (storedBuf = receivedBuf)
  | _, _ => false
  end = true ↔ sameBytes ext a b.
Proof.
  unfold sameBytes.
  destruct (isoToBuffer ext a) as [e|x]; destruct (isoToBuffer ext b) as [e'|y].
  - split; [discriminate|]. intros (bytes & [=] & _).
  - split; [discriminate|]. intros (bytes & [=] & _).
  - split; [discriminate|]. intros (bytes & _ & [=]).
  - rewrite bool_decide_eq_true. split.
    + intros ->. now exists y.
    + intros (bytes & [= ->] & [= ->]). reflexivity.
Qed.

(** X13 ([finishAuthentication], the migration step; [updateCredential]).
    The step "produce canonical credential ID and optionally persist
    migration" persists nothing: it never throws and leaves the whole
    state as it was, because the update it sends is empty.  What it
    returns is a copy of the stored record that carries the canonical id,
    while the database keeps the old one, exactly when the stored id is
    not canonical and the library decoder reads the same bytes in the
    canonical forms of the stored and of the received id; in every other
    case it returns the stored record. *)
Theorem migrate_persists_nothing :
  ∀ (ext : External) (credentialId : string) (stored : Credential) (w : World),
    let canon := canonical (canonicalize (cr_id stored)) in
    let migrates :=
      canon ≠ cr_id stored
      ∧ sameBytes ext canon (canonical (canonicalize credentialId)) in
    ∃ record,
      WebAuthnController.migrate ext credentialId stored w = (inr record, w)
      ∧ (migrates ∧ record = WebAuthnController.set_cr_id canon stored
         ∨ ¬ migrates ∧ record = stored).
Proof.
  intros ext credentialId stored w canon migrates.
  unfold WebAuthnController.migrate. fold canon.
  pose proof (buffersMatch_sameBytes ext canon
                (canonical (canonicalize credentialId))) as Hbytes.
  destruct (match isoToBuffer ext canon with inr _ => _ | inl _ => _ end)
    eqn:Hmatch.
  - destruct (String.eqb canon (cr_id stored)) eqn:Heq; simpl.
    + exists stored. split; [reflexivity|]. right. split; [|reflexivity].
      intros [Hne _]. apply String.eqb_eq in Heq. contradiction.
    + eexists. split.
      * unfold_handler. simpl. unfold CredentialModel.updateCredentialEmpty.
        f_equal.
        transitivity (with_credentials (λ docs, docs) w);
          [|apply with_credentials_same].
        destruct w. unfold with_credentials. simpl. f_equal.
        now rewrite updateOne_identity.
      * left. split; [|reflexivity]. split.
        -- now apply String.eqb_neq.
        -- now apply Hbytes.
  - rewrite andb_false_r. exists stored. split; [reflexivity|].
    right. split; [|reflexivity]. intros [_ Hsame].
    apply Hbytes in Hsame. discriminate.
Qed.






(** ** What a failed call leaves behind *)

Lemma sameDatabase_refl (w : World) : sameDatabase w w.
Proof. repeat split. Qed.


Section Atomic.
Context {A B : Type}.















End Atomic.

Section AtomicSteps.
Context (ext : External).














End AtomicSteps.








(** ** What a successful authentication writes *)

Lemma orElse_Some_empty (s : string) : orElse (Some s) "" = s.
Proof.
  unfold orElse, truthy. destruct (String.eqb s "") eqn:Hs; simpl; [|reflexivity].
  apply String.eqb_eq in Hs. now subst.
Qed.

Lemma finishAuthentication_success_eq (ext : External) (now : Z)
    (req : Request FinishBody) (w w' : World) (response : VerifiedResponse) :
  let credential := fb_credential (body req) in
  let credentialId :=
    if String.eqb (cj_rawId credential) "" then cj_id credential
    else cj_rawId credential in
  WebAuthnController.finishAuthentication ext now req w = (inr response, w') →
  ∃ authUser stored record challenge verification,
    fst (WebAuthnController.resolveAuthUser credential w) = inr authUser
    ∧ WebAuthnController.lookupCredential ext credentialId authUser w
      = Some stored
    ∧ fst (WebAuthnController.migrate ext credentialId stored w) = inr record
    ∧ ChallengeModel.findValidChallenge now authentication None (challenges w)
      = Some challenge
    ∧ WebAuthnController.verifyAssertion ext credential record (cr_id stored)
        challenge = inr verification
    ∧ va_verified verification = true
    ∧ users w'
      = fst (UserModel.incrementSuccessfulAuthentications now
               (cr_userId record) (users w))
    ∧ credentials w'
      = fst (CredentialModel.updateCounter now (cr_id record)
               (va_newCounter verification) (credentials w))
    ∧ challenges w'
      = fst (ChallengeModel.markChallengeAsUsed (ch_id challenge) (challenges w))
    ∧ securityEvents w'
      = securityEvents w
        ++ [mkSecurityEvent (nanoid ext (drawn w)) (cr_userId record)
              "authentication_success"
              [("credentialId"%string, JStr (cr_id record))]
              (orElse (ip req) "") (orElse (userAgent req) "") now low]
    ∧ response
      = (let user := UserModel.findById (cr_userId record) (users w') in
         mkVerifiedResponse true
           (mkUserSummary (u_id <$> user) (u_username <$> user) None None)).
Proof.
  cbv zeta. unfold WebAuthnController.finishAuthentication.
  unfold bind at 1.
  destruct (resolveAuthUser_pure (fb_credential (body req)) w) as [Hw [u Hu]].
  pose proof Hu as Hresolved.
  destruct (WebAuthnController.resolveAuthUser _ w) as [r w0].
  simpl in Hw, Hu. subst w0 r.
  unfold bind at 1. unfold gets at 1.
  destruct (WebAuthnController.lookupCredential _ _ _ w) as [stored|] eqn:Hlookup;
    [|unfold throw; discriminate].
  unfold bind at 1.
  match goal with
  | |- context [WebAuthnController.migrate ext ?i stored w] =>
      pose proof (migrate_state ext i stored w) as Hstate;
      destruct (migrate_events ext i stored w) as (_ & _ & record & Hrec);
      destruct (WebAuthnController.migrate ext i stored w) as [rm wm] eqn:Hmig
  end.
  simpl in Hstate, Hrec. subst wm rm.
  unfold bind at 1. unfold gets at 1.
  destruct (ChallengeModel.findValidChallenge _ _ _ _) as [challenge|] eqn:Hpending;
    [|unfold throw; discriminate].
  unfold bind at 1, tryCatch, lift.
  destruct (WebAuthnController.verifyAssertion _ _ _ _ _) as [e|v] eqn:Hverify.
  - unfold WebAuthnController.logEvent, WebAuthnController.fresh.
    unfold_handler. simpl. discriminate.
  - destruct (va_verified v) eqn:Hverified; simpl.
    + unfold WebAuthnController.updateCounter,
        WebAuthnController.markChallengeAsUsed,
        WebAuthnController.incrementSuccessfulAuthentications,
        WebAuthnController.logEvent, WebAuthnController.fresh.
      unfold_handler. simpl. intros [= <- <-].
      exists u, stored, record, challenge, v. simpl.
      rewrite orElse_Some_empty, Hmig. repeat split; trivial.
    + unfold_handler. discriminate.
Qed.





Lemma finishAuthentication_without_challenge_eq (ext : External) (now : Z)
    (req : Request FinishBody) (w w' : World) (res : exn + VerifiedResponse) :
  ChallengeModel.findValidChallenge now authentication None (challenges w)
  = None →
  WebAuthnController.finishAuthentication ext now req w = (res, w') →
  res = inl (AppError "Credential not found" 404)
  ∨ res = inl (AppError "Invalid or expired challenge" 400).
Proof.
  intros Hnone. unfold WebAuthnController.finishAuthentication.
  unfold bind at 1.
  destruct (resolveAuthUser_pure (fb_credential (body req)) w) as [Hw [u Hu]].
  destruct (WebAuthnController.resolveAuthUser _ w) as [r w0].
  simpl in Hw, Hu. subst w0 r.
  unfold bind at 1. unfold gets at 1.
  destruct (WebAuthnController.lookupCredential _ _ _ w) as [stored|];
    [|unfold throw; intros [= <- <-]; now left].
  unfold bind at 1.
  match goal with
  | |- context [WebAuthnController.migrate ext ?i stored w] =>
      pose proof (migrate_state ext i stored w) as Hstate;
      destruct (migrate_events ext i stored w) as (_ & _ & record & Hrec);
      destruct (WebAuthnController.migrate ext i stored w) as [rm wm]
  end.
  simpl in Hstate, Hrec. subst wm rm.
  unfold bind at 1. unfold gets at 1. rewrite Hnone.
  unfold throw; intros [= <- <-]. now right.
Qed.

Lemma finishAuthentication_without_challenge (ext : External) (now : Z)
    (req : Request FinishBody) (w : World) :
  ChallengeModel.findValidChallenge now authentication None (challenges w)
  = None →
  fst (WebAuthnController.finishAuthentication ext now req w)
  = inl (AppError "Credential not found" 404)
  ∨ fst (WebAuthnController.finishAuthentication ext now req w)
    = inl (AppError "Invalid or expired challenge" 400).
Proof.
  intros Hnone.
  destruct (WebAuthnController.finishAuthentication ext now req w)
    as [res w'] eqn:Hrun.
  exact (finishAuthentication_without_challenge_eq ext now req w w' res
           Hnone Hrun).
Qed.

(** X16 ([finishAuthentication], [markChallengeAsUsed]).  Once a
    successful authentication has completed, its challenge is consumed for
    the calls that follow: if, at some time, the only authentication
    challenge that would still be pending in the state before is the one
    the successful call verified against, then every
    [finishAuthentication] made at that time on the state the call left,
    with the same or any other assertion, fails with "Credential not
    found" or "Invalid or expired challenge".  This is about a call that
    starts when the successful one has returned; the handler reads the
    challenge and marks it used in separate steps, and a call that
    overlaps it is not covered. *)
Theorem consumed_challenge_is_refused_afterwards :
  ∀ (ext : External) (now later : Z) (req replay : Request FinishBody)
    (w w' : World) (response : VerifiedResponse),
    WebAuthnController.finishAuthentication ext now req w = (inr response, w') →
    NoDup (map ch_id (challenges w)) →
    (∀ c, In c (challenges w) →
          ChallengeModel.validQuery later authentication None c = true →
          ChallengeModel.findValidChallenge now authentication None
            (challenges w) = Some c) →
    fst (WebAuthnController.finishAuthentication ext later replay w')
    = inl (AppError "Credential not found" 404)
    ∨ fst (WebAuthnController.finishAuthentication ext later replay w')
      = inl (AppError "Invalid or expired challenge" 400).
Proof.
  intros ext now later req replay w w' response Hrun Hnodup Honly.
  apply finishAuthentication_success_eq in Hrun.
  destruct Hrun as (authUser & stored & record & challenge & v & _ & _ & _
                    & Hpending & _ & _ & _ & _ & Hchallenges & _).
  apply finishAuthentication_without_challenge.
  rewrite Hchallenges, findValidChallenge_marked by exact Hnodup.
  pose proof (findOneSorted_spec
                (ChallengeModel.validQuery later authentication None)
                ch_createdAt
                (List.filter
                   (λ c, negb (ChallengeModel.byId (ch_id challenge) c))
                   (challenges w))) as Hspec.
  unfold ChallengeModel.findValidChallenge.
  destruct (Mongo.findOneSorted _ _ _) as [m|]; [|reflexivity].
  destruct Hspec as (Hin & Hvalid & _).
  apply filter_In in Hin. destruct Hin as [Hin Hother].
  specialize (Honly m Hin Hvalid). rewrite Hpending in Honly.
  injection Honly as ->.
  unfold ChallengeModel.byId in Hother. rewrite String.eqb_refl in Hother.
  discriminate.
Qed.

Lemma consumed_challenge_is_refused_afterwards_witness :
  fst (WebAuthnController.finishAuthentication demoExternal 3000
         (aliceAssertion "chal-alice") aliceOnly)
  = inr (mkVerifiedResponse true
           (mkUserSummary (Some "u-alice"%string) (Some "alice"%string)
                          None None))
  ∧ fst (WebAuthnController.finishAuthentication demoExternal 4000
           (aliceAssertion "chal-alice")
           (snd (WebAuthnController.finishAuthentication demoExternal 3000
                   (aliceAssertion "chal-alice") aliceOnly)))
    = inl (AppError "Invalid or expired challenge" 400).
Proof.
  split; [reflexivity|].
  destruct (consumed_challenge_is_refused_afterwards demoExternal 3000 4000
              (aliceAssertion "chal-alice") (aliceAssertion "chal-alice")
              aliceOnly
              (snd (WebAuthnController.finishAuthentication demoExternal 3000
                      (aliceAssertion "chal-alice") aliceOnly))
              (mkVerifiedResponse true
                 (mkUserSummary (Some "u-alice"%string) (Some "alice"%string)
                                None None)))
    as [Hgone|Hrejected].
  - reflexivity.
  - simpl. apply NoDup_singleton.
  - intros c [<-|[]] _. reflexivity.
  - exfalso. vm_compute in Hgone. discriminate.
  - exact Hrejected.
Defined.



(** With a verifier that keeps the library's counter rule, a successful
    authentication by a credential stored under its canonical id writes
    the verifier's new counter under that credential's id, and the new
    counter is strictly greater than the stored one unless both are
    zero. *)
Lemma finishAuthentication_counter_advances (ext : External) (now : Z)
    (req : Request FinishBody) (w w' : World) (response : VerifiedResponse) :
  counterRule ext →
  WebAuthnController.finishAuthentication ext now req w = (inr response, w') →
  ∃ authUser stored newCounter,
    WebAuthnController.lookupCredential ext
      (presentedId (fb_credential (body req))) authUser w = Some stored
    ∧ (canonical (canonicalize (cr_id stored)) = cr_id stored →
       credentials w'
       = fst (CredentialModel.updateCounter now (cr_id stored) newCounter
                (credentials w))
       ∧ (cr_counter stored < newCounter
          ∨ cr_counter stored = 0 ∧ newCounter = 0)).
Proof.
  intros Hrule Hrun. apply finishAuthentication_success_eq in Hrun.
  destruct Hrun as (authUser & stored & record & challenge & v & _ & Hlookup
                    & Hmig & _ & Hverify & _ & _ & Hcredentials & _).
  exists authUser, stored, (va_newCounter v). split; [exact Hlookup|].
  intros Hcanon.
  rewrite (migrate_canonical ext _ stored w Hcanon) in Hmig.
  injection Hmig as <-. split; [exact Hcredentials|].
  unfold WebAuthnController.verifyAssertion in Hverify.
  destruct (match isoToBuffer ext _ with inr _ => _ | inl _ => _ end)
    as [e|credentialID]; [discriminate|].
  exact (Hrule _ _ Hverify).
Qed.

(** X18 ([finishAuthentication], migration step and [updateCounter]).  A
    credential stored under an id that is not in canonical form never gets
    its counter updated.  When the assertion presents the id as stored,
    that id is not canonical, the decoder accepts the canonical form and
    no credential is stored under the canonical form, a successful
    [finishAuthentication] leaves the credentials collection exactly as it
    was: the counter update is addressed to the canonical id, which the
    migration step never wrote, so the stored counter, [lastUsedAt] and
    [useCount] stay what they were. *)
Theorem noncanonical_stored_id_freezes_counter :
  ∀ (ext : External) (now : Z) (req : Request FinishBody) (w w' : World)
    (response : VerifiedResponse) (stored : Credential) (decoded : Buffer),
    let credential := fb_credential (body req) in
    let credentialId :=
      if String.eqb (cj_rawId credential) "" then cj_id credential
      else cj_rawId credential in
    WebAuthnController.finishAuthentication ext now req w = (inr response, w') →
    CredentialModel.findById credentialId (credentials w) = Some stored →
    canonical (canonicalize credentialId) ≠ credentialId →
    isoToBuffer ext (canonical (canonicalize credentialId)) = inr decoded →
    CredentialModel.findById (canonical (canonicalize credentialId))
      (credentials w) = None →
    credentials w' = credentials w.
Proof.
  intros ext now req w w' response stored decoded credential credentialId
    Hrun Hfound Hnoncanon Hdecoded Hfree.
  apply finishAuthentication_success_eq in Hrun.
  fold credential in Hrun. fold credentialId in Hrun.
  destruct Hrun as (authUser & stored' & record & challenge & v & _ & Hlookup
                    & Hmig & _ & _ & _ & _ & Hcredentials & _).
  rewrite (lookupCredential_direct ext credentialId authUser w stored Hfound)
    in Hlookup.
  injection Hlookup as <-.
  assert (cr_id stored = credentialId) as Hid.
  { apply findOne_Some_true in Hfound. destruct Hfound as [_ Hq].
    now apply String.eqb_eq in Hq. }
  assert (cr_id record = canonical (canonicalize credentialId)) as Hrecord.
  { revert Hmig. unfold WebAuthnController.migrate. rewrite Hid, Hdecoded.
    apply String.eqb_neq in Hnoncanon. rewrite Hnoncanon.
    rewrite bool_decide_eq_true_2 by reflexivity. simpl.
    unfold_handler. simpl. now intros [= <-]. }
  rewrite Hcredentials, Hrecord.
  now rewrite (updateCounter_absent now _ _ _ Hfree).
Qed.

Lemma noncanonical_stored_id_freezes_counter_witness :
  fst (WebAuthnController.finishAuthentication demoExternal 3000
         legacyAssertion legacyWorld)
  = inr (mkVerifiedResponse true
           (mkUserSummary (Some "u-alice"%string) (Some "alice"%string)
                          None None))
  ∧ credentials
      (snd (WebAuthnController.finishAuthentication demoExternal 3000
              legacyAssertion legacyWorld))
    = [legacyKey].
Proof.
  split; [reflexivity|].
  apply (noncanonical_stored_id_freezes_counter demoExternal 3000
           legacyAssertion legacyWorld _
           (mkVerifiedResponse true
              (mkUserSummary (Some "u-alice"%string) (Some "alice"%string)
                             None None))
           legacyKey [0; 1; 2; 3; 4; 5; 6; 7]%N).
  - reflexivity.
  - reflexivity.
  - vm_compute. discriminate.
  - reflexivity.
  - reflexivity.
Defined.

(** ** The registration ceremony *)

Lemma createIfEmailFree_eq (ext : External) (now : Z) (username : string)
    (displayName email : option string) (w w' : World) (res : exn + User) :
  WebAuthnController.createIfEmailFree ext now username displayName email w
  = (res, w') →
  match res with
  | inr user =>
      UserModel.createUser (nanoid ext (drawn w)) now username displayName
        email (users w) = inr (users w ++ [user], user)
      ∧ w' = with_users (λ _, users w ++ [user]) (with_drawn S w)
  | inl e => sameDatabase w w'
  end.
Proof.
  unfold WebAuthnController.createIfEmailFree, WebAuthnController.createUser,
    WebAuthnController.fresh.
  destruct (truthy email).
  - unfold_handler. destruct (UserModel.findByEmail _ _); simpl.
    + intros [= <- <-]. apply sameDatabase_refl.
    + destruct (UserModel.createUser _ _ _ _ _ _) as [e|[docs user]] eqn:Hc;
        simpl; intros [= <- <-].
      * repeat split.
      * apply createUser_inr in Hc. destruct Hc as (-> & _). now split.
  - unfold_handler. simpl.
    destruct (UserModel.createUser _ _ _ _ _ _) as [e|[docs user]] eqn:Hc;
      simpl; intros [= <- <-].
    + repeat split.
    + apply createUser_inr in Hc. destruct Hc as (-> & _). now split.
Qed.

Lemma startRegistration_new_user_eq (ext : External) (now : Z)
    (req : Request RegistrationStartBody) (w w' : World)
    (response : RegistrationStartResponse) :
  UserModel.findByUsernameOrEmail (rs_username (body req)) (users w) = None →
  WebAuthnController.startRegistration ext now req w = (inr response, w') →
  ∃ user challenge,
    UserModel.createUser (nanoid ext (drawn w)) now (rs_username (body req))
      (rs_displayName (body req)) (rs_email (body req)) (users w)
    = inr (users w ++ [user], user)
    ∧ users w' = users w ++ [user]
    ∧ credentials w' = credentials w
    ∧ challenges w' = challenges w ++ [challenge]
    ∧ challenge
      = mkChallenge (nanoid ext (S (drawn w))) (orElse (Some (u_id user)) "")
          (opt_challenge (rsr_options response)) registration now
          (now + 5 * 60 * 1000) false
    ∧ Mongo.findOne (ChallengeModel.byId (ch_id challenge)) (challenges w)
      = None
    ∧ rsr_user response
      = mkUserSummary (Some (u_id user)) (Some (u_username user))
          (u_displayName user) None.
Proof.
  intros Hunknown. unfold WebAuthnController.startRegistration. cbv zeta.
  destruct (String.eqb (rs_username (body req)) "");
    [unfold throw; discriminate|].
  unfold bind at 1. unfold gets at 1. rewrite Hunknown.
  unfold bind at 1.
  pose proof (createIfEmailFree_eq ext now (rs_username (body req))
                (rs_displayName (body req)) (rs_email (body req)) w) as Hcreate.
  destruct (WebAuthnController.createIfEmailFree _ _ _ _ _ w) as [[e|user] w1];
    [discriminate|].
  destruct (Hcreate w1 (inr user) eq_refl) as [Hinsert ->]. clear Hcreate.
  unfold bind at 1. unfold gets at 1.
  unfold bind at 1. unfold lift at 1.
  destruct (generateRegistrationOptions ext _) as [e|options]; [discriminate|].
  unfold WebAuthnController.createChallenge, WebAuthnController.logEvent,
    WebAuthnController.fresh.
  unfold_handler. simpl.
  destruct (ChallengeModel.createChallenge _ _ _ _ _ _ _ _) as [e|[docs doc]] eqn:Hc;
    simpl; [discriminate|].
  intros [= <- <-]. simpl.
  apply createChallenge_inr in Hc. destruct Hc as (-> & Hfree & ->).
  exists user. eexists. repeat split; try reflexivity; try exact Hinsert.
  simpl. apply findOne_None_all. intros d Hin.
  specialize (Hfree d Hin). now rewrite clash_byId in Hfree.
Qed.

Lemma updateOne_app_fresh {A : Type} `{EqDecision A} (q : A → bool)
    (upd : A → A) (docs : list A) (d : A) :
  Mongo.findOne q docs = None →
  fst (Mongo.updateOne q upd (docs ++ [d]))
  = docs ++ [if q d then upd d else d].
Proof.
  unfold Mongo.findOne.
  induction docs as [|x rest IH]; simpl.
  - intros _. now destruct (q d).
  - destruct (q x); [discriminate|]. intros Hnone. simpl. now rewrite IH.
Qed.

(** X19 ([startRegistration] then [finishRegistration]).  The registration
    ceremony of a new handle, end to end.  If [startRegistration] succeeds
    for a handle that resolved to no user, and within five minutes the
    finish request names the same handle and the verifier accepts the
    response against the challenge of the options returned, for a
    credential id not yet stored, then [finishRegistration] succeeds: the
    new user's only credential is the verified one (id in unpadded
    base64url, public key and counter as the verifier reports them, use
    count 0), the ceremony's challenge is now used, the user's
    [passkeyRegistrations] is 1 and the response reports a credential
    count of 1. *)
Theorem registration_ceremony_enrols_credential :
  ∀ (ext : External) (now later : Z) (start : Request RegistrationStartBody)
    (finish : Request FinishBody) (w w1 : World)
    (started : RegistrationStartResponse) (info : RegistrationInfo),
    UserModel.findByUsernameOrEmail (rs_username (body start)) (users w) = None →
    WebAuthnController.startRegistration ext now start w = (inr started, w1) →
    fb_username (body finish) = Some (rs_username (body start)) →
    later < now + 300000 →
    (∀ d, In d (challenges w) →
          ChallengeModel.validQuery later registration
            (us_id (rsr_user started)) d = true →
          ch_createdAt d < now) →
    verifyRegistrationResponse ext
      (mkRegistrationVerifyArgs (fb_credential (body finish))
         (opt_challenge (rsr_options started))
         (CORS_ORIGINS (env ext)) (RP_ID (env ext)))
    = inr (mkVerifiedRegistration true (Some info)) →
    CredentialModel.findById (Node.base64urlEncode (ri_credentialID info))
      (credentials w) = None →
    ∃ finished w2 user challenge,
      WebAuthnController.finishRegistration ext later finish w1
      = (inr finished, w2)
      ∧ us_id (rsr_user started) = Some (u_id user)
      ∧ users w1 = users w ++ [user]
      ∧ u_passkeyRegistrations user = 0
      ∧ users w2
        = users w
          ++ [mkUser (u_id user) (u_username user) (u_email user)
                (u_displayName user) (u_createdAt user) (u_lastLoginAt user)
                (u_isActive user) 1 (u_otpFallbackUsage user)
                (u_successfulAuthentications user)
                (u_failedAuthentications user)]
      ∧ credentials w2
        = credentials w
          ++ [mkCredential (Node.base64urlEncode (ri_credentialID info))
                (u_id user) (ri_credentialPublicKey info) (ri_counter info)
                (Some (WebAuthnController.deviceTypeOf
                         (fb_credential (body finish))))
                (default [] (cj_transports (fb_credential (body finish))))
                later (Some later) 0]
      ∧ challenges w1 = challenges w ++ [challenge]
      ∧ ch_challenge challenge = opt_challenge (rsr_options started)
      ∧ ch_used challenge = false
      ∧ challenges w2 = challenges w ++ [set_used true challenge]
      ∧ resp_verified finished = true
      ∧ us_credentialCount (resp_user finished) = Some 1.
Proof.
  intros ext now later start finish w w1 started info Hunknown Hstart Hname
    Hlater Holder Hverify Hnew.
  destruct (startRegistration_new_user_eq ext now start w w1 started Hunknown
              Hstart)
    as (user & challenge & Hinsert & Husers & Hcreds & Hchallenges & Hchallenge
        & Hfresh & Hsummary).
  apply createUser_inr in Hinsert. destruct Hinsert as (_ & Hfree & Huser).
  assert (Hname_free :
            Mongo.findOne (λ u, String.eqb (u_username u) (rs_username (body start)))
                          (users w) = None).
  { apply findOne_None_all. intros d Hin. specialize (Hfree d Hin).
    unfold UserModel.clash in Hfree. rewrite Huser in Hfree. simpl in Hfree.
    apply orb_false_elim in Hfree. destruct Hfree as [Hfree _].
    apply orb_false_elim in Hfree. destruct Hfree as [Hfree _].
    now rewrite String.eqb_sym. }
  assert (Hid_free : Mongo.findOne (UserModel.byId (u_id user)) (users w) = None).
  { apply findOne_None_all. intros d Hin. specialize (Hfree d Hin).
    unfold UserModel.clash in Hfree.
    apply orb_false_elim in Hfree. destruct Hfree as [Hfree _].
    apply orb_false_elim in Hfree. destruct Hfree as [_ Hfree].
    unfold UserModel.byId. now rewrite String.eqb_sym. }
  assert (Hfound : UserModel.findByUsername (rs_username (body start))
                     (users w1) = Some user).
  { unfold UserModel.findByUsername. rewrite Husers.
    rewrite (findOne_app_None _ _ _ Hname_free). unfold Mongo.findOne. simpl.
    rewrite Huser. simpl. now rewrite String.eqb_refl. }
  assert (Howner : us_id (rsr_user started) = Some (u_id user)).
  { now rewrite Hsummary. }
  assert (Hpending : ChallengeModel.findValidChallenge later registration
                       (Some (u_id user)) (challenges w1) = Some challenge).
  { rewrite Hchallenges. unfold ChallengeModel.findValidChallenge.
    apply findOneSorted_newest.
    - rewrite Hchallenge, validQuery_own. lia.
    - intros d Hin Hvalid. rewrite Hchallenge. simpl.
      apply (Holder d Hin). now rewrite Howner. }
  assert (Hzero : u_passkeyRegistrations user = 0) by now rewrite Huser.
  eexists _, _, user, challenge.
  split; [|split; [exact Howner|split; [exact Husers|split; [exact Hzero|]]]].
  - unfold WebAuthnController.finishRegistration. rewrite Hname. simpl.
    unfold bind at 1. unfold gets at 1. rewrite Hfound.
    unfold bind at 1. unfold gets at 1. rewrite Hpending.
    unfold bind at 1, tryCatch, lift.
    replace (ch_challenge challenge) with (opt_challenge (rsr_options started))
      by now rewrite Hchallenge.
    rewrite Hverify. simpl.
    unfold WebAuthnController.createCredential,
      WebAuthnController.markChallengeAsUsed,
      WebAuthnController.incrementPasskeyRegistrations,
      WebAuthnController.logEvent, WebAuthnController.fresh.
    unfold_handler. simpl.
    unfold CredentialModel.createCredential. simpl.
    rewrite insertOne_fresh.
    + simpl. reflexivity.
    + intros d Hin. unfold CredentialModel.clash. simpl.
      rewrite Hcreds in Hin.
      pose proof (proj1 (findOne_None_all _ _) Hnew d Hin) as Hd.
      unfold CredentialModel.byId in Hd. now rewrite String.eqb_sym.
  - simpl. rewrite Husers, Hcreds, Hchallenges.
    unfold UserModel.incrementPasskeyRegistrations,
      ChallengeModel.markChallengeAsUsed. simpl.
    rewrite (updateOne_app_fresh _ _ _ _ Hid_free).
    rewrite (updateOne_app_fresh _ _ _ _ Hfresh).
    unfold UserModel.byId, ChallengeModel.byId. rewrite !String.eqb_refl.
    rewrite Hzero.
    repeat split; try reflexivity.
    + now rewrite Hchallenge.
    + now rewrite Hchallenge.
Qed.

Lemma registration_ceremony_enrols_credential_witness :
  ∃ finished w2 user challenge,
    WebAuthnController.finishRegistration demoExternal 6000 erinFinish
      (snd (WebAuthnController.startRegistration demoExternal 5000 erinStart
              carolWorld))
    = (inr finished, w2)
    ∧ Some "id-3"%string = Some (u_id user)
    ∧ users (snd (WebAuthnController.startRegistration demoExternal 5000
                    erinStart carolWorld))
      = users carolWorld ++ [user]
    ∧ u_passkeyRegistrations user = 0
    ∧ users w2
      = users carolWorld
        ++ [mkUser (u_id user) (u_username user) (u_email user)
              (u_displayName user) (u_createdAt user) (u_lastLoginAt user)
              (u_isActive user) 1 (u_otpFallbackUsage user)
              (u_successfulAuthentications user)
              (u_failedAuthentications user)]
    ∧ credentials w2
      = credentials carolWorld
        ++ [mkCredential "AQID" (u_id user) [4; 5; 6]%N 0 (Some platform)
              ["internal"%string] 6000 (Some 6000) 0]
    ∧ challenges (snd (WebAuthnController.startRegistration demoExternal 5000
                         erinStart carolWorld))
      = challenges carolWorld ++ [challenge]
    ∧ ch_challenge challenge = "reg-challenge-for-erin"%string
    ∧ ch_used challenge = false
    ∧ challenges w2 = challenges carolWorld ++ [set_used true challenge]
    ∧ resp_verified finished = true
    ∧ us_credentialCount (resp_user finished) = Some 1.
Proof.
  apply (registration_ceremony_enrols_credential demoExternal 5000 6000
           erinStart erinFinish carolWorld
           (snd (WebAuthnController.startRegistration demoExternal 5000
                   erinStart carolWorld))
           (mkRegistrationStartResponse
              (mkOptions "reg-challenge-for-erin" "")
              (mkUserSummary (Some "id-3"%string) (Some "erin"%string)
                             (Some "erin"%string) None))
           (mkRegistrationInfo [1; 2; 3]%N [4; 5; 6]%N 0)).
  - reflexivity.
  - reflexivity.
  - reflexivity.
  - lia.
  - intros d [].
  - reflexivity.
  - reflexivity.
Defined.



(** X21 ([startRegistration], [findByUsernameOrEmail]).  A user stored
    under a username that contains ['@'], with no stored email equal to
    it, cannot start a registration again: the handle is looked up as an
    email only, finds nobody, and the attempt to create the user anew is
    refused by the unique index on usernames.  The request fails with the
    driver's duplicate-key error, having written nothing. *)
Theorem email_like_username_cannot_register_again :
  ∀ (ext : External) (now : Z) (req : Request RegistrationStartBody)
    (w : World) (user : User),
    UserModel.includesAt (rs_username (body req)) = true →
    truthy (rs_email (body req)) = false →
    In user (users w) →
    u_username user = rs_username (body req) →
    UserModel.findByEmail (rs_username (body req)) (users w) = None →
    WebAuthnController.startRegistration ext now req w
    = (inl (JsError "MongoServerError" "E11000 duplicate key error"),
       with_drawn S w).
Proof.
  intros ext now req w user Hat Hnoemail Hin Hname Hnomail.
  unfold WebAuthnController.startRegistration. cbv zeta.
  destruct (String.eqb (rs_username (body req)) "") eqn:Hempty.
  { apply String.eqb_eq in Hempty. rewrite Hempty in Hat. discriminate. }
  unfold bind at 1. unfold gets at 1.
  unfold UserModel.findByUsernameOrEmail. rewrite Hat, Hnomail.
  unfold bind at 1.
  unfold WebAuthnController.createIfEmailFree. rewrite Hnoemail.
  unfold WebAuthnController.createUser, WebAuthnController.fresh.
  unfold_handler. simpl.
  unfold UserModel.createUser.
  rewrite (insertOne_clash UserModel.clash _ user (users w) Hin); [reflexivity|].
  unfold UserModel.clash. simpl. now rewrite Hname, String.eqb_refl.
Qed.

Lemma email_like_username_cannot_register_again_witness :
  fst (WebAuthnController.startRegistration demoExternal 5000 frankStart
         emptyWorld)
  = inr (mkRegistrationStartResponse
           (mkOptions "reg-challenge-for-frank@example.com" "")
           (mkUserSummary (Some "id-0"%string)
              (Some "frank@example.com"%string)
              (Some "frank@example.com"%string) None))
  ∧ fst (WebAuthnController.startRegistration demoExternal 9000 frankStart
           (snd (WebAuthnController.startRegistration demoExternal 5000
                   frankStart emptyWorld)))
    = inl (JsError "MongoServerError" "E11000 duplicate key error").
Proof.
  split; [reflexivity|].
  rewrite (email_like_username_cannot_register_again demoExternal 9000
             frankStart
             (snd (WebAuthnController.startRegistration demoExternal 5000
                     frankStart emptyWorld))
             (mkUser "id-0" "frank@example.com" None
                     (Some "frank@example.com"%string) 5000 None true 0 0 0 0)).
  - reflexivity.
  - reflexivity.
  - reflexivity.
  - simpl. now left.
  - reflexivity.
  - reflexivity.
Defined.

(* ===================================================================== *)
(** * Further properties of the OTP controller                            *)
(* ===================================================================== *)

Lemma pretty_N_go_nonempty (x : N) (s : string) :
  s ≠ ""%string → pretty_N_go x s ≠ ""%string.
Proof.
  revert s. induction (N.lt_wf_0 x) as [x _ IH]. intros s Hs.
  destruct (N.eq_dec x 0%N) as [->|Hx].
  - now rewrite pretty_N_go_0.
  - rewrite pretty_N_go_step by lia. apply IH.
    + apply N.div_lt; lia.
    + discriminate.
Qed.

Lemma pretty_Z_nonempty (z : Z) : pretty z ≠ ""%string.
Proof.
  destruct z as [|p|p]; unfold pretty, pretty_Z; [discriminate| |discriminate].
  unfold pretty, pretty_positive, pretty, pretty_N.
  destruct (decide (N.pos p = 0%N)); [discriminate|].
  rewrite pretty_N_go_step by lia. apply pretty_N_go_nonempty. discriminate.
Qed.

Lemma sendRegistrationOTP_eq (ext : External) (now : Z)
    (req : Request OtpSendBody) (w w1 : World) (sent : OtpSentResponse) :
  OTPController.sendRegistrationOTP ext now req w = (inr sent, w1) →
  let otpId := nanoid ext (S (drawn w)) in
  sent = mkOtpSentResponse true otpId 300 (os_method (body req))
  ∧ otpStore w1
    = <[otpId :=
          mkOtpData otpId
            (if truthy (os_username (body req)) then os_username (body req)
             else os_email (body req))
            (os_email (body req)) (os_phoneNumber (body req)) None None
            (pretty (100000 + randomCode ext (drawn w) `mod` 900000))
            (os_method (body req)) registration 0 3 (now + 5 * 60 * 1000)
            false now]> (otpStore w)
  ∧ otpTimers w1 = otpTimers w ++ [otpId]
  ∧ sameDatabase w w1
  ∧ drawn w1 = S (S (S (drawn w)))
  ∧ truthy (if truthy (os_username (body req)) then os_username (body req)
            else os_email (body req)) = true.
Proof.
  unfold OTPController.sendRegistrationOTP. cbv zeta.
  destruct (negb (truthy (os_username (body req)))
            && negb (truthy (os_email (body req)))) eqn:Hsome;
    [unfold throw; discriminate|].
  destruct (bool_decide _ && _); [unfold throw; discriminate|].
  destruct (bool_decide _ && _); [unfold throw; discriminate|].
  unfold OTPController.generateOtp, OTPController.storeOTP,
    OTPController.logEvent, WebAuthnController.logEvent,
    WebAuthnController.fresh.
  unfold_handler. simpl.
  destruct (os_method (body req)); simpl; intros [= <- <-]; simpl;
    (repeat split; try reflexivity);
    destruct (truthy (os_username (body req))) eqn:Hu; trivial;
    destruct (truthy (os_email (body req))); trivial; discriminate.
Qed.

(** X22 ([sendRegistrationOTP] then [verifyRegistrationOTP]).  The OTP
    registration fallback, end to end.  After a successful send, a verify
    request that presents the ticket id returned, the code generated and
    the handle the ticket was issued for (the username, or the email when
    no username was given), no later than five minutes after the send,
    succeeds for a new handle whose user can be created: the user is
    stored under that handle with the email of the send request, the
    ticket is destroyed, and the same verify request answers "Invalid or
    expired OTP" at any time thereafter. *)
Theorem otp_registration_round_trip :
  ∀ (ext : External) (now later : Z) (send : Request OtpSendBody)
    (verify : Request OtpVerifyBody) (w w1 : World) (sent : OtpSentResponse)
    (handle : string) (docs : list User) (user : User),
    OTPController.sendRegistrationOTP ext now send w = (inr sent, w1) →
    (if truthy (os_username (body send)) then os_username (body send)
     else os_email (body send)) = Some handle →
    osr_otpId sent ≠ ""%string →
    ov_otpId (body verify) = osr_otpId sent →
    ov_otp (body verify)
    = pretty (100000 + randomCode ext (drawn w) `mod` 900000) →
    ov_username (body verify) = Some handle →
    later <= now + 300000 →
    UserModel.findByUsernameOrEmail handle (users w) = None →
    UserModel.createUser (nanoid ext (3 + drawn w)) later handle None
      (os_email (body send)) (users w) = inr (docs, user) →
    ∃ w2,
      OTPController.verifyRegistrationOTP ext later verify w1
      = (inr (mkVerifiedResponse true
                (mkUserSummary (Some (u_id user)) (Some (u_username user))
                               None None)), w2)
      ∧ users w2 = docs
      ∧ otpStore w2 !! osr_otpId sent = None
      ∧ ∀ t, OTPController.verifyRegistrationOTP ext t verify w2
             = (inl (AppError "Invalid or expired OTP" 400), w2).
Proof.
  intros ext now later send verify w w1 sent handle docs user Hsend Hhandle
    Hid Hotpid Hotp Hname Hlater Hunknown Hcreate.
  apply sendRegistrationOTP_eq in Hsend. cbv zeta in Hsend.
  destruct Hsend as (-> & Hstore & _ & (Husers & _ & _) & Hdrawn & Htruthy).
  simpl in Hid, Hotpid.
  rewrite Hhandle in Hstore, Htruthy.
  destruct (truthy_Some _ Htruthy) as (h & [= <-] & Hnonempty).
  assert (Hwell : wellFormed registration (nanoid ext (S (drawn w))) verify).
  { unfold wellFormed. repeat split; trivial.
    - rewrite Hotp. apply pretty_Z_nonempty.
    - simpl. now rewrite Hname. }
  assert (Hrun : ∃ w2,
    OTPController.verifyRegistrationOTP ext later verify w1
    = (inr (mkVerifiedResponse true
              (mkUserSummary (Some (u_id user)) (Some (u_username user))
                             None None)), w2)
    ∧ users w2 = docs
    ∧ otpStore w2 !! nanoid ext (S (drawn w)) = None).
  { unfold OTPController.verifyRegistrationOTP. cbv zeta.
    rewrite Hotpid, Hotp, Hname. simpl.
    apply String.eqb_neq in Hid. rewrite Hid.
    pose proof (pretty_Z_nonempty
                  (100000 + randomCode ext (drawn w) `mod` 900000)) as Hcode.
    apply String.eqb_neq in Hcode. rewrite Hcode.
    apply String.eqb_neq in Hnonempty. rewrite Hnonempty. simpl.
    unfold bind at 1. unfold OTPController.getOTP, gets at 1.
    rewrite Hstore, lookup_insert_eq. simpl.
    replace (now + 5 * 60 * 1000 <? later) with false by lia.
    unfold OTPController.countAttempt, OTPController.logEvent,
      WebAuthnController.logEvent, WebAuthnController.createUser,
      WebAuthnController.fresh, OTPController.deleteOTP.
    unfold_handler. simpl.
    rewrite String.eqb_refl. simpl.
    rewrite bool_decide_eq_true_2 by reflexivity. simpl.
    rewrite Husers, Hunknown.
    unfold with_otp at 1 2. simpl. rewrite Husers, Hdrawn.
    change (S (S (S (drawn w)))) with (3 + drawn w)%nat. rewrite Hcreate.
    unfold with_otp, with_drawn, with_users, with_securityEvents. simpl.
    eexists. split; [reflexivity|]. simpl. split; [reflexivity|].
    apply lookup_delete_eq. }
  destruct Hrun as (w2 & Hverify & Hdocs & Hgone).
  exists w2. split; [exact Hverify|]. split; [exact Hdocs|].
  split; [exact Hgone|].
  intros t.
  exact (verifyOTP_missing ext registration _ t verify w2 Hwell Hgone).
Qed.

Lemma otp_registration_round_trip_witness :
  ∃ w2,
    OTPController.verifyRegistrationOTP demoExternal 2000 (daveVerify "123456")
      daveWorld
    = (inr (mkVerifiedResponse true
              (mkUserSummary (Some "id-3"%string) (Some "dave"%string)
                             None None)), w2)
    ∧ users w2
      = [mkUser "id-3" "dave" (Some "dave@example.com"%string)
                (Some "dave"%string) 2000 None true 0 0 0 0]
    ∧ otpStore w2 !! "id-1"%string = None
    ∧ ∀ t, OTPController.verifyRegistrationOTP demoExternal t
             (daveVerify "123456") w2
           = (inl (AppError "Invalid or expired OTP" 400), w2).
Proof.
  apply (otp_registration_round_trip demoExternal 1000 2000 daveSend
           (daveVerify "123456") emptyWorld daveWorld
           (mkOtpSentResponse true "id-1" 300 email_method) "dave"
           [mkUser "id-3" "dave" (Some "dave@example.com"%string)
                   (Some "dave"%string) 2000 None true 0 0 0 0]
           (mkUser "id-3" "dave" (Some "dave@example.com"%string)
                   (Some "dave"%string) 2000 None true 0 0 0 0)).
  - reflexivity.
  - reflexivity.
  - discriminate.
  - reflexivity.
  - reflexivity.
  - reflexivity.
  - lia.
  - reflexivity.
  - reflexivity.
Defined.

(** X23 ([verifyRegistrationOTP], [verifyAuthenticationOTP]).  A ticket
    presented after its expiry time is destroyed without being checked:
    the handler answers "OTP has expired" (400) whatever the code, right
    or wrong, deletes the ticket, counts no attempt and logs nothing. *)
Theorem expired_otp_is_deleted_unchecked :
  ∀ (ext : External) (kind : ChallengeType) (id : string) (d : OtpData)
    (now : Z) (req : Request OtpVerifyBody) (w : World),
    wellFormed kind id req →
    otpStore w !! id = Some d →
    otp_expiresAt d < now →
    verifyOTP ext kind now req w
    = (inl (AppError "OTP has expired" 400),
       with_otp (delete id) (λ timers, timers) w).
Proof.
  intros ext kind id d now req w Hwf Hsome Hexpired.
  destruct (input_check_passes kind id req Hwf) as [Hi Ho].
  destruct Hwf as (Hid & _ & _ & Htr).
  assert ((otp_expiresAt d <? now) = true) as Hlate by lia.
  destruct kind; simpl in *;
    [unfold OTPController.verifyRegistrationOTP
    |unfold OTPController.verifyAuthenticationOTP];
    rewrite Hi, Ho; simpl.
  - destruct (truthy_Some _ Htr) as (u & -> & Hu). simpl.
    apply String.eqb_neq in Hu. rewrite Hu.
    unfold OTPController.getOTP, OTPController.deleteOTP. unfold_handler.
    rewrite Hid, Hsome, Hlate. reflexivity.
  - rewrite Htr. simpl.
    unfold OTPController.getOTP, OTPController.deleteOTP. unfold_handler.
    rewrite Hid, Hsome, Hlate. reflexivity.
Qed.

Lemma expired_otp_is_deleted_unchecked_witness :
  verifyOTP demoExternal registration 400000 (daveVerify "123456") daveWorld
  = (inl (AppError "OTP has expired" 400),
     with_otp (delete "id-1"%string) (λ timers, timers) daveWorld).
Proof.
  apply (expired_otp_is_deleted_unchecked demoExternal registration "id-1"
           daveTicket 400000 (daveVerify "123456") daveWorld).
  - repeat split; discriminate.
  - reflexivity.
  - reflexivity.
Defined.




(* ===================================================================== *)
(** * Further properties of the canonicalization helper                   *)
(* ===================================================================== *)

Lemma utf8Run_ascii (bytes : Buffer) :
  List.Forall (λ b, (b < 128)%N) bytes → Node.utf8Run Node.Start bytes = bytes.
Proof.
  induction 1 as [|b rest Hb _ IH]; simpl; [reflexivity|].
  cbv beta in Hb.
  unfold Node.utf8Lead.
  assert ((b <=? 127)%N = true) as -> by (apply N.leb_le; lia).
  simpl. now rewrite IH.
Qed.

Lemma base64urlChar_alphabet (v : N) :
  (v < 64)%N → isBase64urlCode (N_of_ascii (Node.base64urlChar v)) = true.
Proof.
  revert v.
  apply (checked1 (λ v, isBase64urlCode (N_of_ascii (Node.base64urlChar v))) 64).
  vm_compute. reflexivity.
Qed.

Lemma codeUnits_base64urlEncode (bytes : Buffer) :
  codeUnits (Node.base64urlEncode bytes)
  = map (λ v, N_of_ascii (Node.base64urlChar v)) (Node.unpack bytes).
Proof.
  unfold Node.base64urlEncode. now rewrite codeUnits_of_list, map_map.
Qed.

Lemma base64urlEncode_alphabet (bytes : Buffer) :
  List.Forall isByte bytes →
  forallb isBase64urlCode (codeUnits (Node.base64urlEncode bytes)) = true.
Proof.
  intros Hall. rewrite codeUnits_base64urlEncode.
  apply forallb_forall. intros c Hin. apply in_map_iff in Hin.
  destruct Hin as (v & <- & Hv). apply base64urlChar_alphabet.
  pose proof (unpack_sextets bytes Hall) as Hsext.
  rewrite List.Forall_forall in Hsext. exact (Hsext v Hv).
Qed.

Lemma alphabet_ascii (text : list N) :
  forallb isBase64urlCode text = true → List.Forall (λ b, (b < 128)%N) text.
Proof.
  intros Hall. apply List.Forall_forall. intros c Hin.
  apply isBase64urlCode_ascii. rewrite forallb_forall in Hall. now apply Hall.
Qed.

Lemma utf8Encode_ascii (s : string) :
  List.Forall (λ b, (b < 128)%N) (codeUnits s) → utf8Encode s = codeUnits s.
Proof.
  unfold utf8Encode. induction 1 as [|c rest Hc _ IH]; simpl; [reflexivity|].
  cbv beta in Hc.
  assert ((c <? 128)%N = true) as -> by (apply N.ltb_lt; lia). simpl. now rewrite IH.
Qed.

Lemma fromCodeUnits_codeUnits (s : string) : fromCodeUnits (codeUnits s) = s.
Proof.
  unfold fromCodeUnits, codeUnits. rewrite map_map.
  rewrite (map_ext _ (λ c, c)) by (intros c; apply ascii_N_embedding).
  rewrite map_id. apply String.string_of_list_ascii_of_string.
Qed.

Lemma codeUnits_fromCodeUnits (text : list N) :
  List.Forall (λ b, (b < 256)%N) text → codeUnits (fromCodeUnits text) = text.
Proof.
  intros Hall. unfold fromCodeUnits. rewrite codeUnits_of_list, map_map.
  induction Hall as [|c rest Hc _ IH]; simpl; [reflexivity|].
  cbv beta in Hc.
  rewrite N_ascii_embedding by exact Hc. now rewrite IH.
Qed.

Lemma unpack_longer (bytes : Buffer) :
  bytes ≠ [] → (length bytes < length (Node.unpack bytes))%nat.
Proof.
  induction bytes as [| | |a b c rest IH] using list_ind3; intros Hne;
    simpl; try lia; [congruence|].
  destruct rest as [|d rest]; [simpl; lia|].
  assert (d :: rest ≠ []) as Hrest by discriminate.
  specialize (IH Hrest). simpl in IH. simpl. lia.
Qed.

Lemma unwraps_encoded (bytes : Buffer) :
  List.Forall isByte bytes →
  unwraps (Node.base64urlEncode bytes)
  = matchesBase64url (Node.utf8Decode bytes).
Proof.
  intros Hall. rewrite unwraps_matches.
  now rewrite base64Decode_base64urlEncode.
Qed.

Lemma canonicalize_plain (bytes : Buffer) :
  List.Forall isByte bytes →
  matchesBase64url (Node.utf8Decode bytes) = false →
  canonicalize (Node.base64urlEncode bytes)
  = mkCanonical (Node.base64urlEncode bytes) [].
Proof.
  intros Hall Hraw.
  assert (reencoded (Node.base64urlEncode bytes) = Node.base64urlEncode bytes)
    as Hfix.
  { unfold reencoded. now rewrite base64Decode_base64urlEncode. }
  rewrite <- Hfix. apply canonicalize_reencoded.
  now rewrite unwraps_encoded.
Qed.

Lemma canonicalize_double (bytes : Buffer) :
  List.Forall isByte bytes →
  bytes ≠ [] →
  matchesBase64url (Node.utf8Decode bytes) = false →
  canonicalize (Node.base64urlEncode (utf8Encode (Node.base64urlEncode bytes)))
  = mkCanonical (Node.base64urlEncode bytes) ["unwrap-layer-1"%string].
Proof.
  intros Hall Hne Hraw.
  set (inner := Node.base64urlEncode bytes).
  pose proof (base64urlEncode_alphabet bytes Hall) as Halpha. fold inner in Halpha.
  pose proof (alphabet_ascii _ Halpha) as Hascii.
  rewrite (utf8Encode_ascii inner Hascii).
  assert (Hbytes : List.Forall isByte (codeUnits inner)).
  { eapply List.Forall_impl; [|exact Hascii]. unfold isByte. intros; lia. }
  assert (Hinner : codeUnits inner ≠ []).
  { unfold inner. rewrite codeUnits_base64urlEncode.
    pose proof (unpack_longer bytes Hne) as Hlen.
    destruct (Node.unpack bytes); [simpl in Hlen; lia|discriminate]. }
  assert (Houter : unwraps (Node.base64urlEncode (codeUnits inner)) = true).
  { rewrite unwraps_encoded by exact Hbytes.
    unfold Node.utf8Decode. rewrite (utf8Run_ascii _ Hascii).
    unfold matchesBase64url. destruct (codeUnits inner); [congruence|].
    exact Halpha. }
  assert (Hrest : unwraps inner = false).
  { unfold inner. now rewrite unwraps_encoded. }
  assert (Hfix : reencoded inner = inner).
  { unfold reencoded, inner. now rewrite base64Decode_base64urlEncode. }
  unfold canonicalize, canonicalizeCredentialId. cbn [loop].
  rewrite iteration_node, Houter.
  rewrite (base64Decode_base64urlEncode _ Hbytes).
  unfold Node.utf8Decode at 1. rewrite (utf8Run_ascii _ Hascii).
  rewrite fromCodeUnits_codeUnits.
  rewrite iteration_node, Hrest, Hfix, String.eqb_refl.
  reflexivity.
Qed.

(** X25 ([canonicalizeCredentialId]).  Canonicalization undoes exactly one
    extra layer of encoding.  For raw credential-id bytes that are not
    themselves base64url text, the id as registration stores it (the
    unpadded base64url of the bytes) is returned unchanged with no
    transformation recorded, and the legacy double encoding of that id
    (the base64url of the id's characters) is unwrapped to the id, with
    the single step ["unwrap-layer-1"]. *)
Theorem canonicalize_undoes_one_extra_encoding :
  ∀ (bytes : Buffer),
    List.Forall isByte bytes →
    bytes ≠ [] →
    matchesBase64url (Node.utf8Decode bytes) = false →
    let id := Node.base64urlEncode bytes in
    canonicalize id = mkCanonical id []
    ∧ canonicalize (Node.base64urlEncode (utf8Encode id))
      = mkCanonical id ["unwrap-layer-1"%string].
Proof.
  intros bytes Hall Hne Hraw id. split.
  - now apply canonicalize_plain.
  - now apply canonicalize_double.
Qed.

Lemma canonicalize_undoes_one_extra_encoding_witness :
  canonicalize "AAECAwQFBgc" = mkCanonical "AAECAwQFBgc" []
  ∧ canonicalize "QUFFQ0F3UUZCZ2M"
    = mkCanonical "AAECAwQFBgc" ["unwrap-layer-1"%string].
Proof.
  apply (canonicalize_undoes_one_extra_encoding [0; 1; 2; 3; 4; 5; 6; 7]%N).
  - repeat (apply List.Forall_cons; [reflexivity|]). apply List.Forall_nil.
  - discriminate.
  - reflexivity.
Defined.

(** X26 ([canonicalizeCredentialId]).  On the server's runtime the
    canonical id of any string whatsoever consists of characters of the
    base64url alphabet only (it may be empty): no padding, no ['+'] or
    ['/'], no whitespace, nothing outside [A-Za-z0-9_-] survives. *)
Theorem canonical_id_is_base64url_text :
  ∀ (x : string),
    forallb isBase64urlCode (codeUnits (canonical (canonicalize x))) = true.
Proof.
  intros x.
  assert (Hre : ∀ s, forallb isBase64urlCode (codeUnits (reencoded s)) = true).
  { intros s. apply base64urlEncode_alphabet, base64Decode_bytes. }
  unfold canonicalize, canonicalizeCredentialId. cbn [loop].
  rewrite iteration_node.
  destruct (unwraps x) eqn:Hx; [|apply Hre].
  rewrite iteration_node.
  destruct (unwraps (fromCodeUnits _)) eqn:Hy; [|apply Hre].
  cbn [loop canonical].
  rewrite unwraps_matches in Hy.
  set (text := Node.utf8Decode (Node.base64Decode
                 (fromCodeUnits (Node.utf8Decode (Node.base64Decode x))))) in *.
  assert (Halpha : forallb isBase64urlCode text = true).
  { unfold matchesBase64url in Hy. destruct text; [discriminate|exact Hy]. }
  rewrite codeUnits_fromCodeUnits; [exact Halpha|].
  eapply List.Forall_impl; [|exact (alphabet_ascii _ Halpha)].
  intros c Hc. simpl in Hc. lia.
Qed.

(** X27 ([finishAuthentication], the lookup ladder).  An assertion that
    presents the legacy double encoding of a credential id is resolved to
    the credential stored under the plain id: when no credential is stored
    under the id as received, the second step of the ladder canonicalizes
    it and finds the credential, whoever the asserting user is, and the
    migration step then leaves the record as it is. *)
Theorem doubly_encoded_id_resolves_to_stored_credential :
  ∀ (ext : External) (bytes : Buffer) (authUser : option User) (w : World)
    (stored : Credential),
    List.Forall isByte bytes →
    bytes ≠ [] →
    matchesBase64url (Node.utf8Decode bytes) = false →
    let id := Node.base64urlEncode bytes in
    let received := Node.base64urlEncode (utf8Encode id) in
    CredentialModel.findById id (credentials w) = Some stored →
    CredentialModel.findById received (credentials w) = None →
    WebAuthnController.lookupCredential ext received authUser w = Some stored
    ∧ WebAuthnController.migrate ext received stored w = (inr stored, w).
Proof.
  intros ext bytes authUser w stored Hall Hne Hraw id received Hstored Hnone.
  pose proof (canonicalize_double bytes Hall Hne Hraw) as Hcanon.
  fold id in Hcanon. fold received in Hcanon.
  assert (id ≠ received) as Hdiff.
  { intros Heq. apply (f_equal String.length) in Heq.
    unfold received in Heq.
    pose proof (base64urlEncode_alphabet bytes Hall) as Halpha. fold id in Halpha.
    rewrite (utf8Encode_ascii id (alphabet_ascii _ Halpha)) in Heq.
    rewrite <- !length_codeUnits in Heq.
    rewrite (codeUnits_base64urlEncode (codeUnits id)), length_map in Heq.
    assert (codeUnits id ≠ []) as Hid.
    { unfold id. rewrite codeUnits_base64urlEncode.
      pose proof (unpack_longer bytes Hne) as Hlen.
      destruct (Node.unpack bytes); [simpl in Hlen; lia|discriminate]. }
    pose proof (unpack_longer (codeUnits id) Hid). lia. }
  split.
  - unfold WebAuthnController.lookupCredential, WebAuthnController.orTry.
    rewrite Hnone, Hcanon. simpl canonical.
    apply String.eqb_neq in Hdiff. rewrite Hdiff. simpl.
    now rewrite Hstored.
  - apply migrate_canonical.
    assert (cr_id stored = id) as ->.
    { apply findOne_Some_true in Hstored. destruct Hstored as [_ Hq].
      now apply String.eqb_eq in Hq. }
    unfold id. now rewrite (canonicalize_plain bytes Hall Hraw).
Qed.

Lemma doubly_encoded_id_resolves_to_stored_credential_witness :
  WebAuthnController.lookupCredential demoExternal "QUFFQ0F3UUZCZ2M" None
    twoCeremonies = Some aliceKey
  ∧ WebAuthnController.migrate demoExternal "QUFFQ0F3UUZCZ2M" aliceKey
      twoCeremonies = (inr aliceKey, twoCeremonies).
Proof.
  apply (doubly_encoded_id_resolves_to_stored_credential demoExternal
           [0; 1; 2; 3; 4; 5; 6; 7]%N None twoCeremonies aliceKey).
  - repeat (apply List.Forall_cons; [reflexivity|]). apply List.Forall_nil.
  - discriminate.
  - reflexivity.
  - reflexivity.
  - reflexivity.
Defined.

(* ===================================================================== *)
(** * The tickets in the OTP store                                        *)
(* ===================================================================== *)

Lemma sameTickets_frame0 : Frame0 sameTickets.
Proof.
  constructor; unfold sameTickets; try reflexivity.
  intros a b c Hab Hbc. congruence.
Qed.

Lemma sameTickets_frame : Frame sameTickets.
Proof. split; [exact sameTickets_frame0|reflexivity]. Qed.

Section Guards.
Context {A B : Type} (I : World → Prop).

Lemma guards_ret (a : A) : guards I (ret a).
Proof. intros w Hw. exact Hw. Qed.

Lemma guards_throw (e : exn) : guards I (throw (A := A) e).
Proof. intros w Hw. exact Hw. Qed.

Lemma guards_gets (f : World → A) : guards I (gets f).
Proof. intros w Hw. exact Hw. Qed.

Lemma guards_bind (m : M A) (k : A → M B) :
  guards I m → (∀ a, guards I (k a)) → guards I (bind m k).
Proof.
  intros Hm Hk w Hw. unfold bind. specialize (Hm w Hw).
  destruct (m w) as [[e|a] w']; simpl in *; [exact Hm|].
  exact (Hk a w' Hm).
Qed.

End Guards.

Lemma guards_same {A : Type} (m : M A) :
  keeps sameTickets m → guards ticketsOk m.
Proof.
  intros Hkeeps w Hw id d. rewrite (Hkeeps w). apply Hw.
Qed.

Lemma guards_getOTP {B : Type} (id : string) (k : option OtpData → M B) :
  (∀ stored, (∀ d, stored = Some d → ticketOk id d) →
             guards ticketsOk (k stored)) →
  guards ticketsOk (bind (OTPController.getOTP id) k).
Proof.
  intros Hk w Hw. unfold bind, OTPController.getOTP, gets.
  apply Hk; [|exact Hw]. intros d Hd. exact (Hw id d Hd).
Qed.

Lemma ticketsOk_insert (id : string) (d : OtpData) (w : World)
    (timers : list string → list string) :
  ticketOk id d → ticketsOk w → ticketsOk (with_otp (<[id := d]>) timers w).
Proof.
  intros Hd Hw id' d'. simpl.
  destruct (decide (id = id')) as [<-|Hne].
  - rewrite lookup_insert_eq. now intros [= <-].
  - rewrite lookup_insert_ne by exact Hne. apply Hw.
Qed.

Lemma ticketsOk_delete (id : string) (w : World)
    (timers : list string → list string) :
  ticketsOk w → ticketsOk (with_otp (delete id) timers w).
Proof.
  intros Hw id' d'. simpl. intros Hd.
  apply lookup_delete_Some in Hd. destruct Hd as [_ Hd]. exact (Hw id' d' Hd).
Qed.

Lemma guards_storeOTP (id : string) (d : OtpData) :
  ticketOk id d → guards ticketsOk (OTPController.storeOTP id d).
Proof. intros Hd w Hw. now apply ticketsOk_insert. Qed.

Lemma guards_deleteOTP (id : string) :
  guards ticketsOk (OTPController.deleteOTP id).
Proof. intros w Hw. now apply ticketsOk_delete. Qed.

Lemma ticketOk_counted (id : string) (d : OtpData) :
  ticketOk id d →
  (otp_maxAttempts d <=? otp_attempts d) = false →
  ticketOk id (set_attempts (otp_attempts d + 1) d).
Proof.
  unfold ticketOk. intros (Hid & Hmax & Hrange & Hver) Hleft.
  simpl. repeat split; trivial; lia.
Qed.

Lemma guards_countAttempt {B : Type} (id : string) (d : OtpData)
    (k : OtpData → M B) :
  ticketOk id (set_attempts (otp_attempts d + 1) d) →
  guards ticketsOk (k (set_attempts (otp_attempts d + 1) d)) →
  guards ticketsOk (bind (OTPController.countAttempt id d) k).
Proof.
  intros Hd Hk w Hw. unfold bind, OTPController.countAttempt.
  unfold_handler. simpl. apply Hk. now apply ticketsOk_insert.
Qed.

Ltac guards_step ext :=
  lazymatch goal with
  | |- guards _ (bind (OTPController.getOTP _) _) =>
      apply guards_getOTP; intros ? ?
  | |- guards _ (bind _ _) => apply guards_bind; [|intros ?]
  | |- guards _ (ret _) => apply guards_ret
  | |- guards _ (throw _) => apply guards_throw
  | |- guards _ (gets _) => apply guards_gets
  | |- guards _ (OTPController.deleteOTP _) => apply guards_deleteOTP
  | |- guards _ (OTPController.logEvent _ _ _ _ _ _ _ _) =>
      apply guards_same, (keeps_logEvent _ sameTickets_frame0)
  | |- guards _ (OTPController.generateOtp _) =>
      apply guards_same, (keeps_generateOtp _ sameTickets_frame0)
  | |- guards _ (WebAuthnController.fresh _) =>
      apply guards_same, (keeps_fresh _ sameTickets_frame0)
  | |- guards _ (WebAuthnController.createUser _ _ _ _ _) =>
      apply guards_same, (keeps_createUser _ sameTickets_frame0)
  | |- guards _ (WebAuthnController.incrementSuccessfulAuthentications _ _) =>
      apply guards_same,
        (keeps_incrementSuccessfulAuthentications _ sameTickets_frame0)
  | |- guards _ (if ?b then _ else _) => destruct b eqn:?
  | |- guards _ (match ?x with _ => _ end) => destruct x eqn:?
  end.

Lemma guards_sendRegistrationOTP (ext : External) now req :
  guards ticketsOk (OTPController.sendRegistrationOTP ext now req).
Proof.
  unfold OTPController.sendRegistrationOTP. cbv zeta.
  do 3 (guards_step ext; [guards_step ext|]).
  guards_step ext; [guards_step ext|].
  guards_step ext; [guards_step ext|].
  guards_step ext.
  { apply guards_storeOTP. unfold ticketOk. simpl. repeat split; lia. }
  repeat guards_step ext.
Qed.

Lemma guards_sendAuthenticationOTP (ext : External) now req :
  guards ticketsOk (OTPController.sendAuthenticationOTP ext now req).
Proof.
  unfold OTPController.sendAuthenticationOTP. cbv zeta.
  guards_step ext; [guards_step ext|].
  guards_step ext; [guards_step ext|].
  guards_step ext; [|guards_step ext].
  guards_step ext; [guards_step ext|].
  guards_step ext; [guards_step ext|].
  guards_step ext.
  { apply guards_storeOTP. unfold ticketOk. simpl. repeat split; lia. }
  repeat guards_step ext.
Qed.

Lemma guards_verifyRegistrationOTP (ext : External) now req :
  guards ticketsOk (OTPController.verifyRegistrationOTP ext now req).
Proof.
  unfold OTPController.verifyRegistrationOTP. cbv zeta.
  guards_step ext; [guards_step ext|].
  guards_step ext. guards_step ext; [|guards_step ext].
  match goal with
  | H : ∀ d, Some ?o = Some d → ticketOk _ d |- _ =>
      pose proof (H o eq_refl) as Hticket; clear H
  end.
  guards_step ext; [repeat guards_step ext|].
  guards_step ext; [repeat guards_step ext|].
  apply guards_countAttempt; [now apply ticketOk_counted|].
  guards_step ext.
  - guards_step ext.
    { apply guards_storeOTP. now apply ticketOk_counted. }
    repeat guards_step ext.
  - repeat guards_step ext.
Qed.

Lemma guards_verifyAuthenticationOTP (ext : External) now req :
  guards ticketsOk (OTPController.verifyAuthenticationOTP ext now req).
Proof.
  unfold OTPController.verifyAuthenticationOTP. cbv zeta.
  guards_step ext; [guards_step ext|].
  guards_step ext. guards_step ext; [|guards_step ext].
  match goal with
  | H : ∀ d, Some ?o = Some d → ticketOk _ d |- _ =>
      pose proof (H o eq_refl) as Hticket; clear H
  end.
  guards_step ext; [repeat guards_step ext|].
  guards_step ext; [repeat guards_step ext|].
  apply guards_countAttempt; [now apply ticketOk_counted|].
  guards_step ext.
  - guards_step ext.
    { apply guards_storeOTP. now apply ticketOk_counted. }
    repeat guards_step ext.
  - repeat guards_step ext.
Qed.

Lemma handle_ticketsOk (ext : External) (now : Z) (call : Call) (w : World) :
  ticketsOk w → ticketsOk (handle ext now call w).
Proof.
  destruct call; simpl.
  - apply guards_same, (keeps_startRegistration _ sameTickets_frame0).
  - apply guards_same, (keeps_finishRegistration _ sameTickets_frame).
  - apply guards_same, (keeps_startAuthentication _ sameTickets_frame0).
  - apply guards_same, (keeps_finishAuthentication _ sameTickets_frame0).
  - apply guards_sendRegistrationOTP.
  - apply guards_verifyRegistrationOTP.
  - apply guards_sendAuthenticationOTP.
  - apply guards_verifyAuthenticationOTP.
  - apply ticketsOk_delete.
  - intros Hw. exact Hw.
Qed.

(** X28 (the OTP controller, all four handlers).  In every state the
    server reaches from an empty one, every ticket in the OTP store is
    filed under its own id, allows three attempts, has used between zero
    and three of them and is not marked verified.  No sequence of requests
    drives an attempt counter past its bound. *)
Theorem reachable_tickets_are_bounded :
  ∀ (ext : External) (history : list (Z * Call)) (id : string) (d : OtpData),
    otpStore (serve ext history emptyWorld) !! id = Some d →
    otp_id d = id ∧ otp_maxAttempts d = 3
    ∧ 0 <= otp_attempts d <= 3
    ∧ otp_verified d = false.
Proof.
  intros ext history.
  assert (Hall : ∀ w, ticketsOk w → ticketsOk (serve ext history w)).
  { induction history as [|[now call] rest IH]; intros w Hw; simpl;
      [exact Hw|].
    apply IH. now apply handle_ticketsOk. }
  apply (Hall emptyWorld). intros id d Hd. simpl in Hd.
  rewrite lookup_empty in Hd. discriminate.
Qed.

Lemma reachable_tickets_are_bounded_witness :
  otp_id daveTicket = "id-1"%string ∧ otp_maxAttempts daveTicket = 3
  ∧ 0 <= otp_attempts daveTicket <= 3
  ∧ otp_verified daveTicket = false.
Proof.
  apply (reachable_tickets_are_bounded demoExternal
           [(1000, SendRegistrationOTP daveSend)] "id-1" daveTicket).
  reflexivity.
Defined.

(* ===================================================================== *)
(** * Credentials and their owners                                        *)
(* ===================================================================== *)


Lemma owned_frame0 : Frame0 (λ w w', owned w → owned w').
Proof.
  constructor; try (intros; assumption); try tauto.
  - intros w id now username displayName email docs user Hcreate Hw c Hin.
    apply createUser_inr in Hcreate. destruct Hcreate as (-> & _).
    simpl in *. destruct (Hw c Hin) as (u & Hu & Hid).
    exists u. split; [apply in_or_app; now left|exact Hid].
  - intros w now id newCounter Hw c Hin. simpl in *.
    unfold CredentialModel.updateCounter in Hin. simpl in Hin.
    apply updateOne_In in Hin. destruct Hin as [Hin|(y & Hy & ->)].
    + exact (Hw c Hin).
    + exact (Hw y Hy).
  - intros w id Hw c Hin. simpl in *.
    unfold CredentialModel.updateCredentialEmpty in Hin. simpl in Hin.
    apply updateOne_In in Hin. destruct Hin as [Hin|(y & Hy & ->)].
    + exact (Hw c Hin).
    + exact (Hw y Hy).
  - intros w id Hw c Hin. simpl in *.
    destruct (Hw c Hin) as (u & Hu & Hid).
    unfold UserModel.incrementPasskeyRegistrations. simpl.
    match goal with
    | |- context [Mongo.updateOne ?q ?upd (users w)] =>
        destruct (updateOne_keeps q upd (users w) u Hu) as [Hkept|Hkept]
    end.
    + exists u. auto.
    + eexists. split; [exact Hkept|exact Hid].
  - intros w now id Hw c Hin. simpl in *.
    destruct (Hw c Hin) as (u & Hu & Hid).
    unfold UserModel.incrementSuccessfulAuthentications. simpl.
    match goal with
    | |- context [Mongo.updateOne ?q ?upd (users w)] =>
        destruct (updateOne_keeps q upd (users w) u Hu) as [Hkept|Hkept]
    end.
    + exists u. auto.
    + eexists. split; [exact Hkept|exact Hid].
Qed.

(** What [finishRegistration] does to the credentials: nothing, or one
    insert for the user it looked up. *)
Lemma finishRegistration_credentials_eq (ext : External) (now : Z)
    (req : Request FinishBody) (w w' : World) (res : exn + VerifiedResponse) :
  WebAuthnController.finishRegistration ext now req w = (res, w') →
  credentials w' = credentials w
  ∨ ∃ user c,
      In user (users w) ∧ credentials w' = credentials w ++ [c]
      ∧ cr_userId c = u_id user.
Proof.
  unfold WebAuthnController.finishRegistration.
  unfold bind at 1. unfold gets at 1.
  destruct (UserModel.findByUsername _ _) as [user|] eqn:Hfound;
    [|unfold throw; intros [= <- <-]; now left].
  apply findOne_Some_true in Hfound. destruct Hfound as [Huser _].
  unfold bind at 1. unfold gets at 1.
  destruct (ChallengeModel.findValidChallenge _ _ _ _) as [challenge|];
    [|unfold throw; intros [= <- <-]; now left].
  unfold bind at 1, tryCatch, lift.
  destruct (verifyRegistrationResponse ext _) as [e|v].
  - unfold WebAuthnController.logEvent, WebAuthnController.fresh.
    unfold_handler. simpl. intros [= <- <-]. now left.
  - destruct (vr_verified v), (vr_registrationInfo v) as [info|];
      try (unfold_handler; intros [= <- <-]; now left).
    unfold WebAuthnController.createCredential,
      WebAuthnController.markChallengeAsUsed,
      WebAuthnController.incrementPasskeyRegistrations,
      WebAuthnController.logEvent, WebAuthnController.fresh.
    unfold_handler. simpl.
    destruct (CredentialModel.createCredential _ _ _) as [e|[docs doc]] eqn:Hc;
      simpl; intros [= <- <-]; [now left|].
    apply createCredential_inr in Hc. destruct Hc as (-> & _ & ->).
    right. exists user. eexists. split; [exact Huser|].
    split; reflexivity.
Qed.

Lemma handle_owned (ext : External) (now : Z) (call : Call) (w : World) :
  owned w → owned (handle ext now call w).
Proof.
  intros Hw.
  assert (Hother : (∀ req, call ≠ FinishRegistration req) →
                   (∀ batch, call ≠ TtlMonitor batch) →
                   owned (handle ext now call w)).
  { intros Hne Hrequest.
    exact (handle_keeps0 _ owned_frame0 (λ w f g H, H) ext now call w Hne
             Hrequest Hw). }
  destruct call; try (apply Hother; discriminate); [|exact Hw].
  clear Hother. simpl.
  pose proof (keeps_finishRegistration evolves evolves_frame ext now req w)
    as (Husers & _).
  destruct (WebAuthnController.finishRegistration ext now req w)
    as [res w'] eqn:Hrun.
  apply finishRegistration_credentials_eq in Hrun. simpl in *.
  assert (Hkept : ∀ u, In u (users w) → ∃ u', In u' (users w') ∧ u_id u' = u_id u).
  { intros u Hu. destruct (grows_In _ _ _ _ Husers Hu) as (u' & Hu' & Hrel).
    exists u'. split; [exact Hu'|apply Hrel]. }
  intros c Hin.
  destruct Hrun as [Hsame|(user & c' & Huser & Hnew & Hid)].
  - rewrite Hsame in Hin. destruct (Hw c Hin) as (u & Hu & Hcu).
    destruct (Hkept u Hu) as (u' & Hu' & Huid). exists u'.
    split; [exact Hu'|congruence].
  - rewrite Hnew in Hin. apply in_app_or in Hin.
    destruct Hin as [Hin|[<-|[]]].
    + destruct (Hw c Hin) as (u & Hu & Hcu).
      destruct (Hkept u Hu) as (u' & Hu' & Huid). exists u'.
      split; [exact Hu'|congruence].
    + destruct (Hkept user Huser) as (u' & Hu' & Huid). exists u'.
      split; [exact Hu'|congruence].
Qed.

(** X29 ([finishRegistration], [createCredential], [createUser]).  In
    every state the server reaches from an empty database, every stored
    credential belongs to a stored user: its [userId] is the id of a user
    in the users collection.  Credentials are only ever created for a user
    that [finishRegistration] has just looked up, and users are never
    deleted nor renumbered. *)
Theorem reachable_credentials_have_owners :
  ∀ (ext : External) (history : list (Z * Call)) (c : Credential),
    In c (credentials (serve ext history emptyWorld)) →
    ∃ u, In u (users (serve ext history emptyWorld)) ∧ u_id u = cr_userId c.
Proof.
  intros ext history.
  assert (Hall : ∀ w, owned w → owned (serve ext history w)).
  { induction history as [|[now call] rest IH]; intros w Hw; simpl;
      [exact Hw|].
    apply IH. now apply handle_owned. }
  apply (Hall emptyWorld). intros c [].
Qed.

Lemma reachable_credentials_have_owners_witness :
  ∃ u,
    In u (users (serve demoExternal
                   [(5000, StartRegistration erinStart);
                    (6000, FinishRegistration erinFinish)] emptyWorld))
    ∧ u_id u = "id-0"%string.
Proof.
  apply (reachable_credentials_have_owners demoExternal
           [(5000, StartRegistration erinStart);
            (6000, FinishRegistration erinFinish)]
           (mkCredential "AQID" "id-0" [4; 5; 6]%N 0 (Some platform)
                         ["internal"%string] 6000 (Some 6000) 0)).
  vm_compute. now left.
Defined.

Lemma startRegistration_known_user_eq (ext : External) (now : Z)
    (req : Request RegistrationStartBody) (w w' : World)
    (response : RegistrationStartResponse) (user : User) :
  UserModel.findByUsernameOrEmail (rs_username (body req)) (users w)
  = Some user →
  WebAuthnController.startRegistration ext now req w = (inr response, w') →
  users w' = users w
  ∧ credentials w' = credentials w
  ∧ challenges w'
    = challenges w
      ++ [mkChallenge (nanoid ext (drawn w)) (orElse (Some (u_id user)) "")
            (opt_challenge (rsr_options response)) registration now
            (now + 5 * 60 * 1000) false]
  ∧ rsr_user response
    = mkUserSummary (Some (u_id user)) (Some (u_username user))
        (u_displayName user) None.
Proof.
  intros Hknown. unfold WebAuthnController.startRegistration. cbv zeta.
  destruct (String.eqb (rs_username (body req)) "");
    [unfold throw; discriminate|].
  unfold bind at 1. unfold gets at 1. rewrite Hknown.
  unfold bind at 1. unfold ret at 1.
  unfold bind at 1. unfold gets at 1.
  unfold bind at 1. unfold lift at 1.
  destruct (generateRegistrationOptions ext _) as [e|options]; [discriminate|].
  unfold WebAuthnController.createChallenge, WebAuthnController.logEvent,
    WebAuthnController.fresh.
  unfold_handler. simpl.
  destruct (ChallengeModel.createChallenge _ _ _ _ _ _ _ _) as [e|[docs doc]] eqn:Hc;
    simpl; [discriminate|].
  intros [= <- <-]. simpl.
  apply createChallenge_inr in Hc. destruct Hc as (-> & _ & ->).
  repeat split.
Qed.

(** X30 ([startRegistration] then [finishRegistration]).  A registration
    started under an email cannot be finished under it.
    [startRegistration] resolves a handle containing ['@'] as an email, so
    for a user known by that email it succeeds and stores a challenge for
    that user; [finishRegistration] resolves the same handle as a username
    only, so, when nobody has it as username, it answers "User not found"
    (404) at any time, leaving the state, and the pending challenge, as
    they were. *)
Theorem registration_started_by_email_cannot_finish :
  ∀ (ext : External) (now later : Z) (start : Request RegistrationStartBody)
    (finish : Request FinishBody) (w w1 : World)
    (started : RegistrationStartResponse) (owner : User),
    UserModel.includesAt (rs_username (body start)) = true →
    UserModel.findByEmail (rs_username (body start)) (users w) = Some owner →
    UserModel.findByUsername (rs_username (body start)) (users w) = None →
    WebAuthnController.startRegistration ext now start w = (inr started, w1) →
    fb_username (body finish) = Some (rs_username (body start)) →
    us_id (rsr_user started) = Some (u_id owner)
    ∧ (∃ challenge,
         challenges w1 = challenges w ++ [challenge]
         ∧ ch_userId challenge = u_id owner
         ∧ ch_challenge challenge = opt_challenge (rsr_options started))
    ∧ WebAuthnController.finishRegistration ext later finish w1
      = (inl (AppError "User not found" 404), w1).
Proof.
  intros ext now later start finish w w1 started owner Hat Hemail Hname Hstart
    Hfinish.
  assert (Hknown : UserModel.findByUsernameOrEmail (rs_username (body start))
                     (users w) = Some owner).
  { unfold UserModel.findByUsernameOrEmail. now rewrite Hat. }
  destruct (startRegistration_known_user_eq ext now start w w1 started owner
              Hknown Hstart) as (Husers & _ & Hchallenges & Hsummary).
  split; [now rewrite Hsummary|]. split.
  - eexists. split; [exact Hchallenges|]. simpl.
    split; [apply orElse_Some_empty|reflexivity].
  - unfold WebAuthnController.finishRegistration. rewrite Hfinish. simpl.
    unfold bind at 1. unfold gets at 1. rewrite Husers, Hname. reflexivity.
Qed.

Lemma registration_started_by_email_cannot_finish_witness :
  fst (WebAuthnController.startRegistration demoExternal 5000 aliceByEmail
         aliceOnly)
  = inr (mkRegistrationStartResponse
           (mkOptions "reg-challenge-for-alice" "")
           (mkUserSummary (Some "u-alice"%string) (Some "alice"%string)
                          (Some "Alice"%string) None))
  ∧ fst (WebAuthnController.finishRegistration demoExternal 6000
           aliceByEmailFinish
           (snd (WebAuthnController.startRegistration demoExternal 5000
                   aliceByEmail aliceOnly)))
    = inl (AppError "User not found" 404).
Proof.
  split; [reflexivity|].
  destruct (registration_started_by_email_cannot_finish demoExternal 5000 6000
              aliceByEmail aliceByEmailFinish aliceOnly
              (snd (WebAuthnController.startRegistration demoExternal 5000
                      aliceByEmail aliceOnly))
              (mkRegistrationStartResponse
                 (mkOptions "reg-challenge-for-alice" "")
                 (mkUserSummary (Some "u-alice"%string) (Some "alice"%string)
                                (Some "Alice"%string) None))
              alice) as (_ & _ & Hfinish).
  - reflexivity.
  - reflexivity.
  - reflexivity.
  - reflexivity.
  - reflexivity.
  - now rewrite Hfinish.
Defined.
